(** * The Hive: family scoping, identity and state consistency

    A shallow embedding of the data layer of [streamlit_app.py]: the SQLite
    tables the application reads and writes, the statements its buttons
    issue, and the small algorithms around them (calendar windows, the
    wishlist claim workflow, the chat cursor, note ordering, identity
    bootstrap).

    Tables with an [INTEGER PRIMARY KEY] are finite maps from the row id to
    the remaining columns, so uniqueness of the key holds by construction.
    A nullable [TEXT] column is an [option string]; Python truthiness of such
    a value is [truthy].  Dates follow CPython's [datetime]: a date is a
    (year, month, day) triple, arithmetic goes through proleptic Gregorian
    ordinals and fails outside years 1..9999. *)

From stdpp Require Import gmap strings list sorting pretty.
From Stdlib Require Import ZArith Lia Ascii String.

Open Scope string_scope.
Open Scope Z_scope.

(** ** Python values *)

(** [bool(x)] for an optional string: [None] and [""] are falsy. *)
Definition truthy (o : option string) : bool :=
  match o with
  | None => false
  | Some s => negb (String.eqb s "")
  end.

(** [x or d] for an optional string [x] and a string [d]. *)
Definition or_str (o : option string) (d : string) : string :=
  match o with
  | None => d
  | Some s => if String.eqb s "" then d else s
  end.

(** [x or None] for a string coming from a text widget. *)
Definition or_none (s : string) : option string :=
  if String.eqb s "" then None else Some s.

(** ASCII lower-casing, the common core of [str.lower] and SQLite's
    [LOWER]; bytes outside [A-Z] are left alone. *)
Definition lower_ascii (c : ascii) : ascii :=
  let n := N_of_ascii c in
  if ((65 <=? n) && (n <=? 90))%N then ascii_of_N (n + 32) else c.

Fixpoint lower (s : string) : string :=
  match s with
  | EmptyString => EmptyString
  | String c r => String (lower_ascii c) (lower r)
  end.

Fixpoint prefix_of (p s : string) : bool :=
  match p, s with
  | EmptyString, _ => true
  | String a p', String b s' => Ascii.eqb a b && prefix_of p' s'
  | String _ _, EmptyString => false
  end.

(** [p in s] on strings. *)
Fixpoint contains (s p : string) : bool :=
  prefix_of p s ||
  match s with
  | EmptyString => false
  | String _ s' => contains s' p
  end.

(** "[needle] is a case-insensitive substring of [hay]", spelled out: some
    stretch of [hay] equals [needle] up to the case of its letters. *)
Definition icontains (hay needle : string) : Prop :=
  ∃ pre mid post, hay = pre +:+ mid +:+ post ∧ lower mid = lower needle.

(** [str.isspace] on ASCII: tab to carriage return, the four separators
    28..31, and space. *)
Definition is_space (c : ascii) : bool :=
  let n := N_of_ascii c in
  ((9 <=? n) && (n <=? 13) || (28 <=? n) && (n <=? 32))%N.

Fixpoint lstrip (s : string) : string :=
  match s with
  | EmptyString => EmptyString
  | String c r => if is_space c then lstrip r else s
  end.

Fixpoint rstrip (s : string) : string :=
  match s with
  | EmptyString => EmptyString
  | String c r =>
      let r' := rstrip r in
      if is_space c && String.eqb r' "" then "" else String c r'
  end.

(** [s.strip()]. *)
Definition strip (s : string) : string := lstrip (rstrip s).

(** [bool(s)] for a string. *)
Definition nonempty (s : string) : bool := negb (String.eqb s "").

(** ** Dates, after CPython's [datetime] *)

Module PyDate.

Definition MINYEAR : Z := 1.
Definition MAXYEAR : Z := 9999.
Definition MAXORDINAL : Z := 3652059.

Definition DI400Y : Z := 146097.
Definition DI100Y : Z := 36524.
Definition DI4Y : Z := 1461.

Definition is_leap (year : Z) : bool :=
  (year mod 4 =? 0) && (negb (year mod 100 =? 0) || (year mod 400 =? 0)).

Definition DAYS_IN_MONTH (month : Z) : Z :=
  match month with
  | 1 => 31 | 2 => 28 | 3 => 31 | 4 => 30 | 5 => 31 | 6 => 30
  | 7 => 31 | 8 => 31 | 9 => 30 | 10 => 31 | 11 => 30 | 12 => 31
  | _ => -1
  end.

Definition DAYS_BEFORE_MONTH (month : Z) : Z :=
  match month with
  | 1 => 0 | 2 => 31 | 3 => 59 | 4 => 90 | 5 => 120 | 6 => 151
  | 7 => 181 | 8 => 212 | 9 => 243 | 10 => 273 | 11 => 304 | 12 => 334
  | _ => -1
  end.

Definition days_before_year (year : Z) : Z :=
  let y := year - 1 in
  y * 365 + y / 4 - y / 100 + y / 400.

Definition days_in_month (year month : Z) : Z :=
  if (month =? 2) && is_leap year then 29 else DAYS_IN_MONTH month.

Definition days_before_month (year month : Z) : Z :=
  DAYS_BEFORE_MONTH month + (if (2 <? month) && is_leap year then 1 else 0).

Record date := mkdate { year : Z; month : Z; day : Z }.

#[export] Instance date_eq_dec : EqDecision date.
Proof. solve_decision. Defined.

(** The range check of the [date] constructor. *)
Definition valid (d : date) : bool :=
  (MINYEAR <=? year d) && (year d <=? MAXYEAR) &&
  (1 <=? month d) && (month d <=? 12) &&
  (1 <=? day d) && (day d <=? days_in_month (year d) (month d)).

Definition ymd2ord (y m d : Z) : Z :=
  days_before_year y + days_before_month y m + d.

Definition toordinal (d : date) : Z := ymd2ord (year d) (month d) (day d).

(** [_ord2ymd]; the month is first estimated as [(n + 50) >> 5] and
    stepped back when the estimate overshoots. *)
Definition ord2ymd (ordinal : Z) : date :=
  let n := ordinal - 1 in
  let n400 := n / DI400Y in
  let n := n mod DI400Y in
  let n100 := n / DI100Y in
  let n := n mod DI100Y in
  let n4 := n / DI4Y in
  let n := n mod DI4Y in
  let n1 := n / 365 in
  let n := n mod 365 in
  let y := n400 * 400 + 1 + n100 * 100 + n4 * 4 + n1 in
  if (n1 =? 4) || (n100 =? 4) then mkdate (y - 1) 12 31
  else
    let leapyear := (n1 =? 3) && (negb (n4 =? 24) || (n100 =? 3)) in
    let m := Z.shiftr (n + 50) 5 in
    let preceding :=
      DAYS_BEFORE_MONTH m + (if (2 <? m) && leapyear then 1 else 0) in
    if n <? preceding then
      let m' := m - 1 in
      let preceding' :=
        preceding
        - (DAYS_IN_MONTH m' + (if (m' =? 2) && leapyear then 1 else 0)) in
      mkdate y m' (n - preceding' + 1)
    else mkdate y m (n - preceding + 1).

(** [date.fromordinal]; [None] stands for the [ValueError] or
    [OverflowError] raised outside [1..MAXORDINAL]. *)
Definition fromordinal (n : Z) : option date :=
  if (1 <=? n) && (n <=? MAXORDINAL) then Some (ord2ymd n) else None.

(** [d + timedelta(days=k)] (and [d - timedelta(days=-k)]). *)
Definition add_days (d : date) (k : Z) : option date :=
  fromordinal (toordinal d + k).

(** [d.weekday()]: Monday is 0, Sunday is 6. *)
Definition weekday (d : date) : Z := (toordinal d + 6) mod 7.

(** [d.replace(day=k)]; [None] for the [ValueError] of an invalid day. *)
Definition replace_day (d : date) (k : Z) : option date :=
  let d' := mkdate (year d) (month d) k in
  if valid d' then Some d' else None.

(** [calendar.monthrange(y, m)[1]]. *)
Definition monthrange_ndays (y m : Z) : Z := days_in_month y m.

(** Rich comparison of dates: lexicographic on (year, month, day). *)
Definition leb (a b : date) : bool :=
  (year a <? year b) ||
  ((year a =? year b) &&
   ((month a <? month b) || ((month a =? month b) && (day a <=? day b)))).

Definition ltb (a b : date) : bool := leb a b && negb (bool_decide (a = b)).

(** *** Auxiliary functions for reasoning about [ord2ymd] *)

(** The month and day [ord2ymd] derives from the day-of-year offset. *)
Definition month_day (leapyear : bool) (n : Z) : Z * Z :=
  let m := Z.shiftr (n + 50) 5 in
  let preceding :=
    DAYS_BEFORE_MONTH m + (if (2 <? m) && leapyear then 1 else 0) in
  if n <? preceding then
    let m' := m - 1 in
    let preceding' :=
      preceding
      - (DAYS_IN_MONTH m' + (if (m' =? 2) && leapyear then 1 else 0)) in
    (m', n - preceding' + 1)
  else (m, n - preceding + 1).

(** The check that [month_day] lands inside the month it names. *)
Definition month_day_ok (leapyear : bool) (n : Z) : bool :=
  let '(m, d) := month_day leapyear n in
  (1 <=? m) && (m <=? 12) && (1 <=? d) &&
  (d <=? DAYS_IN_MONTH m + (if (m =? 2) && leapyear then 1 else 0)) &&
  (DAYS_BEFORE_MONTH m + (if (2 <? m) && leapyear then 1 else 0) + d =? n + 1).

Definition leap_day (y : Z) : Z := if is_leap y then 1 else 0.

End PyDate.

(** ** Times and datetimes *)

Module PyDateTime.
Import PyDate.

Record time := mktime { hour : Z; minute : Z; second : Z }.

(** A [datetime]; [tzoffset] is [None] for a naive value and the UTC
    offset in minutes for an aware one ([timezone.utc] is [Some 0]).
    Sub-second parts are left out: the widgets of this application produce
    none. *)
Record datetime := mkdatetime {
  dt_date : date;
  dt_time : time;
  tzoffset : option Z
}.

#[export] Instance time_eq_dec : EqDecision time.
Proof. solve_decision. Defined.

#[export] Instance datetime_eq_dec : EqDecision datetime.
Proof. solve_decision. Defined.

Definition valid_time (t : time) : bool :=
  (0 <=? hour t) && (hour t <? 24) &&
  (0 <=? minute t) && (minute t <? 60) &&
  (0 <=? second t) && (second t <? 60).

Definition midnight : time := mktime 0 0 0.

(** [datetime.combine(d, t)] and [datetime.combine(d, t, tzinfo=timezone.utc)]. *)
Definition combine (d : date) (t : time) : datetime := mkdatetime d t None.
Definition combine_utc (d : date) (t : time) : datetime := mkdatetime d t (Some 0).

(** [dt + timedelta(days=k)]: the wall-clock date moves, time of day and
    [tzinfo] stay. *)
Definition dt_add_days (dt : datetime) (k : Z) : option datetime :=
  d ← add_days (dt_date dt) k;
  Some (mkdatetime d (dt_time dt) (tzoffset dt)).

(** *** [isoformat] *)

Definition digit_char (n : Z) : ascii := ascii_of_N (Z.to_N (48 + n)).

Definition char_digit (c : ascii) : option Z :=
  let n := Z.of_N (N_of_ascii c) in
  if (48 <=? n) && (n <=? 57) then Some (n - 48) else None.

Definition pad2 (n : Z) : string :=
  String (digit_char (n / 10 mod 10)) (String (digit_char (n mod 10)) "").

Definition pad4 (n : Z) : string :=
  String (digit_char (n / 1000 mod 10))
    (String (digit_char (n / 100 mod 10)) (pad2 n)).

Definition date_isoformat (d : date) : string :=
  pad4 (year d) +:+ "-" +:+ pad2 (month d) +:+ "-" +:+ pad2 (day d).

Definition time_isoformat (t : time) : string :=
  pad2 (hour t) +:+ ":" +:+ pad2 (minute t) +:+ ":" +:+ pad2 (second t).

Definition tz_isoformat (tz : option Z) : string :=
  match tz with
  | None => ""
  | Some off =>
      (if off <? 0 then "-" else "+")
      +:+ pad2 (Z.abs off / 60) +:+ ":" +:+ pad2 (Z.abs off mod 60)
  end.

Definition isoformat (dt : datetime) : string :=
  date_isoformat (dt_date dt) +:+ "T" +:+ time_isoformat (dt_time dt)
  +:+ tz_isoformat (tzoffset dt).

(** *** [fromisoformat]

    The strings this application stores are those written by
    [isoformat] above: [YYYY-MM-DD], optionally one separator character
    and [HH:MM:SS], optionally an offset [+HH:MM] or [-HH:MM].  Anything
    else is [None], the [ValueError] of the library. *)

Definition digits2 (s : string) : option (Z * string) :=
  match s with
  | String a (String b r) =>
      x ← char_digit a; y ← char_digit b; Some (10 * x + y, r)
  | _ => None
  end.

Definition digits4 (s : string) : option (Z * string) :=
  '(hi, r) ← digits2 s; '(lo, r') ← digits2 r; Some (100 * hi + lo, r').

Definition expect (c : ascii) (s : string) : option string :=
  match s with
  | String a r => if Ascii.eqb a c then Some r else None
  | EmptyString => None
  end.

Definition parse_date (s : string) : option (date * string) :=
  '(y, r) ← digits4 s; r ← expect "-" r;
  '(m, r) ← digits2 r; r ← expect "-" r;
  '(d, r) ← digits2 r;
  let dd := mkdate y m d in
  if valid dd then Some (dd, r) else None.

Definition parse_time (s : string) : option (time * string) :=
  '(h, r) ← digits2 s; r ← expect ":" r;
  '(m, r) ← digits2 r; r ← expect ":" r;
  '(sec, r) ← digits2 r;
  let t := mktime h m sec in
  if valid_time t then Some (t, r) else None.

Definition parse_tz (s : string) : option (option Z) :=
  match s with
  | EmptyString => Some None
  | String sign r =>
      sg ← (if Ascii.eqb sign "+" then Some 1
            else if Ascii.eqb sign "-" then Some (-1) else None);
      '(h, r) ← digits2 r; r ← expect ":" r;
      '(m, r) ← digits2 r;
      if String.eqb r "" && (h <? 24) && (m <? 60)
      then Some (Some (sg * (60 * h + m))) else None
  end.

Definition fromisoformat (s : string) : option datetime :=
  '(d, r) ← parse_date s;
  match r with
  | EmptyString => Some (mkdatetime d midnight None)
  | String _ r =>
      '(t, r) ← parse_time r;
      tz ← parse_tz r;
      Some (mkdatetime d t tz)
  end.

(** The tzinfo values this application produces: none, or UTC. *)
Definition naive_or_utc (tz : option Z) : Prop := tz = None ∨ tz = Some 0.

End PyDateTime.

(** ** The storage gateway *)

Module Sql.

(** A table with an [INTEGER PRIMARY KEY AUTOINCREMENT]: the rows by id
    and the table's entry in [sqlite_sequence]. *)
Record table (A : Type) := mktable { rows : gmap Z A; seq : Z }.
Arguments mktable {A} _ _.
Arguments rows {A} _.
Arguments seq {A} _.

Definition empty_table {A} : table A := mktable ∅ 0.

Definition max_rowid {A} (m : gmap Z A) : Z :=
  foldr (λ kr acc, Z.max kr.1 acc) 0 (map_to_list m).

(** The id AUTOINCREMENT hands out: one more than the largest id the table
    ever held. *)
Definition next_rowid {A} (t : table A) : Z :=
  Z.max (seq t) (max_rowid (rows t)) + 1.

(** [INSERT INTO t(...) VALUES(...)]. *)
Definition insert_row {A} (r : A) (t : table A) : table A :=
  let i := next_rowid t in mktable (<[i := r]> (rows t)) i.

(** [UPDATE t SET ... WHERE p]. *)
Definition update_where {A} (p : Z → A → bool) (f : A → A)
    (t : table A) : table A :=
  mktable (map_imap (λ k r, Some (if p k r then f r else r)) (rows t)) (seq t).

(** [DELETE FROM t WHERE p]. *)
Definition delete_where {A} (p : Z → A → bool) (t : table A) : table A :=
  mktable (filter (λ kr, p kr.1 kr.2 = false) (rows t)) (seq t).

(** [SELECT * FROM t WHERE p], before any [ORDER BY]. *)
Definition select_where {A} (p : Z → A → bool) (t : table A) : list (Z * A) :=
  filter (λ kr, p kr.1 kr.2 = true) (map_to_list (rows t)).

(** [SELECT * FROM t WHERE id=?]. *)
Definition fetch_by_id {A} (t : table A) (id : Z) : option A := rows t !! id.

(** [ORDER BY id DESC] and [ORDER BY id ASC]. *)
Definition id_desc {A} (a b : Z * A) : Prop := b.1 ≤ a.1.

#[export] Instance id_desc_dec {A} (a b : Z * A) : Decision (id_desc a b).
Proof. unfold id_desc. apply _. Defined.

Definition order_by_id_desc {A} (l : list (Z * A)) : list (Z * A) :=
  merge_sort id_desc l.

(** [LIMIT n OFFSET k]. *)
Definition limit_offset {A} (n k : nat) (l : list A) : list A :=
  take n (drop k l).

(** [LIKE] with SQLite's defaults: [%] matches any run of characters, [_]
    any single one, letters compare without regard to ASCII case, and
    there is no escape character. *)
Fixpoint like (p : string) : string → bool :=
  match p with
  | EmptyString =>
      λ t, match t with EmptyString => true | String _ _ => false end
  | String c p' =>
      if Ascii.eqb c "%" then
        fix star (t : string) : bool :=
          like p' t ||
          match t with
          | EmptyString => false
          | String _ t' => star t'
          end
      else if Ascii.eqb c "_" then
        λ t, match t with EmptyString => false | String _ t' => like p' t' end
      else
        λ t, match t with
             | EmptyString => false
             | String d t' =>
                 Ascii.eqb (lower_ascii c) (lower_ascii d) && like p' t'
             end
  end.

(** [?='' OR LOWER(col) LIKE '%'||LOWER(?)||'%']. *)
Definition filter_hit (needle col : string) : bool :=
  String.eqb needle "" || like ("%" +:+ lower needle +:+ "%") (lower col).

Definition is_null {A} (o : option A) : bool :=
  match o with None => true | Some _ => false end.

(** [COALESCE(x, d)]. *)
Definition coalesce {A} (o : option A) (d : A) : A := default d o.

End Sql.

Import Sql.

(** ** Rows *)

Record note := mknote {
  n_content : string;
  n_color : string;
  n_x : Z;
  n_y : Z;
  n_z : Z;
  n_type : option string;
  n_assignee : option string;
  n_due_at : option string;
  n_tags : option string;
  n_order_index : Z;
  n_linked_event_id : option Z;
  n_family : string;
  n_deleted_at : option string
}.

Record reaction := mkreaction {
  r_note_id : Z;
  r_emoji : string;
  r_author : option string;
  r_created_at : string
}.

Record list_row := mklist {
  l_title : string;
  l_family : string;
  l_deleted_at : option string;
  l_type : option string;
  l_created_by : option string
}.

Record list_item := mkitem {
  li_list_id : Z;
  li_text : string;
  li_done : Z;
  li_claimed_by : option string;
  li_url : option string;
  li_purchased_by : option string;
  li_image_url : option string
}.

Record document := mkdoc {
  d_title : string;
  d_content : string;
  d_family : string;
  d_deleted_at : option string
}.

Record event := mkevent {
  e_title : string;
  e_start_at : string;
  e_end_at : option string;
  e_assignees : option string;
  e_family : string;
  e_all_day : Z
}.

Record chat_message := mkmsg {
  m_family : string;
  m_room : string;
  m_author : string;
  m_text : string;
  m_created_at : string
}.

#[export] Instance chat_message_eq_dec : EqDecision chat_message.
Proof. solve_decision. Defined.

(** The database: one field per table the operations below touch.
    [app_settings] has the composite primary key (family, key). *)
Record store := mkstore {
  notes : table note;
  reactions : table reaction;
  lists : table list_row;
  list_items : table list_item;
  documents : table document;
  events : table event;
  chat_messages : table chat_message;
  app_settings : gmap (string * string) (option string)
}.

Definition empty_store : store :=
  mkstore empty_table empty_table empty_table empty_table empty_table
    empty_table empty_table ∅.

Definition with_notes (s : store) (t : table note) : store :=
  mkstore t (reactions s) (lists s) (list_items s) (documents s) (events s)
    (chat_messages s) (app_settings s).

Definition with_reactions (s : store) (t : table reaction) : store :=
  mkstore (notes s) t (lists s) (list_items s) (documents s) (events s)
    (chat_messages s) (app_settings s).

Definition with_lists (s : store) (t : table list_row) : store :=
  mkstore (notes s) (reactions s) t (list_items s) (documents s) (events s)
    (chat_messages s) (app_settings s).

Definition with_list_items (s : store) (t : table list_item) : store :=
  mkstore (notes s) (reactions s) (lists s) t (documents s) (events s)
    (chat_messages s) (app_settings s).

Definition with_documents (s : store) (t : table document) : store :=
  mkstore (notes s) (reactions s) (lists s) (list_items s) t (events s)
    (chat_messages s) (app_settings s).

Definition with_events (s : store) (t : table event) : store :=
  mkstore (notes s) (reactions s) (lists s) (list_items s) (documents s) t
    (chat_messages s) (app_settings s).

Definition with_chat_messages (s : store) (t : table chat_message) : store :=
  mkstore (notes s) (reactions s) (lists s) (list_items s) (documents s)
    (events s) t (app_settings s).

Definition with_app_settings (s : store)
    (m : gmap (string * string) (option string)) : store :=
  mkstore (notes s) (reactions s) (lists s) (list_items s) (documents s)
    (events s) (chat_messages s) m.

(** ** Identity and scope resolver *)

Module Identity.

(** [_get_setting]: the stored value when the row exists, else [dflt]. *)
Definition get_setting (s : store) (family key : string)
    (dflt : option string) : option string :=
  match app_settings s !! (family, key) with
  | Some v => v
  | None => dflt
  end.

(** [_set_setting]: delete on [None], upsert otherwise. *)
Definition set_setting (s : store) (family key : string)
    (value : option string) : store :=
  match value with
  | None => with_app_settings s (delete (family, key) (app_settings s))
  | Some v => with_app_settings s (<[(family, key) := Some v]> (app_settings s))
  end.

(** [_sticky_user_bootstrap].  [qp] is [st.query_params], which maps a key
    to a single string, and [ss] the string-valued part of
    [st.session_state]; the result is the session state afterwards. *)
Definition sticky_user_bootstrap (s : store) (qp ss : gmap string string)
    : gmap string string :=
  let ss :=
    match ss !! "user" with
    | Some _ => ss
    | None => <["user" := default "Guest" (qp !! "user")]> ss
    end in
  let ss :=
    match ss !! "family" with
    | Some _ => ss
    | None => <["family" := default "public" (qp !! "family")]> ss
    end in
  let fam := or_str (ss !! "family") "public" in
  if truthy (qp !! "user") then ss
  else
    match get_setting s fam "last_active_user" None with
    | Some last =>
        if nonempty last && negb (bool_decide (ss !! "user" = Some last))
        then <["user" := last]> ss
        else ss
    | None => ss
    end.

(** [_stick_user_to_url_and_settings]: the new store and query params. *)
Definition stick_user_to_url_and_settings (s : store)
    (qp : gmap string string) (username family : string)
    : store * gmap string string :=
  (set_setting s family "last_active_user" (Some username),
   <["family" := family]> (<["user" := username]> qp)).

(** The two defaults set at the top of the sidebar. *)
Definition sidebar_defaults (ss : gmap string string) : gmap string string :=
  let ss := match ss !! "user" with
            | Some _ => ss | None => <["user" := "Guest"]> ss end in
  match ss !! "family" with
  | Some _ => ss | None => <["family" := "public"]> ss end.

(** [DISPLAY_NAME] and [FAMILY] as read after the sidebar. *)
Definition DISPLAY_NAME (ss : gmap string string) : string :=
  or_str (ss !! "user") "Guest".
Definition FAMILY (ss : gmap string string) : string :=
  or_str (ss !! "family") "public".

(** The identity one script run works with. *)
Definition resolve (s : store) (qp ss : gmap string string)
    : string * string :=
  let ss' := sidebar_defaults (sticky_user_bootstrap s qp ss) in
  (DISPLAY_NAME ss', FAMILY ss').

(** The priority order as the specification words it: transient state
    first, then the shareable reference, then the persisted last-active
    user, then the default. *)
Definition spec_priority_name (transient shared persisted : option string)
    : string :=
  match transient, shared, persisted with
  | Some u, _, _ => u
  | None, Some u, _ => u
  | None, None, Some u => u
  | None, None, None => "Guest"
  end.

(** The order the bootstrap follows.  The family is the transient one,
    else the shared one, else the default.  For the name, a shared user
    only fills in a missing transient one; without a shared user a
    non-empty persisted name replaces whatever is there. *)
Definition bootstrap_family (transient shared : option string) : string :=
  or_str (Some (default (default "public" shared) transient)) "public".

Definition bootstrap_name (transient shared persisted : option string)
    : string :=
  let kept := or_str (Some (default (default "Guest" shared) transient)) "Guest" in
  if truthy shared then kept
  else if truthy persisted then or_str persisted "Guest"
  else kept.

End Identity.

(** ** Corkboard: notes and reactions *)

Module Corkboard.

Definition PAGE_SIZE : nat := 25.

Definition alive_in (FAMILY : string) (_ : Z) (n : note) : bool :=
  String.eqb (n_family n) FAMILY && is_null (n_deleted_at n).

(** [MAX(col)] over a result set: [None] (NULL) when it is empty. *)
Definition sql_max (l : list Z) : option Z :=
  foldr (λ x acc, Some (match acc with None => x | Some m => Z.max x m end))
    None l.

(** [x or 0] on an integer. *)
Definition or_zero (x : Z) : Z := if x =? 0 then 0 else x.

(** [next_ord] of the Add Note handler. *)
Definition next_ord (s : store) (FAMILY : string) : Z :=
  let m :=
    coalesce
      (sql_max (map (λ kr, n_order_index kr.2)
                  (select_where (alive_in FAMILY) (notes s)))) 0 in
  or_zero m + 1.

(** The fields of the New sticky form. *)
Record note_fields := mkfields {
  nf_content_text : string;
  nf_color : string;
  nf_type_choice : string;
  nf_assignee : string;
  nf_due_iso : option string;
  nf_tags : string
}.

(** The row Add Note writes for order number [ord]. *)
Definition new_note (FAMILY : string) (f : note_fields) (ord : Z) : note :=
  mknote (nf_content_text f) (nf_color f) 40 40 ord (Some (nf_type_choice f))
    (or_none (nf_assignee f)) (nf_due_iso f) (or_none (nf_tags f)) ord None
    FAMILY None.

(** The INSERT of the Add Note handler, after the photo and link checks
    have passed. *)
Definition add_note (s : store) (FAMILY : string) (f : note_fields) : store :=
  with_notes s
    (insert_row (new_note FAMILY f (next_ord s FAMILY)) (notes s)).

(** [ORDER BY order_index DESC, id DESC]. *)
Definition note_order (a b : Z * note) : Prop :=
  n_order_index b.2 < n_order_index a.2 ∨
  (n_order_index b.2 = n_order_index a.2 ∧ b.1 ≤ a.1).

#[export] Instance note_order_dec a b : Decision (note_order a b).
Proof. unfold note_order. apply _. Defined.

(** The notes query of the board, one page of it. *)
Definition notes_listing (s : store) (FAMILY f_search f_assignee f_tags
    : string) (page : nat) : list (Z * note) :=
  limit_offset PAGE_SIZE (page * PAGE_SIZE)
    (merge_sort note_order
       (select_where
          (λ k n,
             alive_in FAMILY k n
             && filter_hit f_search (n_content n)
             && filter_hit f_assignee (coalesce (n_assignee n) "")
             && filter_hit f_tags (coalesce (n_tags n) ""))
          (notes s))).

Definition set_note_deleted_at (v : option string) (n : note) : note :=
  mknote (n_content n) (n_color n) (n_x n) (n_y n) (n_z n) (n_type n)
    (n_assignee n) (n_due_at n) (n_tags n) (n_order_index n)
    (n_linked_event_id n) (n_family n) v.

Definition set_note_xy (x y : Z) (n : note) : note :=
  mknote (n_content n) (n_color n) x y (n_z n) (n_type n)
    (n_assignee n) (n_due_at n) (n_tags n) (n_order_index n)
    (n_linked_event_id n) (n_family n) (n_deleted_at n).

Definition set_note_linked_event (v : option Z) (n : note) : note :=
  mknote (n_content n) (n_color n) (n_x n) (n_y n) (n_z n) (n_type n)
    (n_assignee n) (n_due_at n) (n_tags n) (n_order_index n)
    v (n_family n) (n_deleted_at n).

(** [UPDATE notes SET deleted_at=? WHERE id=? AND family=?]. *)
Definition soft_delete_note (s : store) (FAMILY : string) (id : Z)
    (now : string) : store :=
  with_notes s
    (update_where (λ k n, (k =? id) && String.eqb (n_family n) FAMILY)
       (set_note_deleted_at (Some now)) (notes s)).

(** [UPDATE notes SET x=?, y=? WHERE id=? AND family=?]. *)
Definition save_position (s : store) (FAMILY : string) (id x_px y_px : Z)
    : store :=
  with_notes s
    (update_where (λ k n, (k =? id) && String.eqb (n_family n) FAMILY)
       (set_note_xy x_px y_px) (notes s)).

(** [UPDATE notes SET linked_event_id=NULL WHERE id=?]. *)
Definition unlink_event (s : store) (id : Z) : store :=
  with_notes s
    (update_where (λ k _, k =? id) (set_note_linked_event None) (notes s)).

(** The rows the unique index [uniq_rx] would clash with. *)
Definition rx_matches (note_id : Z) (emoji author : string)
    (_ : Z) (r : reaction) : bool :=
  (r_note_id r =? note_id) && String.eqb (r_emoji r) emoji &&
  match r_author r with
  | Some a => String.eqb a author
  | None => false
  end.

(** [INSERT INTO reactions(note_id, emoji, author)]; [None] is the
    [sqlite3.IntegrityError] of the unique index or of the foreign key
    on [notes(id)]. *)
Definition insert_reaction (s : store) (note_id : Z) (emoji author
    now : string) : option store :=
  if negb (bool_decide
             (select_where (rx_matches note_id emoji author) (reactions s) = []))
  then None
  else if is_null (fetch_by_id (notes s) note_id) then None
  else Some (with_reactions s
               (insert_row (mkreaction note_id emoji (Some author) now)
                  (reactions s))).

(** The emoji button: insert, and on [IntegrityError] delete instead. *)
Definition react (s : store) (note_id : Z) (emoji DISPLAY_NAME
    now : string) : store :=
  match insert_reaction s note_id emoji DISPLAY_NAME now with
  | Some s' => s'
  | None =>
      with_reactions s
        (delete_where (rx_matches note_id emoji DISPLAY_NAME) (reactions s))
  end.

(** A stored reaction carries this (note, emoji, author) triple. *)
Definition has_triple (s : store) (t : Z * string * option string) : Prop :=
  ∃ k r, fetch_by_id (reactions s) k = Some r
         ∧ (r_note_id r, r_emoji r, r_author r) = t.

Definition has_reaction (s : store) (note_id : Z) (emoji author : string)
    : Prop :=
  has_triple s (note_id, emoji, Some author).

(** What the unique index [uniq_rx] guarantees: two rows with the same
    note, emoji and non-NULL author are the same row. *)
Definition uniq_rx (s : store) : Prop :=
  ∀ k1 k2 r1 r2 a,
    fetch_by_id (reactions s) k1 = Some r1 →
    fetch_by_id (reactions s) k2 = Some r2 →
    r_note_id r1 = r_note_id r2 → r_emoji r1 = r_emoji r2 →
    r_author r1 = Some a → r_author r2 = Some a →
    k1 = k2.

End Corkboard.

(** ** Lists and the wishlist workflow *)

Module Lists.

(** The Create form: a blank title creates nothing. *)
Definition create_list (s : store) (FAMILY DISPLAY_NAME new_title
    list_type : string) : store :=
  if nonempty (strip new_title) then
    with_lists s
      (insert_row
         (mklist (strip new_title) FAMILY None (Some list_type)
            (Some DISPLAY_NAME))
         (lists s))
  else s.

(** The lists of a family, newest first, at most 100. *)
Definition lists_listing (s : store) (FAMILY : string)
    : list (Z * list_row) :=
  limit_offset 100 0
    (order_by_id_desc
       (select_where
          (λ _ l, String.eqb (l_family l) FAMILY && is_null (l_deleted_at l))
          (lists s))).

(** The items of one list, newest first, at most 200. *)
Definition items_of (s : store) (list_id : Z) : list (Z * list_item) :=
  limit_offset 200 0
    (order_by_id_desc
       (select_where (λ _ it, li_list_id it =? list_id) (list_items s))).

(** The row of [INSERT INTO list_items(list_id, text, url, image_url, done)
    VALUES(?,?,?,?,0)]: the claim columns are left NULL. *)
Definition new_wishlist_item (list_id : Z) (text : string)
    (link_clean final_img : option string) : list_item :=
  mkitem list_id text 0 None link_clean None final_img.

(** Adding a wishlist item; [link_clean] and [final_img] are the cleaned
    link and the image chosen after the best-effort preview fetch. *)
Definition add_wishlist_item (s : store) (list_id : Z) (t : string)
    (link_clean final_img : option string) : store :=
  if nonempty (strip t) then
    with_list_items s
      (insert_row (new_wishlist_item list_id (strip t) link_clean final_img)
         (list_items s))
  else s.

(** [INSERT INTO list_items(list_id, text, done) VALUES(?,?,0)]. *)
Definition add_item (s : store) (list_id : Z) (t : string) : store :=
  if nonempty (strip t) then
    with_list_items s
      (insert_row (mkitem list_id (strip t) 0 None None None None)
         (list_items s))
  else s.

Definition is_wishlist (lst : list_row) : bool :=
  bool_decide (l_type lst = Some "wishlist").

(** [you_are_creator = (DISPLAY_NAME == (lst["created_by"] or ""))]. *)
Definition you_are_creator (DISPLAY_NAME : string) (lst : list_row) : bool :=
  String.eqb DISPLAY_NAME (or_str (l_created_by lst) "").

Inductive button := Claim | Unclaim | MarkPurchased.

#[export] Instance button_eq_dec : EqDecision button.
Proof. solve_decision. Defined.

(** What the status caption under a wishlist item says. *)
Inductive caption :=
| PurchasedByYou
| PurchasedBy (who : string)
| ReservedByYou
| ReservedBy (who : string).

(** The caption shown to the viewer, if any. *)
Definition wishlist_status (DISPLAY_NAME : string) (lst : list_row)
    (it : list_item) : option caption :=
  if you_are_creator DISPLAY_NAME lst then None
  else if truthy (li_purchased_by it) then
    Some (if bool_decide (li_purchased_by it = Some DISPLAY_NAME)
          then PurchasedByYou
          else PurchasedBy (or_str (li_purchased_by it) ""))
  else if truthy (li_claimed_by it) then
    Some (if bool_decide (li_claimed_by it = Some DISPLAY_NAME)
          then ReservedByYou
          else ReservedBy (or_str (li_claimed_by it) ""))
  else None.

(** The buttons rendered in the right column of a wishlist item. *)
Definition wishlist_buttons (DISPLAY_NAME : string) (lst : list_row)
    (it : list_item) : list button :=
  if you_are_creator DISPLAY_NAME lst then []
  else if truthy (li_purchased_by it) then []
  else match li_claimed_by it with
       | None => [Claim]
       | Some c =>
           if String.eqb c DISPLAY_NAME then [Unclaim; MarkPurchased] else []
       end.

Definition set_claim (claimed purchased : option string) (it : list_item)
    : list_item :=
  mkitem (li_list_id it) (li_text it) (li_done it) claimed (li_url it)
    purchased (li_image_url it).

Definition set_done (v : Z) (it : list_item) : list_item :=
  mkitem (li_list_id it) (li_text it) v (li_claimed_by it) (li_url it)
    (li_purchased_by it) (li_image_url it).

(** The SET clause each button runs on the item row. *)
Definition button_effect (DISPLAY_NAME : string) (b : button)
    (it : list_item) : list_item :=
  match b with
  | Claim => set_claim (Some DISPLAY_NAME) None it
  | Unclaim => set_claim None None it
  | MarkPurchased => set_claim (li_claimed_by it) (Some DISPLAY_NAME) it
  end.

(** The three UPDATE statements, each [... WHERE id=?]. *)
Definition exec_button (s : store) (DISPLAY_NAME : string) (item_id : Z)
    (b : button) : store :=
  with_list_items s
    (update_where (λ k _, k =? item_id) (button_effect DISPLAY_NAME b)
       (list_items s)).

(** One press by a viewer looking at item [it] of list [lst]: the
    statement runs only if that button was rendered for them. *)
Definition wishlist_press (DISPLAY_NAME : string) (lst : list_row)
    (b : button) (it : list_item) : list_item :=
  if bool_decide (b ∈ wishlist_buttons DISPLAY_NAME lst it)
  then button_effect DISPLAY_NAME b it
  else it.

(** The same press against the database: the script reruns, fetches the
    item again, and runs the statement if the button is there. *)
Definition press (s : store) (DISPLAY_NAME : string) (lst : list_row)
    (item_id : Z) (b : button) : store :=
  match fetch_by_id (list_items s) item_id with
  | Some it =>
      if is_wishlist lst
         && bool_decide (b ∈ wishlist_buttons DISPLAY_NAME lst it)
      then exec_button s DISPLAY_NAME item_id b
      else s
  | None => s
  end.

(** [UPDATE list_items SET done=? WHERE id=?]. *)
Definition toggle_done (s : store) (item_id : Z) (changed : bool) : store :=
  with_list_items s
    (update_where (λ k _, k =? item_id)
       (set_done (if changed then 1 else 0)) (list_items s)).

(** [DELETE FROM list_items WHERE id=?]. *)
Definition delete_item (s : store) (item_id : Z) : store :=
  with_list_items s (delete_where (λ k _, k =? item_id) (list_items s)).

Definition set_list_deleted_at (v : option string) (l : list_row) : list_row :=
  mklist (l_title l) (l_family l) v (l_type l) (l_created_by l).

(** [UPDATE lists SET deleted_at=? WHERE id=?]. *)
Definition delete_list (s : store) (list_id : Z) (now : string) : store :=
  with_lists s
    (update_where (λ k _, k =? list_id) (set_list_deleted_at (Some now))
       (lists s)).

(** *** The workflow as the specification words it *)

Inductive claim_state :=
| Unclaimed
| Claimed (by_whom : string)
| Purchased (by_whom : string).

#[export] Instance claim_state_eq_dec : EqDecision claim_state.
Proof. solve_decision. Defined.

(** [unclaimed -> claimed(by X) -> purchased(by X)], [claimed(by X) ->
    unclaimed] only by X, nothing out of [purchased], and nothing at all
    for the creator of the list. *)
Definition spec_step (creator : bool) (viewer : string) (b : button)
    (st : claim_state) : claim_state :=
  if creator then st
  else match st, b with
       | Unclaimed, Claim => Claimed viewer
       | Claimed x, Unclaim => if String.eqb x viewer then Unclaimed else st
       | Claimed x, MarkPurchased =>
           if String.eqb x viewer then Purchased viewer else st
       | _, _ => st
       end.

(** The state a stored item is in, read the way the page reads it. *)
Definition item_state (it : list_item) : claim_state :=
  if truthy (li_purchased_by it) then Purchased (or_str (li_purchased_by it) "")
  else match li_claimed_by it with
       | None => Unclaimed
       | Some c => Claimed c
       end.

(** The rows an item can go through from [it0] by button presses of any
    viewers. *)
Inductive reachable (lst : list_row) (it0 : list_item) : list_item → Prop :=
| reach_start : reachable lst it0 it0
| reach_press it viewer b :
    reachable lst it0 it →
    reachable lst it0 (wishlist_press viewer lst b it).

(** [purchased_by] is set only together with an equal [claimed_by]. *)
Definition claim_fields_consistent (it : list_item) : Prop :=
  ∀ p, li_purchased_by it = Some p → li_claimed_by it = Some p.

End Lists.

(** ** Notepad *)

Module Notepad.

Definition create_doc (s : store) (FAMILY title : string) : store :=
  if nonempty (strip title) then
    with_documents s
      (insert_row (mkdoc (strip title) "" FAMILY None) (documents s))
  else s.

(** The documents of a family, newest first, at most 50. *)
Definition docs_listing (s : store) (FAMILY : string)
    : list (Z * document) :=
  limit_offset 50 0
    (order_by_id_desc
       (select_where
          (λ _ d, String.eqb (d_family d) FAMILY && is_null (d_deleted_at d))
          (documents s))).

Definition set_doc_content (v : string) (d : document) : document :=
  mkdoc (d_title d) v (d_family d) (d_deleted_at d).

Definition set_doc_deleted_at (v : option string) (d : document) : document :=
  mkdoc (d_title d) (d_content d) (d_family d) v.

(** [UPDATE documents SET content=? WHERE id=?]. *)
Definition save_doc (s : store) (doc_id : Z) (new : string) : store :=
  with_documents s
    (update_where (λ k _, k =? doc_id) (set_doc_content new) (documents s)).

(** [UPDATE documents SET deleted_at=? WHERE id=?]. *)
Definition delete_doc (s : store) (doc_id : Z) (now : string) : store :=
  with_documents s
    (update_where (λ k _, k =? doc_id) (set_doc_deleted_at (Some now))
       (documents s)).

End Notepad.

(** ** Calendar *)

Module Calendar.
Import PyDate PyDateTime.

(** [iso_utc]. *)
Definition iso_utc (d : option date) (t : option time) : option string :=
  match d with
  | None => None
  | Some d => Some (isoformat (combine_utc d (default midnight t)))
  end.

(** [to_exclusive_end]; [None] is the [OverflowError] past year 9999. *)
Definition to_exclusive_end (d : date) : option datetime :=
  d' ← add_days d 1; Some (combine d' midnight).

(** [from_iso]: NULL, the empty string and unparsable text give [None]. *)
Definition from_iso (dt_s : option string) : option datetime :=
  match dt_s with
  | None => None
  | Some s => if nonempty s then fromisoformat s else None
  end.

(** The fields of the Create and Manage event forms. *)
Record event_form := mkform {
  f_title : string;
  f_sd : date;
  f_ed : date;
  f_all_day : bool;
  f_stime : time;
  f_etime : time;
  f_assignees : string
}.

(** The pair [(s_iso, e_iso)] both forms compute before writing. *)
Definition form_isos (f : event_form) : option (string * string) :=
  if f_all_day f then
    e ← to_exclusive_end (f_ed f);
    Some (isoformat (combine (f_sd f) midnight), isoformat e)
  else
    Some (isoformat (combine (f_sd f) (f_stime f)),
          isoformat (combine (f_ed f) (f_etime f))).

(** Add Event.  [None]: nothing was written (blank title, end before
    start, or the date overflowed). *)
Definition create_event (s : store) (FAMILY : string) (f : event_form)
    : option store :=
  if negb (nonempty (strip (f_title f))) then None
  else if ltb (f_ed f) (f_sd f) then None
  else
    '(s_iso, e_iso) ← form_isos f;
    Some (with_events s
            (insert_row
               (mkevent (strip (f_title f)) s_iso (Some e_iso)
                  (Some (strip (f_assignees f))) FAMILY
                  (if f_all_day f then 1 else 0))
               (events s))).

(** Create Event from Reminder, for the note row [(note_id, n)] shown on
    the board: the INSERT, the read-back of the new id, and the link. *)
Definition promote_reminder (s : store) (FAMILY : string) (note_id : Z)
    (n : note) (ev_d : date) (ev_s ev_e : time) (all_day : bool) : store :=
  let s_iso := iso_utc (Some ev_d) (if all_day then None else Some ev_s) in
  let e_iso := iso_utc (Some ev_d) (if all_day then None else Some ev_e) in
  let s1 :=
    with_events s
      (insert_row
         (mkevent (n_content n) (default "" s_iso) e_iso
            (Some (or_str (n_assignee n) "")) FAMILY
            (if all_day then 1 else 0))
         (events s)) in
  let new_ev :=
    limit_offset 1 0
      (order_by_id_desc
         (select_where (λ _ e, String.eqb (e_family e) FAMILY) (events s1))) in
  match new_ev with
  | (ev_id, _) :: _ =>
      with_notes s1
        (update_where (λ k _, k =? note_id)
           (Corkboard.set_note_linked_event (Some ev_id)) (notes s1))
  | [] => s1
  end.

(** What the Manage events panel puts in its Start Date, End Date and
    All day widgets for a stored row.  [now] is [datetime.now()];
    [None] is the [OverflowError] of stepping back before year 1. *)
Definition edit_form_dates (now : datetime) (e : event)
    : option (date * date * bool) :=
  let sdt := default now (from_iso (Some (e_start_at e))) in
  let edt := from_iso (e_end_at e) in
  let all_day_val := negb (e_all_day e =? 0) in
  disp_end_date ←
    match edt with
    | Some edt =>
        if all_day_val then dt_date <$> dt_add_days edt (-1)
        else Some (dt_date edt)
    | None => Some (dt_date sdt)
    end;
  Some (dt_date sdt, disp_end_date, all_day_val).

(** Update: [UPDATE events SET ... WHERE id=? AND family=?]. *)
Definition update_event (s : store) (FAMILY : string) (id : Z)
    (f : event_form) : option store :=
  if ltb (f_ed f) (f_sd f) then None
  else
    '(s_iso, e_iso) ← form_isos f;
    Some (with_events s
            (update_where
               (λ k e, (k =? id) && String.eqb (e_family e) FAMILY)
               (λ e, mkevent
                       (if nonempty (strip (f_title f))
                        then strip (f_title f) else "Untitled")
                       s_iso (Some e_iso) (Some (strip (f_assignees f)))
                       (e_family e) (if f_all_day f then 1 else 0))
               (events s))).

(** [DELETE FROM events WHERE id=? AND family=?]. *)
Definition delete_event (s : store) (FAMILY : string) (id : Z) : store :=
  with_events s
    (delete_where (λ k e, (k =? id) && String.eqb (e_family e) FAMILY)
       (events s)).

Inductive view := dayGridMonth | timeGridWeek | timeGridDay | listMonth.

(** The window [(d0, d1)] of a view around the reference date. *)
Definition calendar_window (v : view) (ref : date) : option (date * date) :=
  match v with
  | dayGridMonth | listMonth =>
      d0 ← replace_day ref 1;
      d1 ← replace_day d0 (monthrange_ndays (year d0) (month d0));
      Some (d0, d1)
  | timeGridWeek =>
      d0 ← add_days ref (- weekday ref);
      d1 ← add_days d0 6;
      Some (d0, d1)
  | timeGridDay => Some (ref, ref)
  end.

(** [ORDER BY start_at ASC], text compared bytewise. *)
Definition start_asc (a b : Z * event) : Prop :=
  String.leb (e_start_at a.2) (e_start_at b.2) = true.

#[export] Instance start_asc_dec a b : Decision (start_asc a b).
Proof. unfold start_asc. apply _. Defined.

Definition palette : list string :=
  ["#4285F4"; "#DB4437"; "#F4B400"; "#0F9D58"; "#AB47BC";
   "#00ACC1"; "#EF6C00"; "#5C6BC0"; "#26A69A"; "#EC407A"].

(** The assignee colour: [h = (h * 33 + ord(ch)) & 0xFFFFFFFF] over the
    characters, then [palette[h % len(palette)]]. *)
Fixpoint hash33 (h : Z) (s : string) : Z :=
  match s with
  | EmptyString => h
  | String ch r =>
      hash33 (Z.land (h * 33 + Z.of_N (N_of_ascii ch)) 4294967295) r
  end.

Definition assignee_color (assignees : option string) : string :=
  let h := hash33 0 (or_str assignees "default") in
  nth (Z.to_nat (h mod Z.of_nat (List.length palette))) palette "".

(** One entry handed to the calendar widget. *)
Record cal_event := mkcal {
  ce_id : string;
  ce_title : string;
  ce_start : string;
  ce_end : option string;
  ce_allDay : bool;
  ce_backgroundColor : string;
  ce_borderColor : string;
  ce_assignees : string
}.

(** The test one row has to pass inside [load_events_between]. *)
Definition in_window (d0 d1 : date) (who : string) (e : event) : bool :=
  match from_iso (Some (e_start_at e)) with
  | None => false
  | Some sdt =>
      let sd := dt_date sdt in
      leb d0 sd && leb sd d1 &&
      negb (nonempty who
            && negb (contains (lower (or_str (e_assignees e) "")) (lower who)))
  end.

Definition to_cal_event (kr : Z * event) : cal_event :=
  let e := kr.2 in
  let color := assignee_color (e_assignees e) in
  mkcal (pretty kr.1) (e_title e) (e_start_at e) (e_end_at e)
    (negb (e_all_day e =? 0)) (color +:+ "80") color
    (or_str (e_assignees e) "").

Definition load_events_between (s : store) (FAMILY : string) (d0 d1 : date)
    (who : string) : list cal_event :=
  let rows :=
    merge_sort start_asc
      (select_where (λ _ e, String.eqb (e_family e) FAMILY) (events s)) in
  to_cal_event <$> filter (λ kr, in_window d0 d1 who kr.2 = true) rows.

End Calendar.

(** ** Group chat *)

Module Chat.

Definition LAST_N : nat := 100.

(** The messages shown: the newest [LAST_N] of the room, oldest first. *)
Definition chat_window (s : store) (FAMILY room : string)
    : list (Z * chat_message) :=
  reverse
    (limit_offset LAST_N 0
       (order_by_id_desc
          (select_where
             (λ _ m, String.eqb (m_family m) FAMILY
                     && String.eqb (m_room m) room)
             (chat_messages s)))).

(** The session-state key of the cursor. *)
Definition state_key (FAMILY room : string) : string :=
  "last_seen_chat_" +:+ FAMILY +:+ "_" +:+ room.

(** [int(st.session_state.get(state_key, 0) or 0)]. *)
Definition prev_seen (cursors : gmap string Z) (FAMILY room : string) : Z :=
  default 0 (cursors !! state_key FAMILY room).

(** [int(msgs[-1]["id"]) if msgs else 0]. *)
Definition last_id (msgs : list (Z * chat_message)) : Z :=
  match last msgs with
  | Some m => m.1
  | None => 0
  end.

Definition new_from_others (msgs : list (Z * chat_message)) (seen : Z)
    (DISPLAY_NAME : string) : list (Z * chat_message) :=
  filter (λ m, seen < m.1 ∧ m_author m.2 ≠ DISPLAY_NAME) msgs.

(** What one pass over the chat tab computes. *)
Record chat_view := mkview {
  v_msgs : list (Z * chat_message);
  v_new_count : nat;
  v_badge : bool
}.

(** One pass: load the window, count what is new, show the badge when the
    count is positive, and at the end store the cursor.  [cursors] is the
    integer-valued part of [st.session_state]. *)
Definition render (s : store) (cursors : gmap string Z)
    (FAMILY room DISPLAY_NAME : string) : chat_view * gmap string Z :=
  let msgs := chat_window s FAMILY room in
  let seen := prev_seen cursors FAMILY room in
  let new_count := List.length (new_from_others msgs seen DISPLAY_NAME) in
  (mkview msgs new_count (0 <? new_count)%nat,
   <[state_key FAMILY room := last_id msgs]> cursors).

(** Send: a blank message is dropped. *)
Definition send_message (s : store) (FAMILY room DISPLAY_NAME msg
    now : string) : store :=
  if nonempty (strip msg) then
    with_chat_messages s
      (insert_row (mkmsg FAMILY room DISPLAY_NAME (strip msg) now)
         (chat_messages s))
  else s.

(** [DELETE FROM chat_messages WHERE id=? AND family=? AND room=? AND
    author=?]. *)
Definition delete_message (s : store) (FAMILY room DISPLAY_NAME : string)
    (id : Z) : store :=
  with_chat_messages s
    (delete_where
       (λ k m, (k =? id) && String.eqb (m_family m) FAMILY
               && String.eqb (m_room m) room
               && String.eqb (m_author m) DISPLAY_NAME)
       (chat_messages s)).

(** The rows of a room newest first, before the LIMIT. *)
Definition room_desc (s : store) (FAMILY room : string)
    : list (Z * chat_message) :=
  order_by_id_desc
    (select_where
       (λ _ m, String.eqb (m_family m) FAMILY && String.eqb (m_room m) room)
       (chat_messages s)).

(** Orders on rows by id. *)
Definition newer {A} (a b : Z * A) : Prop := b.1 < a.1.
Definition older {A} (a b : Z * A) : Prop := a.1 < b.1.

End Chat.

(** ** Sample data *)

Module Demo.

(** A database in which every row belongs to family [A]: one note, one
    wishlist created by alice with one item, one document and one
    all-day event. *)
Definition note1 : note :=
  mknote "Pick up milk" "#FFF176" 40 40 1 (Some "text") None None None 1
    None "A" None.
Definition list1 : list_row :=
  mklist "Birthday" "A" None (Some "wishlist") (Some "alice").
Definition item1 : list_item :=
  mkitem 1 "Bike" 0 (Some "bob") None None None.
Definition doc1 : document := mkdoc "Taxes" "secret" "A" None.
Definition event1 : event :=
  mkevent "Picnic" "2024-03-10T00:00:00" (Some "2024-03-11T00:00:00")
    (Some "Mom, Dad") "A" 1.

Definition family_A : store :=
  mkstore (insert_row note1 empty_table) empty_table
    (insert_row list1 empty_table) (insert_row item1 empty_table)
    (insert_row doc1 empty_table) (insert_row event1 empty_table)
    empty_table ∅.

(** A session that already carries the name Alice, opened without query
    parameters, in a family whose last saved profile was Bob's. *)
Definition smith_settings : store :=
  Identity.set_setting empty_store "smith" "last_active_user" (Some "Bob").
Definition alice_session : gmap string string :=
  <["user" := "Alice"]> (<["family" := "smith"]> ∅).

(** A board with one reminder, to be promoted to the calendar. *)
Definition reminder1 : note :=
  mknote "Take out trash" "#FFF176" 40 40 1 (Some "reminder") None None
    None 1 None "A" None.
Definition board_with_reminder : store :=
  with_notes empty_store (insert_row reminder1 empty_table).
Definition march_10 : PyDate.date := PyDate.mkdate 2024 3 10.
Definition noon_now : PyDateTime.datetime :=
  PyDateTime.combine (PyDate.mkdate 2024 3 1) (PyDateTime.mktime 12 0 0).

(** Three chat messages in the room general of family A; alice has seen
    the first two. *)
Definition chat3 : store :=
  Chat.send_message
    (Chat.send_message
       (Chat.send_message empty_store "A" "general" "bob" "hi" "t1")
       "A" "general" "alice" "hello" "t2")
    "A" "general" "bob" "lunch?" "t3".
Definition alice_cursor : gmap string Z :=
  <[Chat.state_key "A" "general" := 2]> ∅.

(** Three stickies to add to an empty board. *)
Definition sticky (text : string) : Corkboard.note_fields :=
  Corkboard.mkfields text "#FFF176" "text" "" None "".

(** A wishlist of alice and a fresh item on it. *)
Definition fresh_item : list_item :=
  Lists.new_wishlist_item 1 "Bike" None None.

(** The same item once bob has claimed and bought it, and the sessions of
    carol (another member) and alice (the creator of the list). *)
Definition bought_item : list_item :=
  mkitem 1 "Bike" 0 (Some "bob") None (Some "bob") None.
Definition carol_session : gmap string string := <["user" := "carol"]> ∅.
Definition alice_only_session : gmap string string := <["user" := "alice"]> ∅.

End Demo.

(** ** The notes query, unpaged *)

Module Board.
Import Corkboard.

(** The WHERE clause of the notes query. *)
Definition note_matches (FAMILY fs fa ft : string) (k : Z) (n : note) : bool :=
  alive_in FAMILY k n
  && filter_hit fs (n_content n)
  && filter_hit fa (coalesce (n_assignee n) "")
  && filter_hit ft (coalesce (n_tags n) "").

(** The whole result of the notes query, before LIMIT and OFFSET. *)
Definition notes_sorted (s : store) (FAMILY fs fa ft : string)
    : list (Z * note) :=
  merge_sort note_order (select_where (note_matches FAMILY fs fa ft) (notes s)).

End Board.

(** ** Chat: rooms and the viewer's own recent messages *)

Module ChatRooms.
Import Chat.

(** [ORDER BY room COLLATE NOCASE]: bytewise order of the ASCII-lowered
    names. *)
Definition nocase_le (a b : string) : Prop :=
  String.leb (lower a) (lower b) = true.

#[export] Instance nocase_le_dec a b : Decision (nocase_le a b).
Proof. unfold nocase_le. apply _. Defined.

(** [SELECT DISTINCT room FROM chat_messages WHERE family=? ORDER BY room
    COLLATE NOCASE]. *)
Definition distinct_rooms (s : store) (FAMILY : string) : list string :=
  merge_sort nocase_le
    (remove_dups
       (map (λ kr, m_room kr.2)
          (select_where (λ _ m, String.eqb (m_family m) FAMILY)
             (chat_messages s)))).

(** The options of the Room select box: the rooms in use, with [general]
    put in front when no message is in it yet. *)
Definition room_options (s : store) (FAMILY : string) : list string :=
  let existing_rooms := distinct_rooms s FAMILY in
  if bool_decide ("general" ∈ existing_rooms) then existing_rooms
  else "general" :: existing_rooms.

(** Add Room: a blank name does nothing, otherwise the room comes into being
    through an announcement written by [system]. *)
Definition create_room (s : store) (FAMILY new_room now : string) : store :=
  if nonempty (strip new_room) then
    with_chat_messages s
      (insert_row
         (mkmsg FAMILY (strip new_room) "system"
            ("Room '" +:+ strip new_room +:+ "' created") now)
         (chat_messages s))
  else s.

(** The messages offered for deletion: the viewer's own ten newest in the
    room. *)
Definition my_recent (s : store) (FAMILY room DISPLAY_NAME : string)
    : list (Z * chat_message) :=
  limit_offset 10 0
    (order_by_id_desc
       (select_where
          (λ _ m, String.eqb (m_family m) FAMILY && String.eqb (m_room m) room
                  && String.eqb (m_author m) DISPLAY_NAME)
          (chat_messages s))).

End ChatRooms.

(** ** Calendar navigation *)

Module CalendarNav.
Import PyDate Calendar.

(** The constructor [date(y, m, d)]; [None] is its [ValueError]. *)
Definition make_date (y m d : Z) : option date :=
  let r := mkdate y m d in
  if valid r then Some r else None.

(** The reference date after the Prev button. *)
Definition nav_prev (v : view) (ref : date) : option date :=
  match v with
  | dayGridMonth | listMonth =>
      let m := if month ref - 1 =? 0 then 12 else month ref - 1 in
      let y := if month ref =? 1 then year ref - 1 else year ref in
      make_date y m 1
  | timeGridWeek => add_days ref (- (7))
  | timeGridDay => add_days ref (- (1))
  end.

(** The reference date after the Next button. *)
Definition nav_next (v : view) (ref : date) : option date :=
  match v with
  | dayGridMonth | listMonth =>
      let m := if month ref <? 12 then month ref + 1 else 1 in
      let y := if month ref =? 12 then year ref + 1 else year ref in
      make_date y m 1
  | timeGridWeek => add_days ref 7
  | timeGridDay => add_days ref 1
  end.

Definition is_month_view (v : view) : bool :=
  match v with
  | dayGridMonth | listMonth => true
  | _ => false
  end.

End CalendarNav.

(** ** The Manage events panel *)

Module ManageEvents.
Import PyDate PyDateTime Calendar.

(** The values the panel puts in its widgets for a stored row: what
    Update submits when the user changes nothing. *)
Definition edit_form_defaults (now : datetime) (e : event)
    : option event_form :=
  let sdt := default now (from_iso (Some (e_start_at e))) in
  let edt := from_iso (e_end_at e) in
  '(sd, ed, all_day) ← edit_form_dates now e;
  Some (mkform (e_title e) sd ed all_day
          (if all_day then midnight else dt_time sdt)
          (match edt with
           | Some edt => if all_day then midnight else dt_time edt
           | None => midnight
           end)
          (or_str (e_assignees e) "")).

End ManageEvents.

(** ** Uploads *)

Module Uploads.

Definition MAX_MB : Z := 200.
Definition IMG_MIMES : list string := ["image/jpeg"; "image/png"; "image/gif"].
Definition VID_MIMES : list string :=
  ["video/mp4"; "video/webm"; "video/quicktime"].
Definition ALLOWED_MIMES : list string := (IMG_MIMES ++ VID_MIMES)%list.

(** [x in xs] for strings. *)
Definition str_in (x : string) (xs : list string) : bool :=
  existsb (String.eqb x) xs.

Definition ext_map : list (string * string) :=
  [(".jpg", "image/jpeg"); (".jpeg", "image/jpeg"); (".png", "image/png");
   (".gif", "image/gif"); (".mp4", "video/mp4"); (".webm", "video/webm");
   (".mov", "video/quicktime")].

(** [d.get(k, dflt)] on a dict written as its item list. *)
Fixpoint dict_get (d : list (string * string)) (k dflt : string) : string :=
  match d with
  | [] => dflt
  | (k', v) :: d' => if String.eqb k k' then v else dict_get d' k dflt
  end.

(** What content sniffing is available: [NoMagic] when the [magic] module
    could not be imported, otherwise the answer of [from_buffer] on the
    first 2048 bytes, [None] when it raised. *)
Inductive magic := NoMagic | Magic (answer : option string).

(** [sniff_mime]: the MIME type and the extension to store under. *)
Definition sniff_mime (m : magic) (fallback_ext : string) : string * string :=
  let mime :=
    match m with
    | Magic (Some a) => a
    | Magic None => "application/octet-stream"
    | NoMagic =>
        dict_get ext_map (lower fallback_ext) "application/octet-stream"
    end in
  let ext :=
    if str_in mime ["image/jpeg"; "image/jpg"] then ".jpg"
    else if String.eqb mime "image/png" then ".png"
    else if String.eqb mime "image/gif" then ".gif"
    else if String.eqb mime "video/mp4" then ".mp4"
    else if String.eqb mime "video/webm" then ".webm"
    else if String.eqb mime "video/quicktime" then ".mov"
    else if str_in (lower fallback_ext)
              [".jpg"; ".jpeg"; ".png"; ".gif"; ".mp4"; ".webm"; ".mov"]
         then fallback_ext else ".jpg" in
  (mime, ext).

(** The outcome of [save_media]: stopped with an error, or a file written
    under a fresh name with extension [ext] and recorded with [mime] and
    the media type. *)
Inductive upload_result :=
  | TooLarge
  | Unsupported
  | Saved (mime ext media_type : string).

(** [save_media] for an upload of [size] bytes whose name has the extension
    [ext] (the second component of [os.path.splitext]). *)
Definition save_media (size : Z) (m : magic) (ext : string) : upload_result :=
  if MAX_MB * 1024 * 1024 <? size then TooLarge
  else
    let '(mime, ext2) := sniff_mime m (if nonempty ext then ext else ".jpg") in
    if negb (str_in mime ALLOWED_MIMES) then Unsupported
    else if str_in mime IMG_MIMES then Saved mime ext2 "image"
    else Saved mime ext2 "video".

(** [_save_avatar]: the stored path of an accepted image ([thumb or path]);
    here the decision only, [true] when a path is returned. *)
Definition avatar_accepted (r : upload_result) : bool :=
  match r with
  | Saved _ _ media_type => String.eqb media_type "image"
  | _ => false
  end.

(** The extension a stored file gets for each accepted type. *)
Definition canonical_ext (mime : string) : string :=
  dict_get
    [("image/jpeg", ".jpg"); ("image/png", ".png"); ("image/gif", ".gif");
     ("video/mp4", ".mp4"); ("video/webm", ".webm");
     ("video/quicktime", ".mov")] mime "".

End Uploads.

(** ** The drag board *)

Module Grid.
Import Corkboard.

(** One item of the dashboard layout; [w=4], [h=3] and [static=False] are
    the same for every item. *)
Record grid_item := mkgrid { g_i : string; g_x : Z; g_y : Z }.

(** [v or 40] for a coordinate. *)
Definition or_40 (v : Z) : Z := if v =? 0 then 40 else v.

(** [to_grid]: the cell a note is shown in.  The coordinates the application
    writes are whole numbers, on which [//] is [Z.div]. *)
Definition to_grid (kn : Z * note) : grid_item :=
  let x_units := Z.max 0 (Z.min 11 (or_40 (n_x kn.2) / 80)) in
  let y_units := Z.max 0 (or_40 (n_y kn.2) / 60) in
  mkgrid (pretty kn.1) x_units y_units.

(** Persisting one item of the layout the board reports, [nid] being
    [int(item["i"])]. *)
Definition persist_item (s : store) (FAMILY : string) (item : Z * Z * Z)
    : store :=
  let '(nid, x, y) := item in
  save_position s FAMILY nid (x * 80) (y * 60).

(** Persisting the whole layout, item by item. *)
Definition persist_layout (s : store) (FAMILY : string)
    (layout : list (Z * Z * Z)) : store :=
  foldl (λ s item, persist_item s FAMILY item) s layout.

End Grid.

(** ** RSVPs and profiles *)

Module Rsvp.

(** A row of [user_profiles], keyed by its unique pair (family, username). *)
Record profile := mkprofile {
  p_first_name : option string;
  p_last_name : option string;
  p_avatar_path : option string
}.

Definition profiles := gmap (string * string) profile.

(** The table [event_rsvps], keyed by its primary key (event_id, username);
    the value is the status.  The column [responded_at] is written and never
    read. *)
Definition rsvps := gmap (Z * string) string.

Inductive rsvp_button := Going | Maybe | Cant.

Definition status_of (b : rsvp_button) : string :=
  match b with
  | Going => "going"
  | Maybe => "maybe"
  | Cant => "cant"
  end.

(** [SELECT status FROM event_rsvps WHERE event_id=? AND username=?]. *)
Definition my_rsvp (r : rsvps) (event_id : Z) (DISPLAY_NAME : string)
    : option string :=
  r !! (event_id, DISPLAY_NAME).

(** One of the three buttons: the upsert [INSERT ... ON CONFLICT(event_id,
    username) DO UPDATE SET status=excluded.status].  The foreign key makes
    the statement fail, and change nothing, when the event is gone. *)
Definition press_rsvp (s : store) (r : rsvps) (event_id : Z)
    (DISPLAY_NAME : string) (b : rsvp_button) : rsvps :=
  match fetch_by_id (events s) event_id with
  | Some _ => <[(event_id, DISPLAY_NAME) := status_of b]> r
  | None => r
  end.

(** Clear my RSVP. *)
Definition clear_rsvp (r : rsvps) (event_id : Z) (DISPLAY_NAME : string)
    : rsvps :=
  delete (event_id, DISPLAY_NAME) r.

(** Deleting an event through the Manage panel, with the [ON DELETE CASCADE]
    of [event_rsvps]: when the row goes, so do the RSVPs that refer to
    it. *)
Definition delete_event_cascade (s : store) (r : rsvps) (FAMILY : string)
    (id : Z) : store * rsvps :=
  let s' := Calendar.delete_event s FAMILY id in
  (s', match fetch_by_id (events s) id, fetch_by_id (events s') id with
       | Some _, None => filter (λ kv, kv.1.1 ≠ id) r
       | _, _ => r
       end).

(** One row of the attendee query. *)
Record attendee := mkattendee {
  a_username : string;
  a_status : string;
  a_first_name : string;
  a_last_name : string;
  a_avatar_path : string
}.

(** [CASE r.status WHEN 'going' THEN 0 WHEN 'maybe' THEN 1 ELSE 2 END]. *)
Definition status_rank (st : string) : Z :=
  if String.eqb st "going" then 0
  else if String.eqb st "maybe" then 1 else 2.

(** The [ORDER BY] of the attendee query: status rank, then the username
    without regard to case. *)
Definition attendee_leb (a b : attendee) : bool :=
  (status_rank (a_status a) <? status_rank (a_status b))
  || ((status_rank (a_status a) =? status_rank (a_status b))
      && String.leb (lower (a_username a)) (lower (a_username b))).

Definition attendee_le (a b : attendee) : Prop := attendee_leb a b = true.

#[export] Instance attendee_le_dec a b : Decision (attendee_le a b).
Proof. unfold attendee_le. apply _. Defined.

(** The [LEFT JOIN] with the viewer's family's profiles. *)
Definition join_profile (p : profiles) (FAMILY : string)
    (kv : Z * string * string) : attendee :=
  let pr := p !! (FAMILY, kv.1.2) in
  mkattendee kv.1.2 kv.2
    (default "" (pr ≫= p_first_name))
    (default "" (pr ≫= p_last_name))
    (default "" (pr ≫= p_avatar_path)).

Definition attendees (r : rsvps) (p : profiles) (FAMILY : string)
    (event_id : Z) : list attendee :=
  merge_sort attendee_le
    (join_profile p FAMILY
       <$> filter (λ kv, kv.1.1 = event_id) (map_to_list r)).

(** The name on a chip: first and last name, or the username when both are
    missing. *)
Definition chip_name (a : attendee) : string :=
  let full := strip (a_first_name a +:+ " " +:+ a_last_name a) in
  if nonempty full then full else a_username a.

(** Going before maybe before cannot. *)
Definition rank_le (a b : attendee) : Prop :=
  status_rank (a_status a) <= status_rank (a_status b).

End Rsvp.

(** ** Factory reset *)

Module Admin.

(** [DELETE FROM t]. *)
Definition wipe {A} (t : table A) : table A := delete_where (λ _ _, true) t.

(** The sixteen [DELETE FROM] statements, on the tables of [store]. *)
Definition wipe_everything (s : store) : store :=
  mkstore (wipe (notes s)) (wipe (reactions s)) (wipe (lists s))
    (wipe (list_items s)) (wipe (documents s)) (wipe (events s))
    (wipe (chat_messages s)) ∅.

(** [ADMIN_KEY]: the secret [ADMIN_RESET_PASSWORD] when it is set and not
    empty, else the environment variable [HIVE_ADMIN_RESET]. *)
Definition ADMIN_KEY (secret env : option string) : option string :=
  if truthy secret then secret else env.

(** [_factory_reset_ui_secured] with the Wipe everything button pressed:
    [pwd] is the password typed, [txt] the confirmation typed. *)
Definition factory_reset (secret env : option string) (pwd txt : string)
    (s : store) : store :=
  match ADMIN_KEY secret env with
  | None => s
  | Some key =>
      if negb (nonempty key) then s
      else if negb (String.eqb pwd key) then s
      else if String.eqb (strip txt) "RESET" then wipe_everything s
      else s
  end.

End Admin.

(** ** The due filter of the board *)

Module Due.
Import PyDate PyDateTime Corkboard.

Definition seconds_of (t : time) : Z :=
  hour t * 3600 + minute t * 60 + second t.

(** [parse_aware]: the empty string gives [now]; a naive value is taken as
    UTC; an aware one is moved to UTC.  [None] is the exception raised by
    [fromisoformat] or by leaving the range of years. *)
Definition parse_aware (now : datetime) (dt_str : string) : option datetime :=
  if negb (nonempty dt_str) then Some now
  else
    dt ← fromisoformat dt_str;
    let off := default 0 (tzoffset dt) in
    let total :=
      toordinal (dt_date dt) * 86400 + seconds_of (dt_time dt) - off * 60 in
    d ← fromordinal (total / 86400);
    let sec := total mod 86400 in
    Some (mkdatetime d (mktime (sec / 3600) (sec / 60 mod 60) (sec mod 60))
            (Some 0)).

(** Comparison of times of day, field by field. *)
Definition time_ltb (a b : time) : bool :=
  (hour a <? hour b)
  || ((hour a =? hour b)
      && ((minute a <? minute b)
          || ((minute a =? minute b) && (second a <? second b)))).

(** [dt < now] for two UTC values, [dt] a whole second and [now] with
    [now_us] microseconds. *)
Definition before_now (dt now : datetime) (now_us : Z) : bool :=
  PyDate.ltb (dt_date dt) (dt_date now)
  || (bool_decide (dt_date dt = dt_date now)
      && (time_ltb (dt_time dt) (dt_time now)
          || (bool_decide (dt_time dt = dt_time now) && (0 <? now_us)))).

Inductive due_filter := All | DueToday | Overdue.

(** [include_due]; [now] and [now_us] are [datetime.now(timezone.utc)]. *)
Definition include_due (f_due : due_filter) (now : datetime) (now_us : Z)
    (n : note) : bool :=
  match f_due with
  | All => true
  | _ =>
      if negb (truthy (n_due_at n)) then false
      else
        match parse_aware now (default "" (n_due_at n)) with
        | None => false
        | Some dt =>
            match f_due with
            | DueToday => bool_decide (dt_date dt = dt_date now)
            | Overdue => before_now dt now now_us
            | All => true
            end
        end
  end.

(** The notes the board shows: the page of the query, then the due
    filter. *)
Definition board_view (s : store) (FAMILY fs fa ft : string)
    (f_due : due_filter) (now : datetime) (now_us : Z) (page : nat)
    : list (Z * note) :=
  filter (λ kn, include_due f_due now now_us kn.2 = true)
    (notes_listing s FAMILY fs fa ft page).

(** The Prev and Next buttons under the board: whether each is enabled and
    the page it leads to. *)
Definition prev_enabled (page : nat) : bool := negb (page =? 0)%nat.
Definition next_enabled (view : list (Z * note)) : bool :=
  negb (List.length view <? PAGE_SIZE)%nat.
Definition prev_page (page : nat) : nat := Nat.max 0 (page - 1).
Definition next_page (page : nat) : nat := page + 1.

End Due.

(** ** Search texts *)

Module Search.

(** No [%] and no [_] in the text. *)
Fixpoint wildcard_free (s : string) : bool :=
  match s with
  | EmptyString => true
  | String c r =>
      negb (Ascii.eqb c "%") && negb (Ascii.eqb c "_") && wildcard_free r
  end.

End Search.

(** ** Escaping text for HTML *)

Module Html.

(** [s.replace(old, new)] for a one-character [old]. *)
Fixpoint replace_char (old : ascii) (new : string) (s : string) : string :=
  match s with
  | EmptyString => EmptyString
  | String d r =>
      (if Ascii.eqb d old then new else String d EmptyString)
      +:+ replace_char old new r
  end.

(** [html.escape(s)] with [quote=True]: five replacements one after the
    other, the ampersand first.  ["034"] is the double quote and ["039"]
    the apostrophe. *)
Definition html_escape (s : string) : string :=
  let s := replace_char "&" "&amp;" s in
  let s := replace_char "<" "&lt;" s in
  let s := replace_char ">" "&gt;" s in
  let s := replace_char "034" "&quot;" s in
  replace_char "039" "&#x27;" s.

(** [esc]. *)
Definition esc (s : option string) : string := html_escape (or_str s "").

(** What one character becomes. *)
Definition esc_char (c : ascii) : string :=
  if Ascii.eqb c "&" then "&amp;"
  else if Ascii.eqb c "<" then "&lt;"
  else if Ascii.eqb c ">" then "&gt;"
  else if Ascii.eqb c "034" then "&quot;"
  else if Ascii.eqb c "039" then "&#x27;"
  else String c EmptyString.

(** The characters [html.escape] replaces. *)
Definition special (c : ascii) : bool :=
  Ascii.eqb c "&" || Ascii.eqb c "<" || Ascii.eqb c ">"
  || Ascii.eqb c "034" || Ascii.eqb c "039".

(** [c in s] for a character. *)
Fixpoint has_char (c : ascii) (s : string) : bool :=
  match s with
  | EmptyString => false
  | String d r => Ascii.eqb d c || has_char c r
  end.

End Html.

(** ** Family feed *)

Module Feed.
Import Uploads.

Record post := mkpost {
  po_family : string;
  po_album_id : option Z;
  po_author : string;
  po_caption : string
}.

Record post_media := mkmedia {
  pm_post_id : Z;
  pm_ext : string;
  pm_mime : string;
  pm_media_type : string
}.

Record post_comment := mkpostcomment {
  pc_post_id : Z;
  pc_author : string;
  pc_text : string
}.

(** The tables of the feed; [post_likes] is keyed by its primary key
    (post_id, author) and has no other column. *)
Record feed := mkfeed {
  posts : table post;
  post_media_t : table post_media;
  post_likes : gset (Z * string);
  post_comments : table post_comment
}.

(** The [save_media] and [INSERT INTO post_media] loop over the uploads of
    a post, each upload given by the outcome of [save_media].  A refused
    upload stops the script there ([st.stop()]); what was written before
    stays. *)
Fixpoint attach (media : table post_media) (post_id : Z)
    (uploads : list upload_result) : table post_media :=
  match uploads with
  | [] => media
  | Saved mime ext media_type :: rest =>
      attach (insert_row (mkmedia post_id ext mime media_type) media)
        post_id rest
  | _ :: _ => media
  end.

(** The Post button: the INSERT, the read-back of the newest post id of the
    family, and the attachments.  [album_id] is the id picked in the Album
    box, if any. *)
Definition create_post (f : feed) (FAMILY : string) (album_id : option Z)
    (DISPLAY_NAME caption : string) (uploads : list upload_result) : feed :=
  let posts1 :=
    insert_row (mkpost FAMILY album_id DISPLAY_NAME caption) (posts f) in
  match limit_offset 1 0
          (order_by_id_desc
             (select_where (λ _ p, String.eqb (po_family p) FAMILY) posts1))
  with
  | (post_id, _) :: _ =>
      mkfeed posts1 (attach (post_media_t f) post_id uploads)
        (post_likes f) (post_comments f)
  | [] => mkfeed posts1 (post_media_t f) (post_likes f) (post_comments f)
  end.

(** [SELECT COUNT( * ) FROM post_likes WHERE post_id=p.id] and the same for
    comments. *)
Definition like_count (f : feed) (post_id : Z) : nat :=
  size (filter (λ k, k.1 = post_id) (post_likes f)).

Definition comment_count (f : feed) (post_id : Z) : nat :=
  List.length
    (select_where (λ _ c, pc_post_id c =? post_id) (post_comments f)).

(** One page of the feed: the posts of the family, newest first, each with
    its two counts. *)
Definition feed_page (f : feed) (FAMILY : string) (page : nat)
    : list (Z * post * nat * nat) :=
  (λ kp, (kp, like_count f kp.1, comment_count f kp.1))
  <$> limit_offset Corkboard.PAGE_SIZE (page * Corkboard.PAGE_SIZE)
        (order_by_id_desc
           (select_where (λ _ p, String.eqb (po_family p) FAMILY) (posts f))).

(** [SELECT 1 FROM post_likes WHERE post_id=? AND author=?]. *)
Definition liked (f : feed) (post_id : Z) (DISPLAY_NAME : string) : bool :=
  bool_decide ((post_id, DISPLAY_NAME) ∈ post_likes f).

(** The Like / Unlike button.  [INSERT OR IGNORE] still fails on the
    foreign key when the post is gone, and then changes nothing. *)
Definition press_like (f : feed) (post_id : Z) (DISPLAY_NAME : string)
    : feed :=
  if liked f post_id DISPLAY_NAME then
    mkfeed (posts f) (post_media_t f)
      (post_likes f ∖ {[(post_id, DISPLAY_NAME)]}) (post_comments f)
  else
    match fetch_by_id (posts f) post_id with
    | Some _ =>
        mkfeed (posts f) (post_media_t f)
          ({[(post_id, DISPLAY_NAME)]} ∪ post_likes f) (post_comments f)
    | None => f
    end.

(** The Comment form under a post. *)
Definition add_post_comment (f : feed) (post_id : Z)
    (DISPLAY_NAME txt : string) : feed :=
  if nonempty (strip txt) then
    match fetch_by_id (posts f) post_id with
    | Some _ =>
        mkfeed (posts f) (post_media_t f) (post_likes f)
          (insert_row (mkpostcomment post_id DISPLAY_NAME (strip txt))
             (post_comments f))
    | None => f
    end
  else f.

(** [DELETE FROM posts WHERE id=?], with the [ON DELETE CASCADE] of the
    media, likes and comments. *)
Definition delete_post (f : feed) (post_id : Z) : feed :=
  match fetch_by_id (posts f) post_id with
  | Some _ =>
      mkfeed (delete_where (λ k _, k =? post_id) (posts f))
        (delete_where (λ _ m, pm_post_id m =? post_id) (post_media_t f))
        (filter (λ k, k.1 ≠ post_id) (post_likes f))
        (delete_where (λ _ c, pc_post_id c =? post_id) (post_comments f))
  | None => f
  end.

End Feed.

(** ** Saving the profile *)

Module Profile.
Import Rsvp Identity.

(** [_get_or_create_profile]: the profile table afterwards. *)
Definition get_or_create_profile (p : profiles)
    (family username first last : string) : profiles :=
  match p !! (family, username) with
  | Some _ => p
  | None =>
      <[(family, username) := mkprofile (or_none first) (or_none last) None]> p
  end.

(** [UPDATE user_profiles SET first_name=?, last_name=? WHERE family=? AND
    username=?], with [avatar_path=?] as well when a new avatar [ap] was
    stored. *)
Definition update_profile (p : profiles) (family username : string)
    (ap : option string) (first last : string) : profiles :=
  match p !! (family, username) with
  | Some pr =>
      <[(family, username) :=
          mkprofile (or_none first) (or_none last)
            (if truthy ap then ap else p_avatar_path pr)]> p
  | None => p
  end.

(** The Save Profile button.  [ap] is what [_save_avatar] returned for the
    uploaded photo, [None] when there was no upload or it was refused. *)
Definition save_profile (s : store) (p : profiles) (qp ss : gmap string string)
    (first last : string) (ap : option string)
    : store * gmap string string * profiles :=
  let fam := or_str (ss !! "family") "public" in
  let user := or_str (ss !! "user") "Guest" in
  let p1 := get_or_create_profile p fam user first last in
  let p2 := update_profile p1 fam user ap first last in
  (stick_user_to_url_and_settings s qp user fam, p2).

End Profile.

(** ** The New sticky form and the note cards *)

Module NoteForm.
Import PyDate PyDateTime Corkboard Calendar Uploads.

Inductive note_type := TText | TPhoto | TLink | TReminder.

Definition type_name (t : note_type) : string :=
  match t with
  | TText => "text"
  | TPhoto => "photo"
  | TLink => "link"
  | TReminder => "reminder"
  end.

(** The widgets of the form.  [sf_content_text] is the text, URL or reminder
    text (empty for a photo); [sf_upload] is the uploaded photo, given by
    the outcome of [save_media] and the path it was stored under. *)
Record sticky_form := mkstickyform {
  sf_type_choice : note_type;
  sf_content_text : string;
  sf_upload : option (upload_result * string);
  sf_color : string;
  sf_assignee : string;
  sf_tags : string;
  sf_due_d : option date;
  sf_due_t : option time
}.

(** [s.startswith("http://") or s.startswith("https://")]. *)
Definition starts_http (s : string) : bool :=
  prefix_of "http://" s || prefix_of "https://" s.

(** The content the checks of Add Note let through; [None] is
    [st.error(...); st.stop()]. *)
Definition checked_content (f : sticky_form) : option string :=
  match sf_type_choice f with
  | TPhoto =>
      match sf_upload f with
      | Some (Saved mime _ _, path) =>
          if str_in mime IMG_MIMES then Some path else None
      | _ => None
      end
  | TLink =>
      if starts_http (sf_content_text f) then Some (sf_content_text f)
      else None
  | _ => Some (sf_content_text f)
  end.

(** The Add Note button. *)
Definition submit_note (s : store) (FAMILY : string) (f : sticky_form)
    : option store :=
  content_text ← checked_content f;
  Some (add_note s FAMILY
          (mkfields content_text (sf_color f) (type_name (sf_type_choice f))
             (sf_assignee f) (iso_utc (sf_due_d f) (sf_due_t f))
             (sf_tags f))).

(** What a card of the note list shows, by the type of the note.  For a
    photo the path is shown as an image when the file exists and as a
    warning otherwise; a type outside the four shows no body. *)
Inductive card :=
  | TextCard (text : string)
  | LinkCard (url : string)
  | InvalidLink
  | PhotoCard (path : string)
  | ReminderCard (text : string)
  | NoBody.

Definition render_card (n : note) : card :=
  match n_type n with
  | None => TextCard (n_content n)
  | Some t =>
      if String.eqb t "text" then TextCard (n_content n)
      else if String.eqb t "link" then
        if starts_http (n_content n) then LinkCard (n_content n)
        else InvalidLink
      else if String.eqb t "photo" then PhotoCard (n_content n)
      else if String.eqb t "reminder" then ReminderCard (n_content n)
      else NoBody
  end.

End NoteForm.

(** ** More sample data *)

Module MoreDemo.
Import Demo.

(** A feed with one post of bob in family A, liked by alice. *)
Definition empty_feed : Feed.feed :=
  Feed.mkfeed empty_table empty_table ∅ empty_table.
Definition feed1 : Feed.feed :=
  Feed.press_like
    (Feed.create_post empty_feed "A" None "bob" "First snow" []) 1 "alice".

(** A link sticky as typed into the form. *)
Definition link_form : NoteForm.sticky_form :=
  NoteForm.mkstickyform NoteForm.TLink "https://example.org/menu" None
    "#FFF176" "" "" None None.

(** A sticky due on 2024-03-10, with no time given, and the first of March
    2024 at noon UTC. *)
Definition due_sticky : Corkboard.note_fields :=
  Corkboard.mkfields "Renew passport" "#FFF176" "text" ""
    (Calendar.iso_utc (Some march_10) None) "".
Definition noon_utc : PyDateTime.datetime :=
  PyDateTime.combine_utc (PyDate.mkdate 2024 3 1) (PyDateTime.mktime 12 0 0).

End MoreDemo.

(** * Facts about the storage gateway *)

Module SqlFacts.

Lemma lookup_update_where {A} (p : Z → A → bool) (f : A → A) (t : table A) k :
  rows (update_where p f t) !! k
  = (λ r, if p k r then f r else r) <$> rows t !! k.
Proof.
  unfold update_where; simpl. rewrite map_lookup_imap.
  destruct (rows t !! k); reflexivity.
Qed.

Lemma seq_update_where {A} (p : Z → A → bool) (f : A → A) (t : table A) :
  seq (update_where p f t) = seq t.
Proof. reflexivity. Qed.

Lemma lookup_delete_where_Some {A} (p : Z → A → bool) (t : table A) k r :
  rows (delete_where p t) !! k = Some r ↔ rows t !! k = Some r ∧ p k r = false.
Proof. unfold delete_where; simpl. apply map_lookup_filter_Some. Qed.

Lemma lookup_delete_where {A} (p : Z → A → bool) (t : table A) k :
  rows (delete_where p t) !! k
  = match rows t !! k with
    | Some r => if p k r then None else Some r
    | None => None
    end.
Proof.
  unfold delete_where; simpl. rewrite map_lookup_filter.
  destruct (rows t !! k) as [r|]; simpl; [|done].
  case_guard as E; simpl in *; destruct (p k r); congruence.
Qed.

Lemma elem_of_select_where {A} (p : Z → A → bool) (t : table A) k r :
  (k, r) ∈ select_where p t ↔ rows t !! k = Some r ∧ p k r = true.
Proof.
  unfold select_where. rewrite list_elem_of_filter, elem_of_map_to_list.
  simpl. tauto.
Qed.

Lemma NoDup_select_where {A} (p : Z → A → bool) (t : table A) :
  NoDup (select_where p t).
Proof. apply NoDup_filter, NoDup_map_to_list. Qed.

Lemma max_rowid_ge {A} (m : gmap Z A) k r : m !! k = Some r → k ≤ max_rowid m.
Proof.
  intros H. apply elem_of_map_to_list in H. unfold max_rowid.
  induction (map_to_list m) as [|[k' r'] l IH]; [by apply elem_of_nil in H|].
  apply elem_of_cons in H as [H|H]; simpl.
  - inversion H; subst. lia.
  - specialize (IH H). lia.
Qed.

Lemma max_rowid_nonneg {A} (m : gmap Z A) : 0 ≤ max_rowid m.
Proof.
  unfold max_rowid. induction (map_to_list m) as [|[k r] l IH]; simpl; lia.
Qed.

Lemma next_rowid_fresh {A} (t : table A) : rows t !! next_rowid t = None.
Proof.
  destruct (rows t !! next_rowid t) eqn:E; [|done].
  apply max_rowid_ge in E. unfold next_rowid in E. lia.
Qed.

Lemma next_rowid_gt {A} (t : table A) k r :
  rows t !! k = Some r → k < next_rowid t.
Proof. intros H%max_rowid_ge. unfold next_rowid. lia. Qed.

Lemma next_rowid_pos {A} (t : table A) : 0 < next_rowid t.
Proof. pose proof (max_rowid_nonneg (rows t)). unfold next_rowid. lia. Qed.

Lemma lookup_insert_row {A} (r : A) (t : table A) k :
  rows (insert_row r t) !! k
  = if decide (k = next_rowid t) then Some r else rows t !! k.
Proof.
  unfold insert_row; simpl. rewrite lookup_insert.
  repeat case_decide; congruence.
Qed.

Lemma max_rowid_le {A} (m : gmap Z A) b :
  0 ≤ b → (∀ k r, m !! k = Some r → k ≤ b) → max_rowid m ≤ b.
Proof.
  intros Hb Hall.
  assert (∀ kr, kr ∈ map_to_list m → kr.1 ≤ b) as Hl.
  { intros [k x] Hin%elem_of_map_to_list. by eapply Hall. }
  unfold max_rowid.
  induction (map_to_list m) as [|a l IH]; simpl; [lia|].
  assert (a.1 ≤ b) by (apply Hl; left).
  assert (foldr (λ kr acc, Z.max kr.1 acc) 0 l ≤ b)
    by (apply IH; intros; apply Hl; by right).
  lia.
Qed.

Lemma next_rowid_insert_row {A} (r : A) (t : table A) :
  next_rowid (insert_row r t) = next_rowid t + 1.
Proof.
  unfold next_rowid at 1. unfold insert_row; simpl.
  pose proof (next_rowid_pos t).
  assert (max_rowid (<[next_rowid t := r]> (rows t)) ≤ next_rowid t).
  { apply max_rowid_le; [lia|]. intros k x. rewrite lookup_insert.
    case_decide; [lia|]. intros Hk%next_rowid_gt. lia. }
  lia.
Qed.

(** Sorting and paging only reorder and drop rows. *)
Lemma elem_of_limit_offset {A} n k (l : list A) x :
  x ∈ limit_offset n k l → x ∈ l.
Proof.
  unfold limit_offset. intros H.
  apply elem_of_take in H as (i & H & _).
  rewrite lookup_drop in H. by eapply list_elem_of_lookup_2.
Qed.

Lemma elem_of_order_by_id_desc {A} (l : list (Z * A)) x :
  x ∈ order_by_id_desc l ↔ x ∈ l.
Proof. unfold order_by_id_desc. by rewrite merge_sort_Permutation. Qed.

End SqlFacts.

(** * Soft delete *)

Module SoftDelete.
Import SqlFacts Corkboard Lists Notepad.

Lemma notes_listing_select s FAMILY fs fa ft page k n :
  (k, n) ∈ notes_listing s FAMILY fs fa ft page →
  fetch_by_id (notes s) k = Some n ∧ alive_in FAMILY k n = true.
Proof.
  unfold notes_listing. intros H%elem_of_limit_offset.
  rewrite merge_sort_Permutation in H.
  apply elem_of_select_where in H as [H1 H2].
  rewrite !andb_true_iff in H2. tauto.
Qed.

Lemma lists_listing_select s FAMILY k l :
  (k, l) ∈ lists_listing s FAMILY →
  fetch_by_id (lists s) k = Some l ∧ l_family l = FAMILY ∧ l_deleted_at l = None.
Proof.
  unfold lists_listing. intros H%elem_of_limit_offset.
  apply elem_of_order_by_id_desc, elem_of_select_where in H as [H1 H2].
  apply andb_true_iff in H2 as [H2 H3]. apply String.eqb_eq in H2.
  destruct (l_deleted_at l); [discriminate|]. done.
Qed.

Lemma docs_listing_select s FAMILY k d :
  (k, d) ∈ docs_listing s FAMILY →
  fetch_by_id (documents s) k = Some d ∧ d_family d = FAMILY ∧ d_deleted_at d = None.
Proof.
  unfold docs_listing. intros H%elem_of_limit_offset.
  apply elem_of_order_by_id_desc, elem_of_select_where in H as [H1 H2].
  apply andb_true_iff in H2 as [H2 H3]. apply String.eqb_eq in H2.
  destruct (d_deleted_at d); [discriminate|]. done.
Qed.

Lemma alive_in_spec FAMILY k n :
  alive_in FAMILY k n = true ↔ n_family n = FAMILY ∧ n_deleted_at n = None.
Proof.
  unfold alive_in. rewrite andb_true_iff, String.eqb_eq.
  destruct (n_deleted_at n); simpl; intuition congruence.
Qed.

(** C8. Soft delete of a note, a list or a document writes [deleted_at]
    and nothing else: the row is still stored under its id with every
    other column as before and [deleted_at] set, no other row changes, and
    the row is in no family-scoped listing, whatever the family, the
    filters or the page. *)
Theorem soft_delete_keeps_row_hides_it (s : store) (id : Z) (now : string) :
  (∀ n, fetch_by_id (notes s) id = Some n →
     let s' := soft_delete_note s (n_family n) id now in
     fetch_by_id (notes s') id = Some (set_note_deleted_at (Some now) n)
     ∧ (∀ k, k ≠ id → fetch_by_id (notes s') k = fetch_by_id (notes s) k)
     ∧ (∀ FAMILY fs fa ft page x,
          x ∈ notes_listing s' FAMILY fs fa ft page → x.1 ≠ id))
  ∧ (∀ l, fetch_by_id (lists s) id = Some l →
     let s' := delete_list s id now in
     fetch_by_id (lists s') id = Some (set_list_deleted_at (Some now) l)
     ∧ (∀ k, k ≠ id → fetch_by_id (lists s') k = fetch_by_id (lists s) k)
     ∧ (∀ FAMILY x, x ∈ lists_listing s' FAMILY → x.1 ≠ id))
  ∧ (∀ d, fetch_by_id (documents s) id = Some d →
     let s' := delete_doc s id now in
     fetch_by_id (documents s') id = Some (set_doc_deleted_at (Some now) d)
     ∧ (∀ k, k ≠ id → fetch_by_id (documents s') k = fetch_by_id (documents s) k)
     ∧ (∀ FAMILY x, x ∈ docs_listing s' FAMILY → x.1 ≠ id)).
Proof.
  split; [|split].
  - intros n Hn s'. unfold fetch_by_id in *.
    assert (Hid : rows (notes s') !! id = Some (set_note_deleted_at (Some now) n)).
    { subst s'. unfold soft_delete_note, with_notes; cbn [notes].
      rewrite lookup_update_where, Hn; simpl.
      by rewrite Z.eqb_refl, String.eqb_refl. }
    split; [done|split].
    + intros k Hk. subst s'. unfold soft_delete_note, with_notes; cbn [notes].
      rewrite lookup_update_where.
      destruct (rows (notes s) !! k) as [r|]; simpl; [|done].
      destruct (Z.eqb_spec k id); [done|]. done.
    + intros FAMILY fs fa ft page [k r] Hin Heq; simpl in Heq; subst k.
      apply notes_listing_select in Hin as [Hr Ha]. unfold fetch_by_id in Hr.
      rewrite Hid in Hr. inversion Hr; subst r.
      apply alive_in_spec in Ha as [_ Ha]. discriminate.
  - intros l Hl s'. unfold fetch_by_id in *.
    assert (Hid : rows (lists s') !! id = Some (set_list_deleted_at (Some now) l)).
    { subst s'. unfold delete_list, with_lists; cbn [lists].
      rewrite lookup_update_where, Hl; simpl. by rewrite Z.eqb_refl. }
    split; [done|split].
    + intros k Hk. subst s'. unfold delete_list, with_lists; cbn [lists].
      rewrite lookup_update_where.
      destruct (rows (lists s) !! k) as [r|]; simpl; [|done].
      destruct (Z.eqb_spec k id); done.
    + intros FAMILY [k r] Hin Heq; simpl in Heq; subst k.
      apply lists_listing_select in Hin as (Hr & _ & Ha). unfold fetch_by_id in Hr.
      rewrite Hid in Hr. inversion Hr; subst r. discriminate.
  - intros d Hd s'. unfold fetch_by_id in *.
    assert (Hid : rows (documents s') !! id = Some (set_doc_deleted_at (Some now) d)).
    { subst s'. unfold delete_doc, with_documents; cbn [documents].
      rewrite lookup_update_where, Hd; simpl. by rewrite Z.eqb_refl. }
    split; [done|split].
    + intros k Hk. subst s'. unfold delete_doc, with_documents; cbn [documents].
      rewrite lookup_update_where.
      destruct (rows (documents s) !! k) as [r|]; simpl; [|done].
      destruct (Z.eqb_spec k id); done.
    + intros FAMILY [k r] Hin Heq; simpl in Heq; subst k.
      apply docs_listing_select in Hin as (Hr & _ & Ha). unfold fetch_by_id in Hr.
      rewrite Hid in Hr. inversion Hr; subst r. discriminate.
Qed.

End SoftDelete.

(** * Family scope of the write statements *)

Module Scope.
Import SqlFacts Corkboard Lists Notepad Calendar Demo.

(** The statements that carry [AND family=?] leave a row of another
    family alone. *)
Lemma soft_delete_note_scoped s FAMILY id now n :
  fetch_by_id (notes s) id = Some n → n_family n ≠ FAMILY →
  ∀ k, fetch_by_id (notes (soft_delete_note s FAMILY id now)) k
       = fetch_by_id (notes s) k.
Proof.
  unfold fetch_by_id. intros Hn Hf k.
  unfold soft_delete_note, with_notes; cbn [notes].
  rewrite lookup_update_where.
  destruct (rows (notes s) !! k) as [r|] eqn:E; simpl; [|done].
  destruct (Z.eqb_spec k id) as [->|]; [|done].
  rewrite Hn in E. inversion E; subst r.
  destruct (String.eqb_spec (n_family n) FAMILY); [done|done].
Qed.

Lemma delete_event_scoped s FAMILY id e :
  fetch_by_id (events s) id = Some e → e_family e ≠ FAMILY →
  ∀ k, fetch_by_id (events (delete_event s FAMILY id)) k
       = fetch_by_id (events s) k.
Proof.
  unfold fetch_by_id. intros He Hf k.
  unfold delete_event, with_events; cbn [events].
  rewrite lookup_delete_where.
  destruct (rows (events s) !! k) as [r|] eqn:E; [|done].
  destruct (Z.eqb_spec k id) as [->|]; [|done].
  rewrite He in E. inversion E; subst r.
  destruct (String.eqb_spec (e_family e) FAMILY); [done|done].
Qed.

(** The statements keyed on the id alone reach the row whatever its
    family is: they have no family argument at all. *)
Lemma save_doc_any_family s id new d :
  fetch_by_id (documents s) id = Some d →
  fetch_by_id (documents (save_doc s id new)) id
  = Some (set_doc_content new d).
Proof.
  unfold fetch_by_id. intros Hd.
  unfold save_doc, with_documents; cbn [documents].
  by rewrite lookup_update_where, Hd; simpl; rewrite Z.eqb_refl.
Qed.

Lemma delete_item_any_family s id :
  fetch_by_id (list_items (delete_item s id)) id = None.
Proof.
  unfold fetch_by_id, delete_item, with_list_items; cbn [list_items].
  rewrite lookup_delete_where.
  destruct (rows (list_items s) !! id); [|done]. by rewrite Z.eqb_refl.
Qed.


End Scope.

(** * Identity resolution *)

Module IdentityFacts.
Import Identity Demo.

(** C7 as stated fails.  The session holds the explicit name Alice, the
    query parameters carry no user, and the family has a persisted
    last-active user Bob: the run works as Bob, not as Alice, while the
    stated priority order would keep Alice. *)
Lemma transient_name_replaced_by_last_active :
  alice_session !! "user" = Some "Alice"
  ∧ (∅ : gmap string string) !! "user" = None
  ∧ get_setting smith_settings "smith" "last_active_user" None = Some "Bob"
  ∧ resolve smith_settings ∅ alice_session = ("Bob", "smith")
  ∧ (resolve smith_settings ∅ alice_session).1
    ≠ spec_priority_name (alice_session !! "user") None (Some "Bob").
Proof. repeat split; vm_compute; congruence. Qed.

Lemma or_str_Some_idemp x d : or_str (Some (or_str x d)) d = or_str x d.
Proof.
  destruct x as [x|]; simpl.
  - destruct (String.eqb_spec x ""); simpl.
    + destruct (String.eqb_spec d ""); done.
    + by destruct (String.eqb_spec x "").
  - destruct (String.eqb_spec d ""); done.
Qed.

(** C7, amended.  The family of a run is the transient one if present,
    else the one of the query parameters, else [public].  The name: when
    the query parameters carry a non-empty user, the transient name if
    present, else that user; when they carry none, a non-empty persisted
    last-active user of that family replaces the transient name, and only
    without one is the transient name kept; [Guest] stands in for a
    missing or empty name. *)
Theorem resolve_follows_bootstrap_order (s : store)
    (qp ss : gmap string string) :
  let fam := bootstrap_family (ss !! "family") (qp !! "family") in
  resolve s qp ss
  = (bootstrap_name (ss !! "user") (qp !! "user")
       (get_setting s fam "last_active_user" None),
     fam).
Proof.
  intros fam.
  set (u0 := default (default "Guest" (qp !! "user")) (ss !! "user")).
  set (f0 := default (default "public" (qp !! "family")) (ss !! "family")).
  unfold resolve, sticky_user_bootstrap.
  set (ss1 := match ss !! "user" with Some _ => ss | None => _ end).
  set (ss2 := match ss1 !! "family" with Some _ => ss1 | None => _ end).
  assert (Hu1 : ss1 !! "user" = Some u0).
  { subst ss1 u0. destruct (ss !! "user") eqn:E; simpl; [done|].
    by rewrite lookup_insert_eq. }
  assert (Hf1 : ss1 !! "family" = ss !! "family").
  { subst ss1. destruct (ss !! "user"); [done|]. by rewrite lookup_insert_ne. }
  assert (Hu2 : ss2 !! "user" = Some u0).
  { subst ss2. destruct (ss1 !! "family"); [done|]. by rewrite lookup_insert_ne. }
  assert (Hf2 : ss2 !! "family" = Some f0).
  { subst ss2 f0. rewrite Hf1. destruct (ss !! "family") eqn:E; simpl.
    - by rewrite Hf1.
    - by rewrite lookup_insert_eq. }
  rewrite Hf2. change (or_str (Some f0) "public") with fam.
  assert (Hkeep : sidebar_defaults ss2 = ss2).
  { unfold sidebar_defaults. by rewrite Hu2, Hf2. }
  assert (Hkept : (DISPLAY_NAME ss2, FAMILY ss2)
                  = (or_str (Some u0) "Guest", fam)).
  { unfold DISPLAY_NAME, FAMILY. by rewrite Hu2, Hf2. }
  unfold bootstrap_name. fold u0.
  assert (Hdone : (DISPLAY_NAME (sidebar_defaults ss2),
                   FAMILY (sidebar_defaults ss2))
                  = (or_str (Some u0) "Guest", fam))
    by (by rewrite Hkeep).
  destruct (truthy (qp !! "user")); [exact Hdone|].
  destruct (get_setting s fam "last_active_user" None) as [last|];
    [|exact Hdone].
  unfold truthy, nonempty. cbn [or_str].
  destruct (String.eqb last "") eqn:Hne; cbn [negb andb]; [exact Hdone|].
  destruct (bool_decide_reflect (ss2 !! "user" = Some last)) as [E|E];
    cbn [negb].
  - rewrite Hdone. rewrite Hu2 in E. inversion E as [E'].
    rewrite E'. unfold or_str. by rewrite Hne.
  - assert (Hf3 : <["user":=last]> ss2 !! "family" = Some f0)
      by (rewrite lookup_insert_ne by discriminate; exact Hf2).
    unfold sidebar_defaults, DISPLAY_NAME, FAMILY.
    rewrite lookup_insert_eq, Hf3, lookup_insert_eq, Hf3.
    unfold or_str at 1. by rewrite Hne.
Qed.

End IdentityFacts.

(** * The wishlist claim workflow *)

Module Wishlist.
Import SqlFacts Lists.

Lemma DISPLAY_NAME_nonempty ss : Identity.DISPLAY_NAME ss ≠ "".
Proof.
  unfold Identity.DISPLAY_NAME, or_str.
  destruct (ss !! "user") as [u|]; [|done].
  destruct (String.eqb_spec u ""); done.
Qed.

Lemma truthy_Some v : v ≠ "" → truthy (Some v) = true.
Proof. intros H. simpl. by destruct (String.eqb_spec v ""). Qed.

Lemma or_str_Some v d : v ≠ "" → or_str (Some v) d = v.
Proof. intros H. simpl. by destruct (String.eqb_spec v ""). Qed.

(** A button is rendered exactly under these conditions. *)
Lemma button_available viewer lst it b :
  b ∈ wishlist_buttons viewer lst it ↔
  you_are_creator viewer lst = false
  ∧ truthy (li_purchased_by it) = false
  ∧ match b with
    | Claim => li_claimed_by it = None
    | Unclaim | MarkPurchased => li_claimed_by it = Some viewer
    end.
Proof.
  unfold wishlist_buttons.
  destruct (you_are_creator viewer lst).
  { rewrite elem_of_nil. intuition congruence. }
  destruct (truthy (li_purchased_by it)).
  { rewrite elem_of_nil. intuition congruence. }
  destruct (li_claimed_by it) as [c|].
  - destruct (String.eqb_spec c viewer) as [->|Hc].
    + rewrite !elem_of_cons, elem_of_nil. destruct b; intuition congruence.
    + rewrite elem_of_nil. destruct b; intuition congruence.
  - rewrite !elem_of_cons, elem_of_nil. destruct b; intuition congruence.
Qed.

(** The workflow has a move exactly under the same conditions. *)
Lemma spec_step_enabled viewer lst it b :
  spec_step (you_are_creator viewer lst) viewer b (item_state it)
  ≠ item_state it ↔
  you_are_creator viewer lst = false
  ∧ truthy (li_purchased_by it) = false
  ∧ match b with
    | Claim => li_claimed_by it = None
    | Unclaim | MarkPurchased => li_claimed_by it = Some viewer
    end.
Proof.
  unfold spec_step, item_state.
  destruct (you_are_creator viewer lst); [intuition congruence|].
  destruct (truthy (li_purchased_by it)); [intuition congruence|].
  destruct (li_claimed_by it) as [c|]; destruct b;
    try destruct (String.eqb_spec c viewer) as [->|];
    intuition congruence.
Qed.

(** C2. For every wishlist item and every viewer (a display name as the
    sidebar yields it), one button press moves the item's state exactly as
    the workflow [spec_step] says: a viewer who is not the creator claims
    an unclaimed item, unclaims or purchases their own claim only, and a
    purchased item stays as it is whoever presses what.  A button is on
    the page exactly when its transition is enabled, and the creator gets
    neither a caption nor a button in any item state. *)
Theorem wishlist_follows_workflow (ss : gmap string string) (lst : list_row)
    (it : list_item) (b : button) :
  let viewer := Identity.DISPLAY_NAME ss in
  item_state (wishlist_press viewer lst b it)
  = spec_step (you_are_creator viewer lst) viewer b (item_state it)
  ∧ (b ∈ wishlist_buttons viewer lst it ↔
     spec_step (you_are_creator viewer lst) viewer b (item_state it)
     ≠ item_state it)
  ∧ (truthy (li_purchased_by it) = true →
     ∀ ss' b', wishlist_press (Identity.DISPLAY_NAME ss') lst b' it = it)
  ∧ (you_are_creator viewer lst = true →
     wishlist_status viewer lst it = None
     ∧ wishlist_buttons viewer lst it = []).
Proof.
  intros viewer.
  assert (Hv : viewer ≠ "") by apply DISPLAY_NAME_nonempty.
  clearbody viewer.
  split; [|split; [|split]].
  - unfold wishlist_press.
    destruct (bool_decide_reflect (b ∈ wishlist_buttons viewer lst it)) as [Hb|Hb].
    + apply button_available in Hb as (Hc & Hp & Hab).
      unfold spec_step, item_state. rewrite Hc, Hp.
      destruct b; rewrite Hab; simpl;
        rewrite ?String.eqb_refl; simpl;
        destruct (String.eqb_spec viewer ""); done.
    + rewrite button_available, <- spec_step_enabled in Hb.
      destruct (decide (spec_step (you_are_creator viewer lst) viewer b
                          (item_state it) = item_state it)); [done|].
      by destruct Hb.
  - by rewrite button_available, spec_step_enabled.
  - intros Hp ss' b'. unfold wishlist_press.
    destruct (bool_decide_reflect
                (b' ∈ wishlist_buttons (Identity.DISPLAY_NAME ss') lst it))
      as [Hb|Hb]; [|done].
    apply button_available in Hb as (_ & Hp' & _). congruence.
  - intros Hc. unfold wishlist_status, wishlist_buttons. by rewrite Hc.
Qed.

(** The press against the database changes the fetched row as
    [wishlist_press] says and no other row. *)
Lemma press_row s viewer lst item_id b it :
  is_wishlist lst = true →
  fetch_by_id (list_items s) item_id = Some it →
  fetch_by_id (list_items (press s viewer lst item_id b)) item_id
  = Some (wishlist_press viewer lst b it)
  ∧ ∀ k, k ≠ item_id →
      fetch_by_id (list_items (press s viewer lst item_id b)) k
      = fetch_by_id (list_items s) k.
Proof.
  intros Hw Hit. unfold press, wishlist_press. rewrite Hit, Hw. simpl andb.
  destruct (bool_decide (b ∈ wishlist_buttons viewer lst it)).
  - unfold fetch_by_id in *. unfold exec_button, with_list_items;
      cbn [list_items]. split.
    + by rewrite lookup_update_where, Hit; simpl; rewrite Z.eqb_refl.
    + intros k Hk. rewrite lookup_update_where.
      destruct (rows (list_items s) !! k); simpl; [|done].
      by destruct (Z.eqb_spec k item_id).
  - done.
Qed.

Lemma press_keeps_consistent viewer lst b it :
  claim_fields_consistent it →
  claim_fields_consistent (wishlist_press viewer lst b it).
Proof.
  intros Hc. unfold wishlist_press.
  destruct (bool_decide_reflect (b ∈ wishlist_buttons viewer lst it))
    as [Hb|Hb]; [|done].
  apply button_available in Hb as (_ & _ & Hab).
  unfold claim_fields_consistent.
  destruct b; simpl; intros p Hp; congruence.
Qed.

(** C10. From a freshly inserted item, whatever viewers press whatever
    buttons in whatever order, [purchased_by] is set only when
    [claimed_by] is set to the same name.  Claim clears [purchased_by],
    Unclaim clears both columns, and Mark Purchased, which is offered to
    the claimant only, writes the claimant's name. *)
Theorem claim_fields_stay_consistent (lst : list_row) (list_id : Z)
    (text : string) (link_clean final_img : option string)
    (it : list_item) :
  reachable lst (new_wishlist_item list_id text link_clean final_img) it →
  claim_fields_consistent it
  ∧ (∀ viewer,
       li_claimed_by (button_effect viewer Claim it) = Some viewer
       ∧ li_purchased_by (button_effect viewer Claim it) = None
       ∧ li_claimed_by (button_effect viewer Unclaim it) = None
       ∧ li_purchased_by (button_effect viewer Unclaim it) = None
       ∧ (MarkPurchased ∈ wishlist_buttons viewer lst it →
          li_purchased_by (button_effect viewer MarkPurchased it)
          = li_claimed_by it
          ∧ li_claimed_by (button_effect viewer MarkPurchased it)
            = li_claimed_by it)).
Proof.
  intros Hr. split.
  - induction Hr as [|it viewer b Hr IH].
    + intros p Hp. discriminate.
    + by apply press_keeps_consistent.
  - intros viewer. do 4 (split; [done|]).
    intros Hb. apply button_available in Hb as (_ & _ & Hb).
    simpl. split; congruence.
Qed.

End Wishlist.

(** * Reaction toggle *)

Module Reactions.
Import SqlFacts Corkboard.

Lemma rx_matches_spec note_id emoji author k r :
  rx_matches note_id emoji author k r = true ↔
  (r_note_id r, r_emoji r, r_author r) = (note_id, emoji, Some author).
Proof.
  unfold rx_matches. rewrite !andb_true_iff, Z.eqb_eq, String.eqb_eq.
  destruct (r_author r) as [a|].
  - rewrite String.eqb_eq. split; [intros [[-> ->] ->]; done|].
    intros [= -> -> ->]. done.
  - split; [intros [_ [=]]|intros [=]].
Qed.

Lemma select_where_nil {A} (p : Z → A → bool) (t : table A) :
  select_where p t = [] ↔ ∀ k r, rows t !! k = Some r → p k r = false.
Proof.
  split.
  - intros Hnil k r Hk. destruct (p k r) eqn:E; [|done].
    assert ((k, r) ∈ select_where p t) as Hin
      by (by apply elem_of_select_where).
    rewrite Hnil in Hin. by apply elem_of_nil in Hin.
  - intros Hall. destruct (select_where p t) as [|[k r] l] eqn:E; [done|].
    assert ((k, r) ∈ select_where p t) as Hin by (rewrite E; left).
    apply elem_of_select_where in Hin as [Hk Hp].
    rewrite (Hall _ _ Hk) in Hp. discriminate.
Qed.

Lemma has_reaction_select s note_id emoji author :
  has_reaction s note_id emoji author ↔
  select_where (rx_matches note_id emoji author) (reactions s) ≠ [].
Proof.
  rewrite select_where_nil. unfold has_reaction, has_triple, fetch_by_id.
  split.
  - intros (k & r & Hk & Ht) Hall.
    apply rx_matches_spec with (k := k) in Ht. rewrite (Hall _ _ Hk) in Ht.
    discriminate.
  - intros Hn.
    destruct (select_where (rx_matches note_id emoji author) (reactions s))
      as [|[k r] l] eqn:E.
    + exfalso. apply Hn. by apply select_where_nil.
    + assert ((k, r) ∈ select_where (rx_matches note_id emoji author)
                (reactions s)) as Hin by (rewrite E; left).
      apply elem_of_select_where in Hin as [Hk Hp].
      exists k, r. split; [done|]. by apply rx_matches_spec in Hp.
Qed.

(** The two outcomes of the button. *)
Lemma react_absent s note_id emoji author now :
  is_Some (fetch_by_id (notes s) note_id) →
  ¬ has_reaction s note_id emoji author →
  react s note_id emoji author now
  = with_reactions s
      (insert_row (mkreaction note_id emoji (Some author) now) (reactions s)).
Proof.
  intros [n Hn] Ha. unfold react, insert_reaction.
  rewrite has_reaction_select in Ha.
  destruct (bool_decide_reflect
    (select_where (rx_matches note_id emoji author) (reactions s) = []))
    as [E|E]; [|by destruct Ha; intros ?].
  simpl. by rewrite Hn.
Qed.

Lemma react_present s note_id emoji author now :
  has_reaction s note_id emoji author →
  react s note_id emoji author now
  = with_reactions s
      (delete_where (rx_matches note_id emoji author) (reactions s)).
Proof.
  intros Ha. unfold react, insert_reaction.
  rewrite has_reaction_select in Ha.
  destruct (bool_decide_reflect
    (select_where (rx_matches note_id emoji author) (reactions s) = []))
    as [E|E]; [done|]. done.
Qed.

Lemma has_reaction_dec s note_id emoji author :
  has_reaction s note_id emoji author ∨ ¬ has_reaction s note_id emoji author.
Proof.
  rewrite has_reaction_select.
  destruct (select_where (rx_matches note_id emoji author) (reactions s));
    [right; by intros H|left; done].
Qed.

Lemma deleted_absent s note_id emoji author :
  ¬ has_reaction
      (with_reactions s
         (delete_where (rx_matches note_id emoji author) (reactions s)))
      note_id emoji author.
Proof.
  intros (k & r & Hk & Ht). unfold fetch_by_id in Hk; cbn [reactions with_reactions] in Hk.
  apply lookup_delete_where_Some in Hk as [_ Hp].
  apply rx_matches_spec with (k := k) in Ht. congruence.
Qed.

Lemma inserted_present s note_id emoji author now :
  has_reaction
    (with_reactions s
       (insert_row (mkreaction note_id emoji (Some author) now) (reactions s)))
    note_id emoji author.
Proof.
  exists (next_rowid (reactions s)), (mkreaction note_id emoji (Some author) now).
  split; [|done]. unfold fetch_by_id; cbn [reactions with_reactions].
  rewrite lookup_insert_row. by case_decide.
Qed.

Lemma uniq_rx_react s note_id emoji author now :
  is_Some (fetch_by_id (notes s) note_id) →
  uniq_rx s → uniq_rx (react s note_id emoji author now).
Proof.
  intros Hn Hu. destruct (has_reaction_dec s note_id emoji author) as [Ha|Ha].
  - rewrite react_present by done.
    intros k1 k2 r1 r2 a H1 H2. unfold fetch_by_id in *.
    cbn [reactions with_reactions] in *.
    apply lookup_delete_where_Some in H1 as [H1 _], H2 as [H2 _]. eauto.
  - rewrite react_absent by done.
    intros k1 k2 r1 r2 a H1 H2 En Ee A1 A2. unfold fetch_by_id in *.
    cbn [reactions with_reactions] in *.
    rewrite lookup_insert_row in H1, H2.
    destruct (decide (k1 = next_rowid (reactions s))) as [->|N1];
      destruct (decide (k2 = next_rowid (reactions s))) as [->|N2];
      [done| | |by eapply (Hu k1 k2)].
    + inversion H1; subst r1; simpl in *. exfalso. apply Ha.
      exists k2, r2. split; [done|]. congruence.
    + inversion H2; subst r2; simpl in *. exfalso. apply Ha.
      exists k1, r1. split; [done|]. congruence.
Qed.

(** C9. With the unique index in force and the note on the board, the
    emoji button toggles: when the viewer has no such reaction it inserts
    exactly one row, under a fresh id; when they have one it removes it and
    touches no other row; the index stays in force.  Pressing twice brings
    back the set of (note, emoji, author) triples the table held, and the
    very same rows when the reaction was absent to begin with. *)
Theorem reaction_toggle_pairs (s : store) (note_id : Z)
    (emoji author now1 now2 : string) :
  is_Some (fetch_by_id (notes s) note_id) →
  uniq_rx s →
  let s1 := react s note_id emoji author now1 in
  let s2 := react s1 note_id emoji author now2 in
  uniq_rx s1 ∧ uniq_rx s2
  ∧ (¬ has_reaction s note_id emoji author →
     fetch_by_id (reactions s) (next_rowid (reactions s)) = None
     ∧ rows (reactions s1)
       = <[next_rowid (reactions s)
           := mkreaction note_id emoji (Some author) now1]>
           (rows (reactions s))
     ∧ has_reaction s1 note_id emoji author
     ∧ rows (reactions s2) = rows (reactions s))
  ∧ (has_reaction s note_id emoji author →
     ¬ has_reaction s1 note_id emoji author
     ∧ (∀ k r, fetch_by_id (reactions s1) k = Some r ↔
               fetch_by_id (reactions s) k = Some r
               ∧ rx_matches note_id emoji author k r = false)
     ∧ has_reaction s2 note_id emoji author)
  ∧ (∀ t, has_triple s2 t ↔ has_triple s t).
Proof.
  intros Hn Hu s1 s2.
  assert (Hn1 : is_Some (fetch_by_id (notes s1) note_id)).
  { subst s1. unfold react, insert_reaction.
    repeat (case_match; try done); simplify_eq; done. }
  assert (Hu1 : uniq_rx s1) by (by apply uniq_rx_react).
  assert (Hu2 : uniq_rx s2) by (by apply uniq_rx_react).
  split; [done|split; [done|]].
  destruct (has_reaction_dec s note_id emoji author) as [Ha|Ha].
  - (* present, absent, present *)
    assert (E1 : s1 = with_reactions s
              (delete_where (rx_matches note_id emoji author) (reactions s)))
      by (by apply react_present).
    assert (Ha1 : ¬ has_reaction s1 note_id emoji author)
      by (rewrite E1; apply deleted_absent).
    assert (E2 : s2 = with_reactions s1
              (insert_row (mkreaction note_id emoji (Some author) now2)
                 (reactions s1)))
      by (by apply react_absent).
    assert (Ha2 : has_reaction s2 note_id emoji author)
      by (rewrite E2; apply inserted_present).
    split; [done|]. split.
    + intros _. split; [done|]. split; [|done].
      intros k r. rewrite E1. unfold fetch_by_id; cbn [reactions with_reactions].
      apply lookup_delete_where_Some.
    + intros t. split.
      * intros (k & r & Hk & Ht). rewrite E2 in Hk.
        unfold fetch_by_id in Hk; cbn [reactions with_reactions] in Hk.
        rewrite lookup_insert_row in Hk. case_decide.
        -- inversion Hk; subst r. simpl in Ht. subst t. exact Ha.
        -- rewrite E1 in Hk. cbn [reactions with_reactions] in Hk.
           apply lookup_delete_where_Some in Hk as [Hk _]. by exists k, r.
      * intros (k & r & Hk & Ht).
        destruct (rx_matches note_id emoji author k r) eqn:Em.
        -- apply rx_matches_spec in Em. rewrite Em in Ht. subst t. exact Ha2.
        -- assert (Hk1 : fetch_by_id (reactions s1) k = Some r).
           { rewrite E1. unfold fetch_by_id; cbn [reactions with_reactions].
             by apply lookup_delete_where_Some. }
           exists k, r. split; [|done]. rewrite E2.
           unfold fetch_by_id; cbn [reactions with_reactions].
           rewrite lookup_insert_row. case_decide as Ek; [|done].
           subst k. unfold fetch_by_id in Hk1.
           by rewrite next_rowid_fresh in Hk1.
  - (* absent, present, absent *)
    assert (E1 : s1 = with_reactions s
              (insert_row (mkreaction note_id emoji (Some author) now1)
                 (reactions s)))
      by (by apply react_absent).
    assert (Ha1 : has_reaction s1 note_id emoji author)
      by (rewrite E1; apply inserted_present).
    assert (E2 : s2 = with_reactions s1
              (delete_where (rx_matches note_id emoji author) (reactions s1)))
      by (by apply react_present).
    assert (Hrows : rows (reactions s2) = rows (reactions s)).
    { rewrite E2, E1. cbn [reactions with_reactions].
      apply map_eq. intros k. rewrite lookup_delete_where, lookup_insert_row.
      case_decide as Ek.
      - subst k. rewrite next_rowid_fresh.
        assert (rx_matches note_id emoji author (next_rowid (reactions s))
                  (mkreaction note_id emoji (Some author) now1) = true) as ->
          by (by apply rx_matches_spec).
        done.
      - destruct (rows (reactions s) !! k) as [r|] eqn:Hk; [|done].
        destruct (rx_matches note_id emoji author k r) eqn:Em; [|done].
        exfalso. apply Ha. exists k, r. split; [done|].
        by apply rx_matches_spec in Em. }
    split; [|split; [done|]].
    + intros _. split; [apply next_rowid_fresh|]. split; [by rewrite E1|].
      done.
    + intros t. unfold has_triple, fetch_by_id. by rewrite Hrows.
Qed.

End Reactions.

(** * Note ordering *)

Module NoteOrder.
Import SqlFacts Corkboard.

#[local] Instance note_order_trans : Transitive note_order.
Proof. unfold note_order. intros a b c ? ?. lia. Qed.

#[local] Instance note_order_total : Total note_order.
Proof. unfold note_order. intros a b. lia. Qed.

Lemma sql_max_spec l :
  match sql_max l with
  | None => l = []
  | Some m => m ∈ l ∧ ∀ x, x ∈ l → x ≤ m
  end.
Proof.
  induction l as [|x l IH]; simpl; [done|].
  destruct (sql_max l) as [m|].
  - destruct IH as [Hin Hmax]. split.
    + destruct (Z.max_spec x m) as [[_ ->]|[_ ->]]; [by right|by left].
    + intros y [->|Hy]%elem_of_cons; [lia|]. specialize (Hmax y Hy). lia.
  - subst l. split; [by left|]. intros y [->|Hy]%elem_of_cons; [lia|].
    by apply elem_of_nil in Hy.
Qed.

(** [next_ord] is 1 on a family without alive notes and otherwise one
    more than the largest [order_index] among its alive notes. *)
Lemma next_ord_spec s FAMILY :
  ((∀ k n, fetch_by_id (notes s) k = Some n → alive_in FAMILY k n = false)
   ∧ next_ord s FAMILY = 1)
  ∨ (∃ k n, fetch_by_id (notes s) k = Some n ∧ alive_in FAMILY k n = true
            ∧ next_ord s FAMILY = 1 + n_order_index n
            ∧ ∀ k' n', fetch_by_id (notes s) k' = Some n' →
                       alive_in FAMILY k' n' = true →
                       n_order_index n' ≤ n_order_index n).
Proof.
  unfold next_ord, fetch_by_id.
  pose proof (sql_max_spec
    (map (λ kr, n_order_index kr.2) (select_where (alive_in FAMILY) (notes s))))
    as Hm.
  destruct (sql_max _) as [m|].
  - right. destruct Hm as [Hin Hmax].
    apply list_elem_of_fmap in Hin as ([k n] & -> & Hin).
    exists k, n. apply elem_of_select_where in Hin as [Hk Ha].
    split; [done|split; [done|split]].
    + simpl. unfold or_zero. destruct (Z.eqb_spec (n_order_index n) 0); lia.
    + intros k' n' Hk' Ha'. apply Hmax.
      apply list_elem_of_fmap. exists (k', n'). split; [done|].
      by apply elem_of_select_where.
  - left. split; [|done]. apply fmap_nil_inv in Hm.
    intros k n Hk. destruct (alive_in FAMILY k n) eqn:E; [|done].
    assert ((k, n) ∈ select_where (alive_in FAMILY) (notes s)) as Hin
      by (by apply elem_of_select_where).
    rewrite Hm in Hin. by apply elem_of_nil in Hin.
Qed.

Lemma notes_listing_sorted s FAMILY fs fa ft page :
  StronglySorted note_order (notes_listing s FAMILY fs fa ft page).
Proof.
  unfold notes_listing, limit_offset.
  set (l := merge_sort note_order _).
  assert (Hl : StronglySorted note_order l)
    by apply (StronglySorted_merge_sort note_order).
  clearbody l.
  set (k := (page * PAGE_SIZE)%nat). clearbody k.
  rewrite <- (take_drop k l) in Hl. apply StronglySorted_app_1_r in Hl.
  rewrite <- (take_drop PAGE_SIZE (drop k l)) in Hl.
  by apply StronglySorted_app_1_l in Hl.
Qed.

Lemma fetch_add_note s FAMILY f k :
  fetch_by_id (notes (add_note s FAMILY f)) k
  = if decide (k = next_rowid (notes s))
    then Some (new_note FAMILY f (next_ord s FAMILY))
    else fetch_by_id (notes s) k.
Proof.
  unfold fetch_by_id, add_note, with_notes; cbn [notes].
  apply lookup_insert_row.
Qed.

Lemma next_rowid_add_note s FAMILY f :
  next_rowid (notes (add_note s FAMILY f)) = next_rowid (notes s) + 1.
Proof.
  unfold add_note, with_notes; cbn [notes]. apply next_rowid_insert_row.
Qed.

Lemma new_note_alive FAMILY f ord k :
  alive_in FAMILY k (new_note FAMILY f ord) = true.
Proof. unfold alive_in; simpl. by rewrite String.eqb_refl. Qed.

(** After Add Note the new row tops the family: the next number is one
    more than the one just given out. *)
Lemma next_ord_add_note s FAMILY f :
  next_ord (add_note s FAMILY f) FAMILY = next_ord s FAMILY + 1.
Proof.
  destruct (next_ord_spec (add_note s FAMILY f) FAMILY)
    as [[Hnone _]|(k & n & Hk & Ha & -> & Hmax)].
  - specialize (Hnone (next_rowid (notes s))
                  (new_note FAMILY f (next_ord s FAMILY))).
    rewrite fetch_add_note, new_note_alive in Hnone.
    case_decide; [|done]. by specialize (Hnone eq_refl).
  - pose proof (Hmax (next_rowid (notes s))
                  (new_note FAMILY f (next_ord s FAMILY))) as Hnew.
    rewrite fetch_add_note in Hnew. case_decide; [|done].
    specialize (Hnew eq_refl (new_note_alive _ _ _ _)). simpl in Hnew.
    rewrite fetch_add_note in Hk. case_decide.
    + inversion Hk; subst n. simpl. lia.
    + destruct (next_ord_spec s FAMILY)
        as [[Hnone _]|(k0 & n0 & Hk0 & Ha0 & E0 & Hmax0)].
      * rewrite (Hnone _ _ Hk) in Ha. discriminate.
      * specialize (Hmax0 _ _ Hk Ha). lia.
Qed.


End NoteOrder.

(** * Chat freshness *)

Module ChatFacts.
Import SqlFacts Chat.

#[local] Instance id_desc_trans {A} : Transitive (@id_desc A).
Proof. unfold id_desc. intros a b c ? ?. lia. Qed.

#[local] Instance id_desc_total {A} : Total (@id_desc A).
Proof. unfold id_desc. intros a b. lia. Qed.

#[local] Instance older_trans {A} : Transitive (@older A).
Proof. unfold older. intros a b c ? ?. lia. Qed.

Lemma NoDup_fst_select_where {A} (p : Z → A → bool) (t : table A) :
  NoDup (select_where p t).*1.
Proof.
  unfold select_where.
  eapply sublist_NoDup; [apply (NoDup_fst_map_to_list (rows t))|].
  apply fmap_sublist, sublist_filter.
Qed.

Lemma desc_strict {A} (l : list (Z * A)) :
  StronglySorted id_desc l → NoDup l.*1 → StronglySorted newer l.
Proof.
  induction 1 as [|x l Hl IH Hx]; intros Hnd; [constructor|].
  rewrite fmap_cons in Hnd. apply NoDup_cons in Hnd as [Hnin Hnd].
  constructor; [by apply IH|].
  rewrite Forall_forall in Hx |- *. intros y Hy.
  specialize (Hx y Hy). unfold id_desc, newer in *.
  assert (y.1 ≠ x.1); [|lia].
  intros E. apply Hnin. rewrite <- E. apply list_elem_of_fmap. by exists y.
Qed.

Lemma chat_window_eq s FAMILY room :
  chat_window s FAMILY room = reverse (take LAST_N (room_desc s FAMILY room)).
Proof. reflexivity. Qed.

Lemma elem_of_room_desc s FAMILY room k m :
  (k, m) ∈ room_desc s FAMILY room ↔
  fetch_by_id (chat_messages s) k = Some m
  ∧ m_family m = FAMILY ∧ m_room m = room.
Proof.
  unfold room_desc. rewrite elem_of_order_by_id_desc, elem_of_select_where,
    andb_true_iff, !String.eqb_eq. done.
Qed.

Lemma room_desc_sorted s FAMILY room :
  StronglySorted newer (room_desc s FAMILY room).
Proof.
  unfold room_desc, order_by_id_desc. apply desc_strict.
  - apply (StronglySorted_merge_sort id_desc).
  - rewrite merge_sort_Permutation. apply NoDup_fst_select_where.
Qed.

Lemma room_desc_NoDup s FAMILY room : NoDup (room_desc s FAMILY room).
Proof.
  unfold room_desc, order_by_id_desc. rewrite merge_sort_Permutation.
  apply NoDup_select_where.
Qed.

Lemma elem_of_chat_window_desc s FAMILY room x :
  x ∈ chat_window s FAMILY room → x ∈ room_desc s FAMILY room.
Proof.
  rewrite chat_window_eq, elem_of_reverse. intros (i & H & _)%elem_of_take.
  by eapply list_elem_of_lookup_2.
Qed.

Lemma chat_window_sorted s FAMILY room :
  StronglySorted older (chat_window s FAMILY room).
Proof.
  rewrite chat_window_eq.
  pose proof (room_desc_sorted s FAMILY room) as Hs.
  rewrite <- (take_drop LAST_N (room_desc s FAMILY room)) in Hs.
  apply StronglySorted_app_1_l in Hs.
  apply Sorted_StronglySorted; [apply _|].
  apply StronglySorted_Sorted, Sorted_reverse in Hs.
  exact Hs.
Qed.

(** The last loaded message is the newest row of the room. *)
Lemma last_id_head s FAMILY room :
  last_id (chat_window s FAMILY room)
  = match head (room_desc s FAMILY room) with
    | Some m => m.1
    | None => 0
    end.
Proof.
  unfold last_id. rewrite chat_window_eq, last_reverse.
  by destruct (room_desc s FAMILY room).
Qed.

Lemma last_id_max s FAMILY room x :
  x ∈ room_desc s FAMILY room → x.1 ≤ last_id (chat_window s FAMILY room).
Proof.
  rewrite last_id_head. pose proof (room_desc_sorted s FAMILY room) as Hs.
  destruct (room_desc s FAMILY room) as [|h l]; [by intros ?%elem_of_nil|].
  simpl. intros [->|Hx]%elem_of_cons; [lia|].
  apply StronglySorted_inv in Hs as [_ Hall].
  rewrite Forall_forall in Hall. specialize (Hall x Hx). unfold newer in Hall.
  lia.
Qed.

(** Messages the window leaves out are older than all it shows, and
    then the window is full. *)
Lemma chat_window_newest s FAMILY room x y :
  x ∈ room_desc s FAMILY room → x ∉ chat_window s FAMILY room →
  List.length (chat_window s FAMILY room) = LAST_N
  ∧ (y ∈ chat_window s FAMILY room → x.1 < y.1).
Proof.
  rewrite chat_window_eq, !elem_of_reverse, length_reverse.
  pose proof (room_desc_sorted s FAMILY room) as Hs.
  rewrite <- (take_drop LAST_N (room_desc s FAMILY room)) in Hs |- * at 1.
  intros Hx Hnx. apply elem_of_app in Hx as [Hx|Hx]; [done|].
  split.
  - apply length_take_le.
    destruct (decide (List.length (room_desc s FAMILY room) ≤ LAST_N)%nat)
      as [Hle|Hgt]; [|lia].
    rewrite (drop_ge _ _ Hle) in Hx. by apply elem_of_nil in Hx.
  - intros Hy. by apply (StronglySorted_app_1_elem_of _ _ _ _ _ Hs).
Qed.

Lemma new_from_others_nil msgs seen viewer :
  (∀ x, x ∈ msgs → x.1 ≤ seen) → new_from_others msgs seen viewer = [].
Proof.
  intros Hall. unfold new_from_others.
  induction msgs as [|x l IH]; [done|].
  rewrite filter_cons. case_decide as Hx.
  - specialize (Hall x ltac:(left)). lia.
  - apply IH. intros y Hy. apply Hall. by right.
Qed.

Lemma NoDup_all_equal {A} (l : list A) a :
  NoDup l → a ∈ l → (∀ x, x ∈ l → x = a) → l = [a].
Proof.
  intros Hnd Ha Hall. destruct l as [|x l]; [by apply elem_of_nil in Ha|].
  assert (x = a) as -> by (apply Hall; left).
  destruct l as [|y l]; [done|].
  assert (y = a) as -> by (apply Hall; right; left).
  apply NoDup_cons in Hnd as [Hnin _]. exfalso. apply Hnin. left.
Qed.

Lemma chat_window_NoDup s FAMILY room : NoDup (chat_window s FAMILY room).
Proof.
  rewrite chat_window_eq, reverse_Permutation.
  eapply sublist_NoDup; [apply room_desc_NoDup|apply sublist_take].
Qed.


End ChatFacts.

(** * Facts about dates *)

Module DateFacts.
Import PyDate.

Lemma dby_lin a b c e :
  0 <= a -> 0 <= b <= 3 -> 0 <= c <= 24 -> 0 <= e <= 3 ->
  days_before_year (400 * a + 100 * b + 4 * c + e + 1)
  = 146097 * a + 36524 * b + 1461 * c + 365 * e.
Proof.
  intros. unfold days_before_year. cbv zeta.
  Z.div_mod_to_equations. lia.
Qed.

Lemma leap_lin a b c e :
  0 <= a -> 0 <= b <= 3 -> 0 <= c <= 24 -> 0 <= e <= 3 ->
  is_leap (400 * a + 100 * b + 4 * c + e + 1)
  = (e =? 3) && (negb (c =? 24) || (b =? 3)).
Proof.
  intros. unfold is_leap.
  repeat match goal with |- context [?x =? ?y] => destruct (Z.eqb_spec x y) end;
    simpl; try reflexivity; exfalso; Z.div_mod_to_equations; lia.
Qed.

Lemma forallb_upto (P : Z -> bool) (k : nat) :
  forallb P (map Z.of_nat (List.seq 0 k)) = true ->
  forall n, 0 <= n < Z.of_nat k -> P n = true.
Proof.
  intros H n Hn. rewrite forallb_forall in H. apply H.
  apply in_map_iff. exists (Z.to_nat n). split; [lia|].
  apply List.in_seq. lia.
Qed.

Lemma month_day_spec leapyear n :
  0 <= n < 365 -> month_day_ok leapyear n = true.
Proof.
  intros Hn. destruct leapyear.
  - apply (forallb_upto (month_day_ok true) 365); [vm_compute; reflexivity | lia].
  - apply (forallb_upto (month_day_ok false) 365); [vm_compute; reflexivity | lia].
Qed.

Lemma ord2ymd_eq n :
  ord2ymd n =
    let n0 := n - 1 in
    let a := n0 / 146097 in let r1 := n0 mod 146097 in
    let b := r1 / 36524 in let r2 := r1 mod 36524 in
    let c := r2 / 1461 in let r3 := r2 mod 1461 in
    let e := r3 / 365 in let r4 := r3 mod 365 in
    let y := a * 400 + 1 + b * 100 + c * 4 + e in
    if (e =? 4) || (b =? 4) then mkdate (y - 1) 12 31
    else
      let md := month_day ((e =? 3) && (negb (c =? 24) || (b =? 3))) r4 in
      mkdate y md.1 md.2.
Proof.
  unfold ord2ymd, month_day, DI400Y, DI100Y, DI4Y. cbv zeta.
  destruct (_ || _); [reflexivity|].
  destruct (_ <? _); reflexivity.
Qed.

Lemma toordinal_ord2ymd n :
  1 <= n <= MAXORDINAL ->
  valid (ord2ymd n) = true /\ toordinal (ord2ymd n) = n.
Proof.
  unfold MAXORDINAL. intros Hn. rewrite ord2ymd_eq. cbv zeta.
  set (n0 := n - 1).
  pose proof (Z.div_mod n0 146097 ltac:(lia)) as E1.
  pose proof (Z.mod_pos_bound n0 146097 ltac:(lia)) as B1.
  set (a := n0 / 146097) in *. set (r1 := n0 mod 146097) in *.
  pose proof (Z.div_mod r1 36524 ltac:(lia)) as E2.
  pose proof (Z.mod_pos_bound r1 36524 ltac:(lia)) as B2.
  set (b := r1 / 36524) in *. set (r2 := r1 mod 36524) in *.
  pose proof (Z.div_mod r2 1461 ltac:(lia)) as E3.
  pose proof (Z.mod_pos_bound r2 1461 ltac:(lia)) as B3.
  set (c := r2 / 1461) in *. set (r3 := r2 mod 1461) in *.
  pose proof (Z.div_mod r3 365 ltac:(lia)) as E4.
  pose proof (Z.mod_pos_bound r3 365 ltac:(lia)) as B4.
  set (e := r3 / 365) in *. set (r4 := r3 mod 365) in *.
  clearbody a r1 b r2 c r3 e r4.
  assert (0 <= a) by lia. assert (0 <= b <= 4) by lia.
  assert (0 <= c <= 24) by lia. assert (0 <= e <= 4) by lia.
  destruct (Z.eqb_spec e 4) as [He|He]; [|destruct (Z.eqb_spec b 4) as [Hb|Hb]]; simpl orb; cbv iota.
  - (* last day of the fourth year of a four-year cycle *)
    assert (c <= 23 /\ b <= 3 /\ r4 = 0) as (Hc & Hb & Hr) by lia.
    replace (a * 400 + 1 + b * 100 + c * 4 + e - 1) with (400 * a + 100 * b + 4 * c + 3 + 1) by lia.
    unfold valid, toordinal, ymd2ord, days_in_month, days_before_month; simpl year; simpl month; simpl day.
    rewrite dby_lin, leap_lin by lia.
    destruct (Z.eqb_spec c 24); [lia|]. simpl.
    split; [|lia].
    unfold MINYEAR, MAXYEAR. rewrite !andb_true_iff. repeat split; apply Z.leb_le; lia.
  - (* last day of a 400-year cycle *)
    assert (c = 0 /\ e = 0 /\ r4 = 0) as (Hc & He' & Hr) by lia.
    replace (a * 400 + 1 + b * 100 + c * 4 + e - 1) with (400 * a + 100 * 3 + 4 * 24 + 3 + 1) by lia.
    unfold valid, toordinal, ymd2ord, days_in_month, days_before_month; simpl year; simpl month; simpl day.
    rewrite dby_lin, leap_lin by lia. simpl.
    split; [|lia].
    unfold MINYEAR, MAXYEAR. rewrite !andb_true_iff. repeat split; apply Z.leb_le; lia.
  - assert (b <= 3 /\ e <= 3) as (Hb' & He') by lia.
    replace (a * 400 + 1 + b * 100 + c * 4 + e) with (400 * a + 100 * b + 4 * c + e + 1) by lia.
    set (L := (e =? 3) && (negb (c =? 24) || (b =? 3))).
    pose proof (month_day_spec L r4 ltac:(lia)) as Hmd.
    unfold month_day_ok in Hmd. destruct (month_day L r4) as [m d].
    rewrite !andb_true_iff in Hmd. destruct Hmd as ((((M1 & M2) & D1) & D2) & EQ).
    apply Z.leb_le in M1, M2, D1, D2. apply Z.eqb_eq in EQ.
    unfold valid, toordinal, ymd2ord, days_in_month, days_before_month; simpl year; simpl month; simpl day.
    rewrite dby_lin, leap_lin by lia. fold L.
    split; [|lia].
    unfold MINYEAR, MAXYEAR. rewrite !andb_true_iff. repeat split; try (apply Z.leb_le; lia).
    apply Z.leb_le. destruct ((m =? 2) && L) eqn:E; [|lia].
    apply andb_true_iff in E as [E _]. apply Z.eqb_eq in E. subst m. simpl in D2. lia.
Qed.

Lemma dby_succ y :
  days_before_year (y + 1) = days_before_year y + 365 + leap_day y.
Proof.
  unfold days_before_year, leap_day, is_leap. cbv zeta.
  replace (y + 1 - 1) with y by lia.
  repeat match goal with |- context [?x =? ?z] => destruct (Z.eqb_spec x z) end;
    simpl; Z.div_mod_to_equations; lia.
Qed.

Lemma dby_mono y1 y2 : y1 <= y2 -> days_before_year y1 <= days_before_year y2.
Proof.
  unfold days_before_year. cbv zeta. intros. Z.div_mod_to_equations. lia.
Qed.

Lemma leap_day_range y : 0 <= leap_day y <= 1.
Proof. unfold leap_day. destruct (is_leap y); lia. Qed.

Lemma month_cases m : 1 <= m <= 12 ->
  m = 1 \/ m = 2 \/ m = 3 \/ m = 4 \/ m = 5 \/ m = 6 \/
  m = 7 \/ m = 8 \/ m = 9 \/ m = 10 \/ m = 11 \/ m = 12.
Proof. lia. Qed.

Lemma valid_inv d : valid d = true ->
  1 <= year d <= 9999 /\ 1 <= month d <= 12 /\
  1 <= day d <= days_in_month (year d) (month d).
Proof.
  unfold valid, MINYEAR, MAXYEAR. rewrite !andb_true_iff, !Z.leb_le. lia.
Qed.

Lemma yday_range y m d :
  1 <= m <= 12 -> 1 <= d <= days_in_month y m ->
  1 <= days_before_month y m + d <= 365 + leap_day y.
Proof.
  intros Hm Hd. unfold days_before_month, days_in_month, leap_day in *.
  destruct (is_leap y);
    destruct (month_cases m Hm) as [->|[->|[->|[->|[->|[->|[->|[->|[->|[->|[->| ->]]]]]]]]]]];
    simpl in *; lia.
Qed.

Lemma yday_month_lt y m1 d1 m2 d2 :
  1 <= m1 -> m1 < m2 -> m2 <= 12 ->
  d1 <= days_in_month y m1 -> 1 <= d2 ->
  days_before_month y m1 + d1 < days_before_month y m2 + d2.
Proof.
  intros H1 H2 H3 Hd1 Hd2. unfold days_before_month, days_in_month in *.
  assert (Hm1 : 1 <= m1 <= 12) by lia. assert (Hm2 : 1 <= m2 <= 12) by lia.
  destruct (is_leap y);
    destruct (month_cases m1 Hm1) as [->|[->|[->|[->|[->|[->|[->|[->|[->|[->|[->| ->]]]]]]]]]]];
    destruct (month_cases m2 Hm2) as [->|[->|[->|[->|[->|[->|[->|[->|[->|[->|[->| ->]]]]]]]]]]];
    simpl in *; lia.
Qed.

Lemma toordinal_lt_year a b :
  valid a = true -> valid b = true -> year a < year b -> toordinal a < toordinal b.
Proof.
  intros Va Vb Hy. apply valid_inv in Va as (_ & Ma & Da), Vb as (_ & Mb & Db).
  unfold toordinal, ymd2ord.
  pose proof (yday_range _ _ _ Ma Da). pose proof (yday_range _ _ _ Mb Db).
  pose proof (dby_succ (year a)). pose proof (dby_mono (year a + 1) (year b) ltac:(lia)).
  lia.
Qed.

Lemma toordinal_lt_month a b :
  valid a = true -> valid b = true -> year a = year b -> month a < month b ->
  toordinal a < toordinal b.
Proof.
  intros Va Vb Hy Hm. apply valid_inv in Va as (_ & Ma & Da), Vb as (_ & Mb & Db).
  unfold toordinal, ymd2ord. rewrite Hy in *.
  pose proof (yday_month_lt (year b) (month a) (day a) (month b) (day b)). lia.
Qed.

Lemma leb_toordinal a b :
  valid a = true -> valid b = true ->
  leb a b = true <-> toordinal a <= toordinal b.
Proof.
  intros Va Vb. unfold leb.
  rewrite orb_true_iff, andb_true_iff, orb_true_iff, andb_true_iff,
    !Z.ltb_lt, !Z.eqb_eq, Z.leb_le.
  destruct (Z.lt_trichotomy (year a) (year b)) as [Hy|[Hy|Hy]].
  - pose proof (toordinal_lt_year a b Va Vb Hy). lia.
  - destruct (Z.lt_trichotomy (month a) (month b)) as [Hm|[Hm|Hm]].
    + pose proof (toordinal_lt_month a b Va Vb Hy Hm). lia.
    + unfold toordinal, ymd2ord. rewrite Hy, Hm. lia.
    + pose proof (toordinal_lt_month b a Vb Va (eq_sym Hy) Hm). lia.
  - pose proof (toordinal_lt_year b a Vb Va Hy). lia.
Qed.

Lemma toordinal_inj a b :
  valid a = true -> valid b = true -> toordinal a = toordinal b -> a = b.
Proof.
  intros Va Vb E.
  destruct (Z.lt_trichotomy (year a) (year b)) as [Hy|[Hy|Hy]].
  - pose proof (toordinal_lt_year a b Va Vb Hy). lia.
  - destruct (Z.lt_trichotomy (month a) (month b)) as [Hm|[Hm|Hm]].
    + pose proof (toordinal_lt_month a b Va Vb Hy Hm). lia.
    + unfold toordinal, ymd2ord in E. rewrite Hy, Hm in E.
      destruct a, b; simpl in *. f_equal; lia.
    + pose proof (toordinal_lt_month b a Vb Va (eq_sym Hy) Hm). lia.
  - pose proof (toordinal_lt_year b a Vb Va Hy). lia.
Qed.

Lemma toordinal_range d : valid d = true -> 1 <= toordinal d <= MAXORDINAL.
Proof.
  intros V. apply valid_inv in V as (Y & M & D).
  pose proof (yday_range _ _ _ M D).
  pose proof (dby_succ (year d)).
  pose proof (dby_mono 1 (year d) ltac:(lia)).
  pose proof (dby_mono (year d + 1) 10000 ltac:(lia)).
  change (days_before_year 1) with 0 in *.
  change (days_before_year 10000) with 3652059 in *.
  unfold toordinal, ymd2ord, MAXORDINAL. lia.
Qed.

End DateFacts.

(** * Facts about [isoformat] and [fromisoformat] *)

Module IsoFacts.
Import PyDate PyDateTime DateFacts.

Lemma ord2ymd_toordinal d : valid d = true → ord2ymd (toordinal d) = d.
Proof.
  intros V. pose proof (toordinal_range d V) as R.
  destruct (toordinal_ord2ymd (toordinal d) R) as [V' E].
  by apply toordinal_inj.
Qed.

Lemma fromordinal_toordinal d : valid d = true → fromordinal (toordinal d) = Some d.
Proof.
  intros V. pose proof (toordinal_range d V) as R. unfold fromordinal.
  destruct (Z.leb_spec 1 (toordinal d)); [|lia].
  destruct (Z.leb_spec (toordinal d) MAXORDINAL); [|lia].
  simpl. by rewrite ord2ymd_toordinal.
Qed.

Lemma fromordinal_Some n d :
  fromordinal n = Some d →
  1 <= n <= MAXORDINAL ∧ valid d = true ∧ toordinal d = n.
Proof.
  unfold fromordinal.
  destruct (Z.leb_spec 1 n); [|discriminate].
  destruct (Z.leb_spec n MAXORDINAL); [|discriminate].
  simpl. intros [= <-].
  destruct (toordinal_ord2ymd n ltac:(lia)). auto.
Qed.

Lemma add_days_Some d k d' :
  add_days d k = Some d' → valid d' = true ∧ toordinal d' = toordinal d + k.
Proof. unfold add_days. intros H%fromordinal_Some. tauto. Qed.

Lemma add_days_in_range d k :
  1 <= toordinal d + k <= MAXORDINAL → is_Some (add_days d k).
Proof.
  intros R. unfold add_days, fromordinal.
  destruct (Z.leb_spec 1 (toordinal d + k)); [|lia].
  destruct (Z.leb_spec (toordinal d + k) MAXORDINAL); [|lia].
  simpl. eauto.
Qed.

(** Stepping forth and back returns to the same date. *)
Lemma add_days_back d k d' :
  valid d = true → add_days d k = Some d' → add_days d' (- k) = Some d.
Proof.
  intros V H. apply add_days_Some in H as [V' E].
  unfold add_days. rewrite E.
  replace (toordinal d + k + - k) with (toordinal d) by lia.
  by apply fromordinal_toordinal.
Qed.

Lemma char_digit_digit_char n :
  0 <= n <= 9 → char_digit (digit_char n) = Some n.
Proof.
  intros H.
  assert (n = 0 ∨ n = 1 ∨ n = 2 ∨ n = 3 ∨ n = 4 ∨ n = 5 ∨ n = 6 ∨ n = 7
          ∨ n = 8 ∨ n = 9) as Hc by lia.
  repeat destruct Hc as [->|Hc]; try subst n; reflexivity.
Qed.

Lemma digits2_pad2 n r :
  0 <= n < 100 → digits2 (pad2 n +:+ r) = Some (n, r).
Proof.
  intros H. unfold pad2. simpl.
  rewrite !char_digit_digit_char by (Z.div_mod_to_equations; lia).
  simpl. do 2 f_equal. Z.div_mod_to_equations; lia.
Qed.

Lemma digits4_pad4 n r :
  0 <= n < 10000 → digits4 (pad4 n +:+ r) = Some (n, r).
Proof.
  intros H. unfold pad4, pad2, digits4. simpl.
  assert (E2 : n / 100 = n / 10 / 10) by (by rewrite Z.div_div by lia).
  assert (E3 : n / 1000 = n / 10 / 10 / 10) by (by rewrite !Z.div_div by lia).
  rewrite E2, E3. clear E2 E3.
  repeat (rewrite char_digit_digit_char by (Z.div_mod_to_equations; lia);
          simpl).
  do 2 f_equal. Z.div_mod_to_equations; lia.
Qed.

Lemma append_String x (a b : string) : String x a +:+ b = String x (a +:+ b).
Proof. reflexivity. Qed.

Lemma append_Empty (b : string) : "" +:+ b = b.
Proof. reflexivity. Qed.

Lemma app_assoc_str (a b c : string) : (a +:+ b) +:+ c = a +:+ (b +:+ c).
Proof.
  induction a as [|x a IH]; [done|]. by rewrite !append_String, IH.
Qed.

Lemma expect_char c r : expect c (String c "" +:+ r) = Some r.
Proof.
  rewrite append_String, append_Empty. simpl. by rewrite Ascii.eqb_refl.
Qed.

Lemma parse_date_isoformat d r :
  valid d = true → parse_date (date_isoformat d +:+ r) = Some (d, r).
Proof.
  intros V. pose proof (valid_inv d V) as (Y & M & D).
  assert (day d <= 31).
  { unfold days_in_month in D.
    destruct ((month d =? 2) && is_leap (year d)); [lia|].
    destruct (month_cases _ M) as [E|[E|[E|[E|[E|[E|[E|[E|[E|[E|[E|E]]]]]]]]]]];
      rewrite E in D; simpl in D; lia. }
  unfold parse_date, date_isoformat. rewrite !app_assoc_str.
  rewrite digits4_pad4 by lia. cbn [mbind option_bind].
  rewrite expect_char. cbn [mbind option_bind].
  rewrite digits2_pad2 by lia. cbn [mbind option_bind].
  rewrite expect_char. cbn [mbind option_bind].
  rewrite digits2_pad2 by lia. cbn [mbind option_bind].
  destruct d as [y m dd]; simpl in *. by rewrite V.
Qed.

Lemma valid_time_inv t : valid_time t = true →
  0 <= hour t < 24 ∧ 0 <= minute t < 60 ∧ 0 <= second t < 60.
Proof.
  unfold valid_time. rewrite !andb_true_iff, !Z.leb_le, !Z.ltb_lt. lia.
Qed.

Lemma parse_time_isoformat t r :
  valid_time t = true → parse_time (time_isoformat t +:+ r) = Some (t, r).
Proof.
  intros V. pose proof (valid_time_inv t V) as (H & M & S).
  unfold parse_time, time_isoformat. rewrite !app_assoc_str.
  rewrite digits2_pad2 by lia. cbn [mbind option_bind].
  rewrite expect_char. cbn [mbind option_bind].
  rewrite digits2_pad2 by lia. cbn [mbind option_bind].
  rewrite expect_char. cbn [mbind option_bind].
  rewrite digits2_pad2 by lia. cbn [mbind option_bind].
  destruct t as [h m s]; simpl in *. by rewrite V.
Qed.

Lemma parse_tz_isoformat tz :
  naive_or_utc tz → parse_tz (tz_isoformat tz) = Some tz.
Proof. intros [->| ->]; reflexivity. Qed.

(** What [isoformat] writes, [fromisoformat] reads back. *)
Lemma fromisoformat_isoformat dt :
  valid (dt_date dt) = true → valid_time (dt_time dt) = true →
  naive_or_utc (tzoffset dt) →
  fromisoformat (isoformat dt) = Some dt.
Proof.
  intros Vd Vt Vz. unfold fromisoformat, isoformat.
  rewrite parse_date_isoformat by done.
  cbn [mbind option_bind]. rewrite append_String, append_Empty.
  rewrite parse_time_isoformat by done. cbn [mbind option_bind].
  rewrite parse_tz_isoformat by done. cbn [mbind option_bind].
  by destruct dt.
Qed.

Lemma isoformat_nonempty dt : nonempty (isoformat dt) = true.
Proof. reflexivity. Qed.

End IsoFacts.

(** * All-day events *)

Module AllDay.
Import SqlFacts PyDate PyDateTime DateFacts IsoFacts Calendar Demo.

Lemma from_iso_isoformat dt :
  valid (dt_date dt) = true → valid_time (dt_time dt) = true →
  naive_or_utc (tzoffset dt) →
  from_iso (Some (isoformat dt)) = Some dt.
Proof.
  intros. unfold from_iso. rewrite isoformat_nonempty.
  by apply fromisoformat_isoformat.
Qed.

(** The Create and Manage forms round-trip an all-day event: the form
    stores the day after [ed] at midnight as [end_at], and the panel shows
    start date [sd] and end date [ed] again. *)
Lemma all_day_form_round_trip (now : datetime) (f : event_form)
    (s_iso e_iso : string) (FAMILY title : string) (assignees : option string) :
  valid (f_sd f) = true → valid (f_ed f) = true → f_all_day f = true →
  form_isos f = Some (s_iso, e_iso) →
  (∃ next, add_days (f_ed f) 1 = Some next
           ∧ e_iso = isoformat (combine next midnight))
  ∧ edit_form_dates now (mkevent title s_iso (Some e_iso) assignees FAMILY 1)
    = Some (f_sd f, f_ed f, true).
Proof.
  intros Vs Ve Ha Hf. unfold form_isos in Hf. rewrite Ha in Hf.
  unfold to_exclusive_end in Hf.
  destruct (add_days (f_ed f) 1) as [next|] eqn:En; [|discriminate].
  simpl in Hf. inversion Hf; subst s_iso e_iso. clear Hf.
  split; [by exists next|].
  pose proof (add_days_Some _ _ _ En) as [Vn _].
  unfold edit_form_dates. cbn [e_start_at e_end_at e_all_day].
  rewrite !from_iso_isoformat by (done || by left).
  cbn [default Z.eqb negb]. unfold dt_add_days. cbn [dt_date combine].
  pose proof (add_days_back _ _ _ Ve En) as Hb.
  change (- (1)) with (-1) in Hb. rewrite Hb. reflexivity.
Qed.

(** The form writes whenever the title is not blank, the end is not before
    the start, and the day after the end still is a date. *)
Lemma all_day_form_writes (s : store) (FAMILY : string) (f : event_form) :
  valid (f_ed f) = true → f_all_day f = true →
  nonempty (strip (f_title f)) = true → ltb (f_ed f) (f_sd f) = false →
  toordinal (f_ed f) < MAXORDINAL →
  ∃ next,
    add_days (f_ed f) 1 = Some next
    ∧ create_event s FAMILY f
      = Some (with_events s
                (insert_row
                   (mkevent (strip (f_title f))
                      (isoformat (combine (f_sd f) midnight))
                      (Some (isoformat (combine next midnight)))
                      (Some (strip (f_assignees f))) FAMILY 1)
                   (events s))).
Proof.
  intros Ve Ha Ht Hl Hmax.
  pose proof (toordinal_range _ Ve).
  destruct (add_days_in_range (f_ed f) 1 ltac:(lia)) as [next En].
  exists next. split; [done|].
  unfold create_event, form_isos, to_exclusive_end.
  rewrite Ht, Hl, Ha, En. reflexivity.
Qed.

(** The promotion of a reminder writes the same instant as start and as
    end; for an all-day event the panel then shows the day before as its
    end date. *)
Lemma promoted_all_day_shows_previous_day (now : datetime) (d prev : date)
    (title FAMILY : string) (assignees : option string) :
  valid d = true → add_days d (-1) = Some prev →
  edit_form_dates now
    (mkevent title (default "" (iso_utc (Some d) None)) (iso_utc (Some d) None)
       assignees FAMILY 1)
  = Some (d, prev, true).
Proof.
  intros V Hp. unfold edit_form_dates, iso_utc.
  cbn [e_start_at e_end_at e_all_day default from_option id].
  rewrite !from_iso_isoformat by (done || by right).
  cbn [default Z.eqb negb]. unfold dt_add_days. cbn [dt_date combine_utc].
  rewrite Hp. reflexivity.
Qed.

(** C3, evaluated.  A reminder promoted as an all-day event for
    2024-03-10 is stored with [end_at] equal to [start_at], not with the
    day after at midnight, and the Manage events panel shows it as
    starting on 2024-03-10 and ending on 2024-03-09.  The same event made
    with the calendar form is stored with [end_at] 2024-03-11 at midnight
    and shows as ending on 2024-03-10. *)
Theorem promoted_all_day_event_loses_round_trip :
  let promoted :=
    promote_reminder board_with_reminder "A" 1 reminder1 march_10
      (mktime 9 0 0) (mktime 10 0 0) true in
  let form :=
    mkform "Take out trash" march_10 march_10 true (mktime 9 0 0)
      (mktime 10 0 0) "" in
  fetch_by_id (events promoted) 1
  = Some (mkevent "Take out trash" "2024-03-10T00:00:00+00:00"
            (Some "2024-03-10T00:00:00+00:00") (Some "") "A" 1)
  ∧ (edit_form_dates noon_now <$> fetch_by_id (events promoted) 1)
    = Some (Some (march_10, mkdate 2024 3 9, true))
  ∧ (λ s, fetch_by_id (events s) 1) <$> create_event board_with_reminder "A" form
    = Some (Some (mkevent "Take out trash" "2024-03-10T00:00:00"
                    (Some "2024-03-11T00:00:00") (Some "") "A" 1))
  ∧ edit_form_dates noon_now
      (mkevent "Take out trash" "2024-03-10T00:00:00"
         (Some "2024-03-11T00:00:00") (Some "") "A" 1)
    = Some (march_10, march_10, true).
Proof. repeat split; vm_compute; reflexivity. Qed.

End AllDay.

(** * Calendar windows *)

Module Windows.
Import SqlFacts PyDate PyDateTime DateFacts IsoFacts Calendar.

(** [contains] finds exactly the substrings. *)
Lemma prefix_of_spec p s :
  prefix_of p s = true ↔ ∃ post, s = p +:+ post.
Proof.
  revert s. induction p as [|a p IH]; intros s; simpl.
  - split; [intros _; by exists s|done].
  - destruct s as [|b s].
    + split; [done|]. intros [post E]. discriminate.
    + rewrite andb_true_iff, IH. split.
      * intros [Hab [post ->]]. apply Ascii.eqb_eq in Hab as ->.
        by exists post.
      * intros [post E]. rewrite append_String in E. inversion E; subst.
        split; [apply Ascii.eqb_refl|by exists post].
Qed.

Lemma contains_spec s p :
  contains s p = true ↔ ∃ pre post, s = pre +:+ p +:+ post.
Proof.
  induction s as [|c s IH]; simpl; rewrite orb_true_iff, prefix_of_spec.
  - split.
    + intros [[post E]|?]; [|done]. exists "", post. by rewrite append_Empty.
    + intros (pre & post & E). left. destruct pre; [|discriminate].
      rewrite append_Empty in E. by exists post.
  - rewrite IH. split.
    + intros [[post E]|(pre & post & E)].
      * exists "", post. by rewrite append_Empty.
      * exists (String c pre), post. by rewrite append_String, E.
    + intros (pre & post & E). destruct pre as [|c' pre].
      * left. rewrite append_Empty in E. by exists post.
      * right. rewrite append_String in E. inversion E; subst.
        by exists pre, post.
Qed.

Lemma lower_app a b : lower (a +:+ b) = lower a +:+ lower b.
Proof.
  induction a as [|c a IH]; [done|].
  rewrite append_String. simpl. by rewrite IH, append_String.
Qed.

Lemma lower_app_inv s a b :
  lower s = a +:+ b → ∃ s1 s2, s = s1 +:+ s2 ∧ lower s1 = a ∧ lower s2 = b.
Proof.
  revert s. induction a as [|c a IH]; intros s E.
  - exists "", s. by rewrite append_Empty in E.
  - rewrite append_String in E. destruct s as [|c' s]; [discriminate|].
    simpl in E. inversion E as [[Ec Es]].
    destruct (IH _ Es) as (s1 & s2 & -> & <- & <-).
    exists (String c' s1), s2. by rewrite append_String.
Qed.

Lemma lower_idemp s : lower (lower s) = lower s.
Proof.
  induction s as [|c s IH]; [done|]. simpl. rewrite IH. f_equal.
  generalize c. clear. intros c.
  assert (∀ c, lower_ascii (lower_ascii c) = lower_ascii c) as H; [|apply H].
  clear c. intros [[] [] [] [] [] [] [] []]; reflexivity.
Qed.

(** The test of the code is the case-insensitive substring test. *)
Lemma contains_lower_icontains hay needle :
  contains (lower hay) (lower needle) = true ↔ icontains hay needle.
Proof.
  rewrite contains_spec. unfold icontains. split.
  - intros (pre & post & E).
    apply lower_app_inv in E as (s1 & s23 & -> & E1 & E23).
    apply lower_app_inv in E23 as (s2 & s3 & -> & E2 & E3).
    by exists s1, s2, s3.
  - intros (pre & mid & post & -> & E).
    exists (lower pre), (lower post). by rewrite !lower_app, E.
Qed.

Lemma icontains_empty hay : icontains hay "".
Proof. exists "", "", hay. by rewrite !append_Empty. Qed.

Lemma leb_true a b :
  leb a b = true ↔
  year a < year b
  ∨ (year a = year b
     ∧ (month a < month b ∨ (month a = month b ∧ day a <= day b))).
Proof.
  unfold leb.
  rewrite orb_true_iff, andb_true_iff, orb_true_iff, andb_true_iff,
    !Z.ltb_lt, !Z.eqb_eq, Z.leb_le. done.
Qed.

(** The month window: day 1 through the last day of the reference month,
    which are exactly the dates of that month. *)
Lemma month_window ref :
  valid ref = true →
  let d0 := mkdate (year ref) (month ref) 1 in
  let d1 := mkdate (year ref) (month ref)
              (days_in_month (year ref) (month ref)) in
  calendar_window dayGridMonth ref = Some (d0, d1)
  ∧ calendar_window listMonth ref = Some (d0, d1)
  ∧ ∀ d, valid d = true →
      (leb d0 d = true ∧ leb d d1 = true
       ↔ year d = year ref ∧ month d = month ref).
Proof.
  intros V d0 d1. pose proof (valid_inv _ V) as (Y & M & D).
  assert (V0 : valid d0 = true).
  { unfold valid, d0, MINYEAR, MAXYEAR; simpl.
    rewrite !andb_true_iff, !Z.leb_le. lia. }
  assert (V1 : valid d1 = true).
  { unfold valid, d1, MINYEAR, MAXYEAR; simpl.
    rewrite !andb_true_iff, !Z.leb_le. lia. }
  assert (E : calendar_window dayGridMonth ref = Some (d0, d1)).
  { unfold calendar_window, replace_day, monthrange_ndays.
    unfold d0, d1 in *. cbn [year month] in *.
    rewrite V0. cbn [mbind option_bind year month]. by rewrite V1. }
  split; [done|split; [done|]].
  intros d Vd. pose proof (valid_inv _ Vd) as (Yd & Md & Dd).
  rewrite !leb_true. subst d0 d1; simpl. split.
  - intros [H0 H1]. lia.
  - intros [Ey Em]. rewrite Ey, Em in *. lia.
Qed.

Lemma weekday_range d : 0 <= weekday d <= 6.
Proof. unfold weekday. Z.div_mod_to_equations. lia. Qed.

(** The week window: the Monday on or before the reference date through
    the Sunday six days later, whenever that Sunday is still a date. *)
Lemma week_window ref :
  valid ref = true →
  toordinal ref - weekday ref + 6 <= MAXORDINAL →
  ∃ d0 d1,
    calendar_window timeGridWeek ref = Some (d0, d1)
    ∧ valid d0 = true ∧ valid d1 = true
    ∧ weekday d0 = 0 ∧ weekday d1 = 6
    ∧ toordinal d1 = toordinal d0 + 6
    ∧ leb d0 ref = true ∧ leb ref d1 = true.
Proof.
  intros V Hmax. pose proof (toordinal_range _ V) as R.
  pose proof (weekday_range ref) as W.
  assert (Hw : 1 <= toordinal ref - weekday ref).
  { unfold weekday in *. Z.div_mod_to_equations. lia. }
  destruct (add_days_in_range ref (- weekday ref) ltac:(lia)) as [d0 E0].
  pose proof (add_days_Some _ _ _ E0) as [V0 O0].
  destruct (add_days_in_range d0 6 ltac:(lia)) as [d1 E1].
  pose proof (add_days_Some _ _ _ E1) as [V1 O1].
  exists d0, d1. unfold calendar_window. rewrite E0. cbn [mbind option_bind].
  rewrite E1. cbn [mbind option_bind].
  split; [done|]. split; [done|]. split; [done|].
  split. { unfold weekday in *. rewrite O0. Z.div_mod_to_equations. lia. }
  split. { unfold weekday in *. rewrite O1, O0. Z.div_mod_to_equations. lia. }
  split; [done|].
  rewrite !leb_toordinal by done. lia.
Qed.

(** The test a row passes in [load_events_between]. *)
Lemma in_window_spec d0 d1 who e :
  in_window d0 d1 who e = true ↔
  ∃ sdt, from_iso (Some (e_start_at e)) = Some sdt
         ∧ leb d0 (dt_date sdt) = true ∧ leb (dt_date sdt) d1 = true
         ∧ icontains (or_str (e_assignees e) "") who.
Proof.
  unfold in_window.
  destruct (from_iso (Some (e_start_at e))) as [sdt|].
  - rewrite !andb_true_iff, negb_true_iff, andb_false_iff, negb_false_iff.
    rewrite contains_lower_icontains. unfold nonempty.
    rewrite negb_false_iff, String.eqb_eq. split.
    + intros [[H0 H1] [->|Hc]]; exists sdt;
        (split; [done|split; [done|split; [done|]]]);
        [apply icontains_empty|done].
    + intros (sdt' & [= <-] & H0 & H1 & Hc). auto.
  - split; [done|]. intros (sdt & [=] & _).
Qed.

Lemma load_events_between_spec s FAMILY d0 d1 who ce :
  ce ∈ load_events_between s FAMILY d0 d1 who ↔
  ∃ k e, fetch_by_id (events s) k = Some e ∧ e_family e = FAMILY
         ∧ in_window d0 d1 who e = true ∧ ce = to_cal_event (k, e).
Proof.
  unfold load_events_between. rewrite list_elem_of_fmap. split.
  - intros ([k e] & -> & Hin). apply list_elem_of_filter in Hin as [Hw Hin].
    rewrite merge_sort_Permutation in Hin.
    apply elem_of_select_where in Hin as [Hk Hf]. apply String.eqb_eq in Hf.
    by exists k, e.
  - intros (k & e & Hk & Hf & Hw & ->). exists (k, e). split; [done|].
    apply list_elem_of_filter. split; [done|].
    rewrite merge_sort_Permutation. apply elem_of_select_where.
    split; [done|]. by apply String.eqb_eq.
Qed.


End Windows.

(** * The theorems at work on the sample data *)

Module Examples.
Import SqlFacts PyDate PyDateTime Demo.

(** The soft-delete theorem on the database [family_A]. *)
Lemma soft_delete_on_family_A :
  fetch_by_id (notes (Corkboard.soft_delete_note family_A "A" 1 "now")) 1
  = Some (Corkboard.set_note_deleted_at (Some "now") note1)
  ∧ Corkboard.notes_listing (Corkboard.soft_delete_note family_A "A" 1 "now")
      "A" "" "" "" 0 = []
  ∧ fetch_by_id (lists (Lists.delete_list family_A 1 "now")) 1
    = Some (Lists.set_list_deleted_at (Some "now") list1)
  ∧ fetch_by_id (documents (Notepad.delete_doc family_A 1 "now")) 1
    = Some (Notepad.set_doc_deleted_at (Some "now") doc1).
Proof.
  destruct (SoftDelete.soft_delete_keeps_row_hides_it family_A 1 "now")
    as (Hn & Hl & Hd).
  destruct (Hn note1 eq_refl) as (Hn1 & _ & _).
  destruct (Hl list1 eq_refl) as (Hl1 & _ & _).
  destruct (Hd doc1 eq_refl) as (Hd1 & _ & _).
  split; [exact Hn1|]. split; [vm_compute; reflexivity|].
  split; [exact Hl1|exact Hd1].
Defined.

(** The reaction toggle on a note of [family_A]. *)
Lemma reaction_toggle_on_family_A :
  let s1 := Corkboard.react family_A 1 "+1" "bob" "t1" in
  let s2 := Corkboard.react s1 1 "+1" "bob" "t2" in
  Corkboard.uniq_rx s1
  ∧ Corkboard.has_reaction s1 1 "+1" "bob"
  ∧ rows (reactions s2) = rows (reactions family_A).
Proof.
  assert (Hn : is_Some (fetch_by_id (notes family_A) 1))
    by (exists note1; reflexivity).
  assert (Hu : Corkboard.uniq_rx family_A).
  { intros k1 k2 r1 r2 a H1. unfold fetch_by_id in H1. simpl in H1.
    rewrite lookup_empty in H1. discriminate. }
  assert (Ha : ¬ Corkboard.has_reaction family_A 1 "+1" "bob").
  { intros (k & r & Hk & _). unfold fetch_by_id in Hk. simpl in Hk.
    rewrite lookup_empty in Hk. discriminate. }
  destruct (Reactions.reaction_toggle_pairs family_A 1 "+1" "bob" "t1" "t2"
              Hn Hu) as (U1 & _ & Habs & _).
  destruct (Habs Ha) as (_ & _ & Hp & Hrows).
  split; [exact U1|]. split; [exact Hp|exact Hrows].
Defined.

(** Bob claims and buys the fresh item: the fields stay consistent. *)
Lemma claim_fields_after_claim_and_purchase :
  let bought :=
    Lists.wishlist_press "bob" list1 Lists.MarkPurchased
      (Lists.wishlist_press "bob" list1 Lists.Claim fresh_item) in
  Lists.reachable list1 fresh_item bought
  ∧ li_purchased_by bought = Some "bob"
  ∧ Lists.claim_fields_consistent bought.
Proof.
  intros bought.
  assert (Hr : Lists.reachable list1 fresh_item bought)
    by (apply Lists.reach_press, Lists.reach_press, Lists.reach_start).
  split; [exact Hr|]. split; [reflexivity|].
  exact (proj1 (Wishlist.claim_fields_stay_consistent list1 1 "Bike" None None
                  bought Hr)).
Defined.

(** A bought item is locked for carol, and alice, who made the list, is
    shown nothing about it. *)
Lemma bought_item_is_locked_and_hidden :
  Lists.wishlist_press (Identity.DISPLAY_NAME carol_session) list1 Lists.Unclaim
    bought_item = bought_item
  ∧ Lists.wishlist_status (Identity.DISPLAY_NAME alice_only_session) list1
      bought_item = None
  ∧ Lists.wishlist_buttons (Identity.DISPLAY_NAME alice_only_session) list1
      bought_item = [].
Proof.
  destruct (Wishlist.wishlist_follows_workflow carol_session list1 bought_item
              Lists.Claim) as (_ & _ & Hlocked & _).
  destruct (Wishlist.wishlist_follows_workflow alice_only_session list1
              bought_item Lists.Claim) as (_ & _ & _ & Hcreator).
  split; [exact (Hlocked eq_refl carol_session Lists.Unclaim)|].
  exact (Hcreator eq_refl).
Defined.




End Examples.

(** * Settings and sticky identity *)

Module StickyFacts.
Import Identity.

Lemma get_set_setting s family key v family' key' dflt :
  get_setting (set_setting s family key v) family' key' dflt
  = if decide ((family, key) = (family', key'))
    then match v with Some x => Some x | None => dflt end
    else get_setting s family' key' dflt.
Proof.
  unfold get_setting, set_setting.
  destruct v as [x|]; cbn [app_settings with_app_settings].
  - rewrite lookup_insert. by case_decide.
  - rewrite lookup_delete. by case_decide.
Qed.

(** What one run resolves to, by cases on the query parameters and the
    persisted setting. *)
Lemma resolve_cases s qp ss :
  let fam := bootstrap_family (ss !! "family") (qp !! "family") in
  let kept :=
    or_str (Some (default (default "Guest" (qp !! "user")) (ss !! "user")))
      "Guest" in
  resolve s qp ss
  = (if truthy (qp !! "user") then kept
     else match get_setting s fam "last_active_user" None with
          | Some last => if nonempty last then last else kept
          | None => kept
          end,
     fam).
Proof.
  intros fam kept.
  set (u0 := default (default "Guest" (qp !! "user")) (ss !! "user")).
  set (f0 := default (default "public" (qp !! "family")) (ss !! "family")).
  unfold resolve, sticky_user_bootstrap.
  set (ss1 := match ss !! "user" with Some _ => ss | None => _ end).
  set (ss2 := match ss1 !! "family" with Some _ => ss1 | None => _ end).
  assert (Hu1 : ss1 !! "user" = Some u0).
  { subst ss1 u0. destruct (ss !! "user") eqn:E; simpl; [done|].
    by rewrite lookup_insert_eq. }
  assert (Hf1 : ss1 !! "family" = ss !! "family").
  { subst ss1. destruct (ss !! "user"); [done|]. by rewrite lookup_insert_ne. }
  assert (Hu2 : ss2 !! "user" = Some u0).
  { subst ss2. destruct (ss1 !! "family"); [done|]. by rewrite lookup_insert_ne. }
  assert (Hf2 : ss2 !! "family" = Some f0).
  { subst ss2 f0. rewrite Hf1. destruct (ss !! "family") eqn:E; simpl.
    - by rewrite Hf1.
    - by rewrite lookup_insert_eq. }
  rewrite Hf2. change (or_str (Some f0) "public") with fam.
  assert (Hdone : (DISPLAY_NAME (sidebar_defaults ss2),
                   FAMILY (sidebar_defaults ss2)) = (kept, fam)).
  { unfold sidebar_defaults, DISPLAY_NAME, FAMILY. by rewrite Hu2, Hf2, Hu2, Hf2. }
  destruct (truthy (qp !! "user")); [exact Hdone|].
  destruct (get_setting s fam "last_active_user" None) as [last|];
    [|exact Hdone].
  unfold nonempty.
  destruct (String.eqb last "") eqn:Hne; cbn [negb andb]; [exact Hdone|].
  destruct (bool_decide_reflect (ss2 !! "user" = Some last)) as [E|E];
    cbn [negb].
  - rewrite Hdone. rewrite Hu2 in E. inversion E as [E']. subst kept.
    fold u0. rewrite E'. unfold or_str. by rewrite Hne.
  - assert (Hf3 : <["user":=last]> ss2 !! "family" = Some f0)
      by (rewrite lookup_insert_ne by discriminate; exact Hf2).
    unfold sidebar_defaults, DISPLAY_NAME, FAMILY.
    rewrite lookup_insert_eq, Hf3, lookup_insert_eq, Hf3.
    unfold or_str at 1. by rewrite Hne.
Qed.

(** X1. Saving a profile makes the identity sticky.  After
    [_stick_user_to_url_and_settings] for a non-empty name and family, a
    brand-new session that opens the anchored link works under that name and
    family, and so does any session of that family whose link carries no
    user, whatever name it held before. *)
Theorem saved_identity_is_sticky (s : store) (qp : gmap string string)
    (username family : string) :
  username ≠ "" → family ≠ "" →
  let s' := (stick_user_to_url_and_settings s qp username family).1 in
  let qp' := (stick_user_to_url_and_settings s qp username family).2 in
  get_setting s' family "last_active_user" None = Some username
  ∧ resolve s' qp' ∅ = (username, family)
  ∧ ∀ qp0 ss,
      truthy (qp0 !! "user") = false →
      bootstrap_family (ss !! "family") (qp0 !! "family") = family →
      resolve s' qp0 ss = (username, family).
Proof.
  intros Hu Hf s' qp'. subst s' qp'.
  unfold stick_user_to_url_and_settings. cbn [fst snd].
  assert (Hget : get_setting (set_setting s family "last_active_user"
                                (Some username)) family "last_active_user" None
                 = Some username).
  { rewrite get_set_setting. by case_decide. }
  assert (Hne : nonempty username = true).
  { unfold nonempty. by destruct (String.eqb_spec username ""). }
  split; [exact Hget|]. split.
  - rewrite resolve_cases. cbv zeta.
    rewrite lookup_empty, lookup_insert_eq.
    rewrite lookup_insert_ne, lookup_insert_eq by discriminate.
    cbn [default from_option id truthy]. fold (nonempty username). rewrite Hne.
    unfold bootstrap_family. rewrite !lookup_empty.
    cbn [default from_option id]. unfold or_str.
    destruct (String.eqb_spec username ""); [done|].
    by destruct (String.eqb_spec family "").
  - intros qp0 ss Hq Hfam. rewrite resolve_cases. cbv zeta.
    rewrite Hq, Hfam, Hget, Hne. done.
Qed.

(** X2. A setting reads back as last written: a value after an upsert, the
    caller's default after a removal, and writes under one (family, key)
    never show under another. *)
Theorem setting_reads_back_last_write (s : store) (family key : string)
    (v1 : option string) (v2 : string) (dflt : option string) :
  get_setting (set_setting (set_setting s family key v1) family key (Some v2))
    family key dflt = Some v2
  ∧ get_setting (set_setting (set_setting s family key v1) family key None)
      family key dflt = dflt
  ∧ ∀ family' key' v,
      (family', key') ≠ (family, key) →
      get_setting (set_setting s family key v) family' key' dflt
      = get_setting s family' key' dflt.
Proof.
  split; [|split].
  - rewrite get_set_setting. by case_decide.
  - rewrite get_set_setting. by case_decide.
  - intros family' key' v Hne. rewrite get_set_setting.
    case_decide; [congruence|done].
Qed.

End StickyFacts.

(** * Row ids and statements that name the family *)

Module RowIds.
Import SqlFacts.

Lemma next_rowid_delete_insert {A} (p : Z → A → bool) (r : A) (t : table A) :
  next_rowid (delete_where p (insert_row r t)) = next_rowid t + 1.
Proof.
  unfold next_rowid at 1. unfold delete_where, insert_row; cbn [rows seq].
  pose proof (next_rowid_pos t).
  assert (max_rowid (filter (λ kr, p kr.1 kr.2 = false)
                       (<[next_rowid t := r]> (rows t))) ≤ next_rowid t).
  { apply max_rowid_le; [lia|]. intros k x [Hk _]%map_lookup_filter_Some.
    rewrite lookup_insert in Hk. case_decide; [lia|].
    apply next_rowid_gt in Hk. lia. }
  lia.
Qed.

(** X3. AUTOINCREMENT never hands out an id twice.  The id of a row inserted
    after any deletion is larger than every id the table held or gave out
    before, also when the deletion removed the newest row or emptied the
    table. *)
Theorem ids_are_never_reused {A} (t : table A) (r r' : A) (p : Z → A → bool) :
  let id1 := next_rowid t in
  let t2 := delete_where p (insert_row r t) in
  let id2 := next_rowid t2 in
  id1 < id2
  ∧ (∀ k x, rows t !! k = Some x → k < id1)
  ∧ (∀ k x, rows t2 !! k = Some x → k < id2)
  ∧ rows (insert_row r' t2) !! id2 = Some r'
  ∧ rows t !! id2 = None ∧ rows (insert_row r t) !! id2 = None.
Proof.
  intros id1 t2 id2. subst id1 t2 id2.
  rewrite next_rowid_delete_insert.
  split; [lia|]. split; [apply next_rowid_gt|].
  split.
  { intros k x [Hk _]%lookup_delete_where_Some. rewrite lookup_insert_row in Hk.
    case_decide; [lia|]. apply next_rowid_gt in Hk. lia. }
  split.
  { rewrite lookup_insert_row, next_rowid_delete_insert. by case_decide. }
  split.
  - destruct (rows t !! (next_rowid t + 1)) eqn:E; [|done].
    apply next_rowid_gt in E. lia.
  - rewrite lookup_insert_row. case_decide; [lia|].
    destruct (rows t !! (next_rowid t + 1)) eqn:E; [|done].
    apply next_rowid_gt in E. lia.
Qed.

End RowIds.

(** * Statements that name the family *)

Module ScopedWrites.
Import SqlFacts Corkboard Calendar Chat.

Lemma update_where_none {A} (p : Z → A → bool) (f : A → A) (t : table A) :
  (∀ k r, rows t !! k = Some r → p k r = false) → update_where p f t = t.
Proof.
  intros H. destruct t as [m sq]. unfold update_where; cbn [rows seq] in *.
  f_equal. apply map_eq. intros k. rewrite map_lookup_imap.
  destruct (m !! k) as [r|] eqn:E; [|done]. simpl. by rewrite (H k r E).
Qed.

Lemma delete_where_none {A} (p : Z → A → bool) (t : table A) :
  (∀ k r, rows t !! k = Some r → p k r = false) → delete_where p t = t.
Proof.
  intros H. destruct t as [m sq]. unfold delete_where; cbn [rows seq] in *.
  f_equal. apply map_filter_id. intros k r Hk. simpl. by apply H.
Qed.

Lemma with_notes_id s : with_notes s (notes s) = s.
Proof. by destruct s. Qed.
Lemma with_events_id s : with_events s (events s) = s.
Proof. by destruct s. Qed.
Lemma with_chat_messages_id s : with_chat_messages s (chat_messages s) = s.
Proof. by destruct s. Qed.

(** X4. The statements that carry [AND family=?] do nothing at all when the id
    they are given is not a row of the acting family: moving or soft-deleting
    a note, updating or deleting an event, and deleting a chat message (which
    also names the room and the author) leave the whole database as it
    was. *)
Theorem scoped_statements_stay_in_family (s : store) (FAMILY : string)
    (id : Z) :
  ((∀ n, fetch_by_id (notes s) id = Some n → n_family n ≠ FAMILY) →
   ∀ now x y,
     soft_delete_note s FAMILY id now = s ∧ save_position s FAMILY id x y = s)
  ∧ ((∀ e, fetch_by_id (events s) id = Some e → e_family e ≠ FAMILY) →
     delete_event s FAMILY id = s
     ∧ ∀ f s', update_event s FAMILY id f = Some s' → s' = s)
  ∧ (∀ room viewer,
       (∀ m, fetch_by_id (chat_messages s) id = Some m →
             m_family m ≠ FAMILY ∨ m_room m ≠ room ∨ m_author m ≠ viewer) →
       delete_message s FAMILY room viewer id = s).
Proof.
  unfold fetch_by_id. split; [|split].
  - intros Hn now x y.
    assert (Hp : ∀ k r, rows (notes s) !! k = Some r →
                 (k =? id) && String.eqb (n_family r) FAMILY = false).
    { intros k r Hk. destruct (Z.eqb_spec k id) as [->|]; [|done].
      specialize (Hn r Hk). simpl. by destruct (String.eqb_spec (n_family r) FAMILY). }
    unfold soft_delete_note, save_position.
    rewrite !update_where_none by done. by rewrite with_notes_id.
  - intros He.
    assert (Hp : ∀ k r, rows (events s) !! k = Some r →
                 (k =? id) && String.eqb (e_family r) FAMILY = false).
    { intros k r Hk. destruct (Z.eqb_spec k id) as [->|]; [|done].
      specialize (He r Hk). simpl. by destruct (String.eqb_spec (e_family r) FAMILY). }
    split.
    + unfold delete_event. rewrite delete_where_none by done.
      apply with_events_id.
    + intros f s'. unfold update_event.
      destruct (PyDate.ltb (f_ed f) (f_sd f)); [discriminate|].
      destruct (form_isos f) as [[s_iso e_iso]|]; [|discriminate].
      cbn [mbind option_bind]. intros [= <-].
      rewrite update_where_none by done. apply with_events_id.
  - intros room viewer Hm. unfold delete_message.
    rewrite delete_where_none; [apply with_chat_messages_id|].
    intros k r Hk. destruct (Z.eqb_spec k id) as [->|]; [|done]. simpl.
    destruct (Hm r Hk) as [H|[H|H]].
    + by destruct (String.eqb_spec (m_family r) FAMILY).
    + destruct (String.eqb_spec (m_room r) room); [done|].
      by rewrite andb_false_r.
    + destruct (String.eqb_spec (m_author r) viewer); [done|].
      by rewrite andb_false_r.
Qed.

End ScopedWrites.

(** * The board listing: newest on top, pages *)

Module BoardPages.
Import SqlFacts Corkboard Board NoteOrder.

#[local] Instance note_order_trans' : Transitive note_order.
Proof. unfold note_order. intros a b c ? ?. lia. Qed.

#[local] Instance note_order_total' : Total note_order.
Proof. unfold note_order. intros a b. lia. Qed.

Lemma notes_listing_page s FAMILY fs fa ft page :
  notes_listing s FAMILY fs fa ft page
  = take PAGE_SIZE (drop (page * PAGE_SIZE) (notes_sorted s FAMILY fs fa ft)).
Proof. reflexivity. Qed.

Lemma elem_of_notes_sorted s FAMILY fs fa ft k n :
  (k, n) ∈ notes_sorted s FAMILY fs fa ft ↔
  fetch_by_id (notes s) k = Some n ∧ note_matches FAMILY fs fa ft k n = true.
Proof.
  unfold notes_sorted. rewrite merge_sort_Permutation.
  apply elem_of_select_where.
Qed.

Lemma notes_sorted_NoDup s FAMILY fs fa ft :
  NoDup (notes_sorted s FAMILY fs fa ft).
Proof.
  unfold notes_sorted. rewrite merge_sort_Permutation.
  apply NoDup_select_where.
Qed.

Lemma pages_concat {A} (l : list A) (size n : nat) :
  List.concat (map (λ p, take size (drop (p * size) l)) (List.seq 0 n))
  = take (n * size) l.
Proof.
  induction n as [|n IH]; [done|].
  rewrite List.seq_S, List.map_app, List.concat_app, IH. simpl.
  rewrite app_nil_r. replace (size + n * size)%nat with (n * size + size)%nat by lia.
  by rewrite take_take_drop.
Qed.

(** X5. A note just added is the first one on the board: page 0 of the family's
    listing starts with it whenever it passes the filters in force (with no
    filter it always does). *)
Theorem new_note_is_listed_first (s : store) (FAMILY : string)
    (f : note_fields) (fs fa ft : string) :
  let id := next_rowid (notes s) in
  let n := new_note FAMILY f (next_ord s FAMILY) in
  note_matches FAMILY fs fa ft id n = true →
  head (notes_listing (add_note s FAMILY f) FAMILY fs fa ft 0) = Some (id, n).
Proof.
  intros id n Hm. rewrite notes_listing_page. simpl drop.
  set (l := notes_sorted (add_note s FAMILY f) FAMILY fs fa ft).
  assert (Hin : (id, n) ∈ l).
  { apply elem_of_notes_sorted. split; [|done].
    rewrite fetch_add_note. by case_decide. }
  assert (Hs : StronglySorted note_order l)
    by apply (StronglySorted_merge_sort note_order).
  assert (Hold : ∀ k m, (k, m) ∈ l → k ≠ id → n_order_index m < next_ord s FAMILY).
  { intros k m [Hk Hmm]%elem_of_notes_sorted Hne.
    rewrite fetch_add_note in Hk. case_decide; [done|].
    unfold note_matches in Hmm. rewrite !andb_true_iff in Hmm.
    destruct Hmm as [[[Ha _] _] _].
    destruct (next_ord_spec s FAMILY)
      as [[Hnone _]|(k0 & n0 & _ & _ & -> & Hmax)].
    - rewrite (Hnone _ _ Hk) in Ha. discriminate.
    - specialize (Hmax _ _ Hk Ha). lia. }
  assert (Hkey : ∀ k a b, (k, a) ∈ l → (k, b) ∈ l → a = b).
  { intros k a b [Ha _]%elem_of_notes_sorted [Hb _]%elem_of_notes_sorted.
    congruence. }
  clearbody l.
  destruct l as [|[k m] l']; [by apply elem_of_nil in Hin|].
  change (PAGE_SIZE) with 25%nat. simpl. f_equal.
  assert (Hk : (k, m) ∈ (k, m) :: l') by left.
  destruct (decide (k = id)) as [->|Hne].
  - f_equal. by apply (Hkey id).
  - exfalso. apply elem_of_cons in Hin as [Hin|Hin]; [congruence|].
    apply StronglySorted_inv in Hs as [_ Hall].
    rewrite Forall_forall in Hall. specialize (Hall _ Hin).
    unfold note_order in Hall. simpl in Hall.
    specialize (Hold k m Hk Hne). subst n. simpl in Hall. lia.
Qed.

Lemma elem_of_page {A} (l : list A) (size p : nat) x :
  x ∈ take size (drop (p * size) l) ↔
  ∃ i, (i < size)%nat ∧ l !! (p * size + i)%nat = Some x.
Proof.
  rewrite elem_of_take. split.
  - intros (i & Hi & Hlt). exists i. by rewrite lookup_drop in Hi.
  - intros (i & Hlt & Hi). exists i. by rewrite lookup_drop.
Qed.

(** X6. Paging through the board neither drops nor repeats a note: the first
    [n] pages put together are the first [25 n] rows of the sorted result,
    every note that matches is on some page, and no note is on two. *)
Theorem board_pages_partition_the_listing (s : store)
    (FAMILY fs fa ft : string) :
  (∀ n, List.concat (map (notes_listing s FAMILY fs fa ft) (List.seq 0 n))
        = take (n * PAGE_SIZE) (notes_sorted s FAMILY fs fa ft))
  ∧ (∀ k note,
       (fetch_by_id (notes s) k = Some note
        ∧ note_matches FAMILY fs fa ft k note = true)
       ↔ ∃ p, (k, note) ∈ notes_listing s FAMILY fs fa ft p)
  ∧ (∀ p q x,
       x ∈ notes_listing s FAMILY fs fa ft p →
       x ∈ notes_listing s FAMILY fs fa ft q → p = q).
Proof.
  split; [|split].
  - intros n. apply (pages_concat (notes_sorted s FAMILY fs fa ft) PAGE_SIZE n).
  - intros k note. rewrite <- elem_of_notes_sorted. split.
    + intros Hin. apply list_elem_of_lookup in Hin as [idx Hidx].
      exists (idx / PAGE_SIZE)%nat. rewrite notes_listing_page.
      apply elem_of_page. exists (idx mod PAGE_SIZE)%nat.
      change PAGE_SIZE with 25%nat in *.
      split; [apply Nat.mod_upper_bound; lia|].
      replace (idx / 25 * 25 + idx mod 25)%nat with idx; [done|].
      pose proof (Nat.div_mod_eq idx 25). lia.
    + intros [p Hin]. rewrite notes_listing_page in Hin.
      apply elem_of_page in Hin as (i & _ & Hi).
      by eapply list_elem_of_lookup_2.
  - intros p q x Hp Hq. rewrite notes_listing_page in Hp, Hq.
    apply elem_of_page in Hp as (i & Hi & Hpi), Hq as (j & Hj & Hqj).
    pose proof (NoDup_lookup _ _ _ _ (notes_sorted_NoDup s FAMILY fs fa ft)
                  Hpi Hqj) as E.
    change PAGE_SIZE with 25%nat in *. nia.
Qed.

End BoardPages.

(** * Chat: arrivals, deletions and rooms *)

Module ChatMore.
Import SqlFacts Chat ChatRooms ChatFacts.

Lemma fetch_send_message s FAMILY room author msg now k :
  fetch_by_id (chat_messages (send_message s FAMILY room author msg now)) k
  = if nonempty (strip msg) && bool_decide (k = next_rowid (chat_messages s))
    then Some (mkmsg FAMILY room author (strip msg) now)
    else fetch_by_id (chat_messages s) k.
Proof.
  unfold send_message, fetch_by_id. destruct (nonempty (strip msg)); [|done].
  cbn [chat_messages with_chat_messages andb]. rewrite lookup_insert_row.
  case_decide; by (rewrite bool_decide_true by done)
                  || (rewrite bool_decide_false by done).
Qed.

Lemma filter_nil_all {A} (P : A → Prop) `{∀ x, Decision (P x)} (l : list A) :
  (∀ x, x ∈ l → ¬ P x) → filter P l = [].
Proof.
  intros Hall. induction l as [|x l IH]; [done|].
  rewrite filter_cons. case_decide as Hx.
  - destruct (Hall x ltac:(left) Hx).
  - apply IH. intros y Hy. apply Hall. by right.
Qed.

Lemma last_id_bound s FAMILY room :
  last_id (chat_window s FAMILY room) < next_rowid (chat_messages s).
Proof.
  unfold last_id. destruct (last (chat_window s FAMILY room)) as [[k m]|] eqn:E.
  - apply last_Some_elem_of, elem_of_chat_window_desc, elem_of_room_desc in E
      as [Hk _]. simpl. by eapply next_rowid_gt.
  - apply next_rowid_pos.
Qed.

Lemma last_id_in_window s FAMILY room x :
  x ∈ chat_window s FAMILY room →
  ∃ m, (last_id (chat_window s FAMILY room), m) ∈ chat_window s FAMILY room.
Proof.
  intros Hx. unfold last_id.
  destruct (last (chat_window s FAMILY room)) as [[k m]|] eqn:E.
  - exists m. by apply last_Some_elem_of.
  - apply last_None in E. rewrite E in Hx. by apply elem_of_nil in Hx.
Qed.



Lemma elem_of_my_recent s FAMILY room viewer k m :
  (k, m) ∈ my_recent s FAMILY room viewer →
  fetch_by_id (chat_messages s) k = Some m
  ∧ m_family m = FAMILY ∧ m_room m = room ∧ m_author m = viewer.
Proof.
  unfold my_recent. intros H%elem_of_limit_offset.
  apply elem_of_order_by_id_desc, elem_of_select_where in H as [Hk Hp].
  cbn [fst snd] in *.
  apply andb_true_iff in Hp as [[Hf Hr]%andb_true_iff Ha].
  apply String.eqb_eq in Hf, Hr, Ha. done.
Qed.

(** X8. The delete expander offers at most ten messages, all of them the
    viewer's own in the open room; pressing the bin of an offered message
    removes exactly that row: it is gone from the table, from the window and
    from the offer, and every other message is kept. *)
Theorem own_message_delete_removes_only_it (s : store)
    (FAMILY room viewer : string) (k : Z) (m : chat_message) :
  (k, m) ∈ my_recent s FAMILY room viewer →
  let s' := delete_message s FAMILY room viewer k in
  (List.length (my_recent s FAMILY room viewer) ≤ 10)%nat
  ∧ m_author m = viewer
  ∧ fetch_by_id (chat_messages s') k = None
  ∧ (∀ m', (k, m') ∉ chat_window s' FAMILY room)
  ∧ (∀ m', (k, m') ∉ my_recent s' FAMILY room viewer)
  ∧ ∀ k', k' ≠ k →
      fetch_by_id (chat_messages s') k' = fetch_by_id (chat_messages s) k'.
Proof.
  intros Hin s'. pose proof (elem_of_my_recent _ _ _ _ _ _ Hin)
    as (Hk & Hf & Hr & Ha).
  assert (Hgone : fetch_by_id (chat_messages s') k = None).
  { subst s'. unfold delete_message, fetch_by_id.
    cbn [chat_messages with_chat_messages]. rewrite lookup_delete_where.
    unfold fetch_by_id in Hk. rewrite Hk. cbn [option_fmap option_map mbind option_bind].
    rewrite Z.eqb_refl, Hf, Hr, Ha, !String.eqb_refl. done. }
  split; [|split; [done|split; [done|split; [|split]]]].
  - unfold my_recent, limit_offset. rewrite length_take. lia.
  - intros m' H%elem_of_chat_window_desc%elem_of_room_desc.
    destruct H as [H _]. congruence.
  - intros m' H%elem_of_my_recent. destruct H as [H _]. congruence.
  - intros k' Hne. subst s'. unfold delete_message, fetch_by_id.
    cbn [chat_messages with_chat_messages]. rewrite lookup_delete_where.
    destruct (rows (chat_messages s) !! k') as [r|]; [|done].
    cbn. destruct (Z.eqb_spec k' k); [done|]. done.
Qed.

Lemma elem_of_distinct_rooms s FAMILY r :
  r ∈ distinct_rooms s FAMILY ↔
  ∃ k m, fetch_by_id (chat_messages s) k = Some m
         ∧ m_family m = FAMILY ∧ m_room m = r.
Proof.
  unfold distinct_rooms. rewrite merge_sort_Permutation, elem_of_remove_dups.
  rewrite list_elem_of_fmap. split.
  - intros ([k m] & -> & [Hk Hp]%elem_of_select_where).
    apply String.eqb_eq in Hp. by exists k, m.
  - intros (k & m & Hk & Hf & <-). exists (k, m). split; [done|].
    apply elem_of_select_where. split; [done|]. by apply String.eqb_eq.
Qed.

Lemma elem_of_room_options s FAMILY r :
  r ∈ room_options s FAMILY ↔ r = "general" ∨ r ∈ distinct_rooms s FAMILY.
Proof.
  unfold room_options. case_bool_decide as Hg.
  - split; [by right|]. by intros [->|?].
  - by rewrite elem_of_cons.
Qed.

(** X9. The Room select box lists every room once: [general] is always among the
    options, any other option is a room that holds a message of the family,
    and every such room is an option.  Add Room with a non-blank name makes
    the stripped name an option for this family and changes no other family's
    options; with a blank name nothing is written. *)
Theorem room_options_are_the_rooms_in_use (s : store) (FAMILY : string) :
  NoDup (room_options s FAMILY)
  ∧ "general" ∈ room_options s FAMILY
  ∧ (∀ r, r ∈ room_options s FAMILY ↔
          r = "general"
          ∨ ∃ k m, fetch_by_id (chat_messages s) k = Some m
                   ∧ m_family m = FAMILY ∧ m_room m = r)
  ∧ ∀ new_room now,
      (nonempty (strip new_room) = false → create_room s FAMILY new_room now = s)
      ∧ (nonempty (strip new_room) = true →
         strip new_room ∈ room_options (create_room s FAMILY new_room now) FAMILY
         ∧ ∀ FAMILY' r, FAMILY' ≠ FAMILY →
             r ∈ room_options (create_room s FAMILY new_room now) FAMILY'
             ↔ r ∈ room_options s FAMILY').
Proof.
  assert (Hnd : NoDup (distinct_rooms s FAMILY)).
  { unfold distinct_rooms. rewrite merge_sort_Permutation.
    apply NoDup_remove_dups. }
  split; [|split; [|split]].
  - unfold room_options. case_bool_decide as Hg; [done|].
    by apply NoDup_cons.
  - apply elem_of_room_options. by left.
  - intros r. by rewrite elem_of_room_options, elem_of_distinct_rooms.
  - intros new_room now. unfold create_room. split; intros ->; [done|].
    set (new := mkmsg FAMILY (strip new_room) "system" _ now).
    assert (Hfetch : ∀ k, fetch_by_id
              (chat_messages (with_chat_messages s
                 (insert_row new (chat_messages s)))) k
              = if decide (k = next_rowid (chat_messages s)) then Some new
                else fetch_by_id (chat_messages s) k).
    { intros k. unfold fetch_by_id. cbn [chat_messages with_chat_messages].
      by rewrite lookup_insert_row. }
    split.
    + apply elem_of_room_options. right. apply elem_of_distinct_rooms.
      exists (next_rowid (chat_messages s)), new.
      rewrite Hfetch, decide_True by done. done.
    + intros FAMILY' r Hne. rewrite !elem_of_room_options.
      rewrite !elem_of_distinct_rooms.
      split; (intros [->|(k & m & Hk & Hf & Hr)]; [by left|right]);
        exists k, m; rewrite Hfetch in *.
      * case_decide; [|done]. inversion Hk; subst m. simpl in Hf. congruence.
      * case_decide as Hkk; [|done]. subst k.
        unfold fetch_by_id in Hk. by rewrite next_rowid_fresh in Hk.
Qed.

End ChatMore.

(** * Calendar navigation *)

Module NavFacts.
Import SqlFacts PyDate PyDateTime DateFacts IsoFacts Calendar CalendarNav.

Lemma month_end_succ y m :
  1 <= m <= 12 →
  ymd2ord y m (days_in_month y m) + 1
  = ymd2ord (if m =? 12 then y + 1 else y) (if m <? 12 then m + 1 else 1) 1.
Proof.
  intros Hm. unfold ymd2ord, days_in_month, days_before_month.
  destruct (month_cases m Hm)
    as [->|[->|[->|[->|[->|[->|[->|[->|[->|[->|[->| ->]]]]]]]]]]];
    cbn [Z.eqb Z.ltb Z.compare Pos.compare Pos.compare_cont Pos.eqb andb
         DAYS_IN_MONTH DAYS_BEFORE_MONTH];
    try rewrite dby_succ; unfold leap_day; destruct (is_leap y); simpl; lia.
Qed.

Lemma prev_of_next y m :
  1 <= m <= 12 →
  (if (if m <? 12 then m + 1 else 1) - 1 =? 0 then 12
   else (if m <? 12 then m + 1 else 1) - 1) = m
  ∧ (if (if m <? 12 then m + 1 else 1) =? 1
     then (if m =? 12 then y + 1 else y) - 1
     else (if m =? 12 then y + 1 else y)) = y.
Proof.
  intros Hm.
  destruct (month_cases m Hm)
    as [->|[->|[->|[->|[->|[->|[->|[->|[->|[->|[->| ->]]]]]]]]]]];
    simpl; split; lia.
Qed.

Lemma next_of_prev y m :
  1 <= m <= 12 →
  (if (if m - 1 =? 0 then 12 else m - 1) <? 12
   then (if m - 1 =? 0 then 12 else m - 1) + 1 else 1) = m
  ∧ (if (if m - 1 =? 0 then 12 else m - 1) =? 12
     then (if m =? 1 then y - 1 else y) + 1
     else (if m =? 1 then y - 1 else y)) = y.
Proof.
  intros Hm.
  destruct (month_cases m Hm)
    as [->|[->|[->|[->|[->|[->|[->|[->|[->|[->|[->| ->]]]]]]]]]]];
    simpl; split; lia.
Qed.

Lemma valid_first y m :
  valid (mkdate y m 1) = true ↔ 1 <= y <= 9999 ∧ 1 <= m <= 12.
Proof.
  unfold valid, MINYEAR, MAXYEAR. cbn [year month day].
  rewrite !andb_true_iff, !Z.leb_le. split; [lia|].
  intros [Hy Hm]. repeat split; try lia.
  unfold days_in_month.
  destruct (month_cases m Hm)
    as [->|[->|[->|[->|[->|[->|[->|[->|[->|[->|[->| ->]]]]]]]]]]];
    destruct (is_leap y); simpl; lia.
Qed.

Lemma make_date_Some y m d r :
  make_date y m d = Some r → r = mkdate y m d ∧ valid r = true.
Proof.
  unfold make_date. cbv zeta. destruct (valid (mkdate y m d)) eqn:V; [|done].
  by intros [= <-].
Qed.

Lemma window_month_inv v ref d0 d1 :
  is_month_view v = true →
  calendar_window v ref = Some (d0, d1) →
  d0 = mkdate (year ref) (month ref) 1
  ∧ d1 = mkdate (year ref) (month ref) (days_in_month (year ref) (month ref))
  ∧ valid d0 = true ∧ valid d1 = true.
Proof.
  intros Hv.
  assert (calendar_window v ref = calendar_window dayGridMonth ref) as ->
    by (by destruct v).
  unfold calendar_window, replace_day, monthrange_ndays. cbv zeta.
  destruct (valid (mkdate (year ref) (month ref) 1)) eqn:V0; [|done].
  cbn [mbind option_bind year month].
  destruct (valid (mkdate (year ref) (month ref)
                       (days_in_month (year ref) (month ref)))) eqn:V1; [|done].
  by intros [= <- <-].
Qed.

(** X10. Next moves the calendar to the window that begins the day after the
    shown window ends, and Prev to the window that ends the day before the
    shown one begins, so that paging neither skips nor repeats a day.  Prev
    undoes Next and Next undoes Prev: in the week and day views they restore
    the reference date, in the month and list views the first day of its
    month. *)
Theorem paging_moves_to_the_adjacent_window (v : view) (ref : date) :
  valid ref = true →
  ∀ ref' d0 d1 d0' d1',
    calendar_window v ref = Some (d0, d1) →
    calendar_window v ref' = Some (d0', d1') →
    (nav_next v ref = Some ref' →
     add_days d1 1 = Some d0'
     ∧ nav_prev v ref' = Some (if is_month_view v then d0 else ref))
    ∧ (nav_prev v ref = Some ref' →
       add_days d1' 1 = Some d0
       ∧ nav_next v ref' = Some (if is_month_view v then d0 else ref)).
Proof.
  intros V ref' d0 d1 d0' d1' W W'.
  pose proof (valid_inv _ V) as (Y & M & D).
  destruct (is_month_view v) eqn:Hv.
  - apply (window_month_inv v) in W as (-> & -> & V0 & V1); [|done].
    apply (window_month_inv v) in W' as (-> & -> & V0' & V1'); [|done].
    assert (nav_next v ref = nav_next dayGridMonth ref) as -> by (by destruct v).
    assert (nav_prev v ref = nav_prev dayGridMonth ref) as -> by (by destruct v).
    assert (nav_next v ref' = nav_next dayGridMonth ref') as -> by (by destruct v).
    assert (nav_prev v ref' = nav_prev dayGridMonth ref') as -> by (by destruct v).
    unfold nav_next, nav_prev. cbv zeta. split.
    + intros [-> Vr]%make_date_Some. cbn [year month day] in *.
      apply valid_first in Vr as [Yr Mr]. split.
      * unfold add_days, toordinal. cbn [year month day].
        rewrite month_end_succ by done.
        apply (fromordinal_toordinal (mkdate _ _ 1)). by apply valid_first.
      * destruct (prev_of_next (year ref) (month ref) M) as [-> ->].
        unfold make_date. cbv zeta. by rewrite V0.
    + intros [-> Vr]%make_date_Some. cbn [year month day] in *.
      apply valid_first in Vr as [Yr Mr].
      destruct (next_of_prev (year ref) (month ref) M) as [Em Ey]. split.
      * unfold add_days, toordinal. cbn [year month day].
        rewrite month_end_succ by done. rewrite Em, Ey.
        by apply (fromordinal_toordinal (mkdate _ _ 1)).
      * rewrite Em, Ey. unfold make_date. cbv zeta. by rewrite V0.
  - destruct v; try discriminate; unfold calendar_window in W, W';
      unfold nav_next, nav_prev.
    + destruct (add_days ref (- weekday ref)) as [a|] eqn:E0; [|done].
      cbn [mbind option_bind] in W.
      destruct (add_days a 6) as [b|] eqn:E1; [|done].
      injection W as <- <-.
      destruct (add_days ref' (- weekday ref')) as [a'|] eqn:E0'; [|done].
      cbn [mbind option_bind] in W'.
      destruct (add_days a' 6) as [b'|] eqn:E1'; [|done].
      injection W' as <- <-.
      apply add_days_Some in E0 as [Va Oa], E1 as [Vb Ob].
      apply add_days_Some in E0' as [Va' Oa'], E1' as [Vb' Ob'].
      unfold weekday in *. split; intros [Vr Or]%add_days_Some.
      * split.
        -- unfold add_days.
           replace (toordinal b + 1) with (toordinal a')
             by (Z.div_mod_to_equations; lia).
           by apply fromordinal_toordinal.
        -- unfold add_days.
           replace (toordinal ref' + - (7)) with (toordinal ref) by lia.
           by apply fromordinal_toordinal.
      * split.
        -- unfold add_days.
           replace (toordinal b' + 1) with (toordinal a)
             by (Z.div_mod_to_equations; lia).
           by apply fromordinal_toordinal.
        -- unfold add_days.
           replace (toordinal ref' + 7) with (toordinal ref) by lia.
           by apply fromordinal_toordinal.
    + injection W as <- <-. injection W' as <- <-.
      split; intros E; pose proof (add_days_Some _ _ _ E) as [Vr Or].
      * split; [done|]. unfold add_days.
        replace (toordinal ref' + - (1)) with (toordinal ref) by lia.
        by apply fromordinal_toordinal.
      * split.
        -- unfold add_days.
           replace (toordinal ref' + 1) with (toordinal ref) by lia.
           by apply fromordinal_toordinal.
        -- unfold add_days.
           replace (toordinal ref' + 1) with (toordinal ref) by lia.
           by apply fromordinal_toordinal.
Qed.

End NavFacts.

(** * Editing an event *)

Module EditFacts.
Import SqlFacts PyDate PyDateTime DateFacts IsoFacts AllDay Calendar
  ManageEvents.

Lemma rstrip_idemp s : rstrip (rstrip s) = rstrip s.
Proof.
  induction s as [|c r IH]; [done|]. cbn [rstrip]. cbv zeta.
  destruct (is_space c && String.eqb (rstrip r) "") eqn:E; [done|].
  cbn [rstrip]. cbv zeta. by rewrite IH, E.
Qed.

Lemma lstrip_idemp s : lstrip (lstrip s) = lstrip s.
Proof.
  induction s as [|c r IH]; [done|]. cbn [lstrip].
  destruct (is_space c) eqn:E; [done|]. cbn [lstrip]. by rewrite E.
Qed.

Lemma rstrip_lstrip s : rstrip (lstrip s) = lstrip (rstrip s).
Proof.
  induction s as [|c r IH]; [done|]. cbn [lstrip rstrip]. cbv zeta.
  destruct (is_space c) eqn:E; cbn [andb].
  - rewrite IH. destruct (String.eqb_spec (rstrip r) "") as [->|_]; [done|].
    cbn [lstrip]. by rewrite E.
  - cbn [rstrip lstrip]. cbv zeta. by rewrite E.
Qed.

Lemma strip_idemp s : strip (strip s) = strip s.
Proof.
  unfold strip. by rewrite rstrip_lstrip, lstrip_idemp, rstrip_idemp.
Qed.

Lemma or_str_empty (x : string) : or_str (Some x) "" = x.
Proof. unfold or_str. by destruct (String.eqb_spec x "") as [->|]. Qed.

(** X11. An event made with the Create form survives an untouched Update: the
    panel shows the stored title, the dates and (for a timed event) the times
    that were entered, and submitting exactly what it shows writes the same
    row back, so that every event reads as before. *)
Theorem untouched_update_keeps_the_event (s s1 : store) (FAMILY : string)
    (f : event_form) (now : datetime) :
  valid (f_sd f) = true → valid (f_ed f) = true →
  valid_time (f_stime f) = true → valid_time (f_etime f) = true →
  create_event s FAMILY f = Some s1 →
  let id := next_rowid (events s) in
  ∃ e g,
    fetch_by_id (events s1) id = Some e
    ∧ edit_form_defaults now e = Some g
    ∧ f_title g = strip (f_title f)
    ∧ f_sd g = f_sd f ∧ f_ed g = f_ed f ∧ f_all_day g = f_all_day f
    ∧ (f_all_day f = false → f_stime g = f_stime f ∧ f_etime g = f_etime f)
    ∧ ∃ s2, update_event s1 FAMILY id g = Some s2
            ∧ ∀ k, fetch_by_id (events s2) k = fetch_by_id (events s1) k.
Proof.
  intros Vs Ve Vst Vet Hc id. unfold create_event in Hc.
  destruct (nonempty (strip (f_title f))) eqn:Ht; [|done]. cbn [negb] in Hc.
  destruct (ltb (f_ed f) (f_sd f)) eqn:Hlt; [done|].
  destruct (form_isos f) as [[s_iso e_iso]|] eqn:Hiso; [|done].
  cbn [mbind option_bind] in Hc. injection Hc as <-.
  set (e := mkevent (strip (f_title f)) s_iso (Some e_iso)
              (Some (strip (f_assignees f))) FAMILY
              (if f_all_day f then 1 else 0)).
  assert (Hfetch : ∀ k, fetch_by_id (events (with_events s
                          (insert_row e (events s)))) k
                        = if decide (k = id) then Some e
                          else fetch_by_id (events s) k).
  { intros k. unfold fetch_by_id. cbn [events with_events].
    by rewrite lookup_insert_row. }
  assert (Hg : ∃ g, edit_form_defaults now e = Some g
                    ∧ f_title g = strip (f_title f)
                    ∧ f_sd g = f_sd f ∧ f_ed g = f_ed f
                    ∧ f_all_day g = f_all_day f
                    ∧ (f_all_day f = false →
                       f_stime g = f_stime f ∧ f_etime g = f_etime f)
                    ∧ f_assignees g = strip (f_assignees f)
                    ∧ form_isos g = Some (s_iso, e_iso)).
  { unfold form_isos in Hiso. destruct (f_all_day f) eqn:Ha.
    - unfold to_exclusive_end in Hiso.
      destruct (add_days (f_ed f) 1) as [next|] eqn:En; [|done].
      cbn [mbind option_bind] in Hiso. injection Hiso as <- <-.
      pose proof (add_days_Some _ _ _ En) as [Vn _].
      pose proof (add_days_back _ _ _ Ve En) as Hb.
      change (- (1)) with (-1) in Hb.
      unfold edit_form_defaults, edit_form_dates. subst e.
      cbn [e_start_at e_end_at e_all_day e_title e_assignees].
      rewrite !from_iso_isoformat by (done || by left).
      cbn [default from_option id Z.eqb negb]. unfold dt_add_days.
      cbn [dt_date combine]. rewrite Hb.
      cbn [mbind option_bind fmap option_fmap option_map dt_date].
      eexists. split; [done|]. cbn [f_title f_sd f_ed f_all_day f_assignees].
      rewrite or_str_empty. repeat (split; [done|]).
      unfold form_isos, to_exclusive_end.
      cbn [f_all_day f_ed f_sd]. rewrite En. done.
    - injection Hiso as <- <-.
      unfold edit_form_defaults, edit_form_dates. subst e.
      cbn [e_start_at e_end_at e_all_day e_title e_assignees].
      rewrite !from_iso_isoformat by (done || by left).
      cbn [default from_option id Z.eqb negb dt_date dt_time combine
           mbind option_bind].
      eexists. split; [done|].
      cbn [f_title f_sd f_ed f_all_day f_assignees f_stime f_etime].
      rewrite or_str_empty. repeat (split; [done|]).
      unfold form_isos. cbn [f_all_day f_ed f_sd f_stime f_etime]. done. }
  destruct Hg as (g & Hg & Gt & Gs & Ge & Ga & Gtm & Gas & Giso).
  exists e, g. rewrite Hfetch, decide_True by done.
  repeat (split; [done|]).
  unfold update_event. rewrite Ge, Gs, Hlt, Giso. cbn [mbind option_bind].
  eexists. split; [done|]. intros k. unfold fetch_by_id at 1.
  cbn [events with_events]. rewrite lookup_update_where.
  fold (fetch_by_id (insert_row e (events s)) k).
  change (insert_row e (events s))
    with (events (with_events s (insert_row e (events s)))).
  rewrite Hfetch. case_decide as Hk.
  - subst k. cbn [fmap option_fmap option_map].
    rewrite Z.eqb_refl. unfold e at 1. cbn [e_family].
    rewrite String.eqb_refl. cbn [andb]. f_equal.
    rewrite Gt, Gas, Ga, !strip_idemp, Ht. subst e. cbn [e_family]. done.
  - destruct (fetch_by_id (events s) k) as [r|]; [|done].
    cbn [fmap option_fmap option_map]. destruct (Z.eqb_spec k id); [done|].
    done.
Qed.

End EditFacts.

(** * Promoting a reminder *)

Module PromoteFacts.
Import SqlFacts PyDate PyDateTime Corkboard Calendar ChatFacts.

#[local] Instance id_desc_trans' {A} : Transitive (@id_desc A).
Proof. unfold id_desc. intros a b c ? ?. lia. Qed.

#[local] Instance id_desc_total' {A} : Total (@id_desc A).
Proof. unfold id_desc. intros a b. lia. Qed.

(** [ORDER BY id DESC LIMIT 1] returns the row with the largest id. *)
Lemma newest_row_first {A} (p : Z → A → bool) (t : table A) k r :
  rows t !! k = Some r → p k r = true →
  (∀ k' r', rows t !! k' = Some r' → k' ≤ k) →
  limit_offset 1 0 (order_by_id_desc (select_where p t)) = [(k, r)].
Proof.
  intros Hk Hp Hmax.
  assert (Hin : (k, r) ∈ order_by_id_desc (select_where p t)).
  { apply elem_of_order_by_id_desc, elem_of_select_where. done. }
  assert (Hs : StronglySorted id_desc (order_by_id_desc (select_where p t))).
  { unfold order_by_id_desc. apply StronglySorted_merge_sort; apply _. }
  assert (Hall : ∀ x, x ∈ order_by_id_desc (select_where p t) →
                      rows t !! x.1 = Some x.2).
  { intros [k' r'] Hx.
    by apply elem_of_order_by_id_desc, elem_of_select_where in Hx as [? _]. }
  destruct (order_by_id_desc (select_where p t)) as [|[k0 r0] l];
    [by apply elem_of_nil in Hin|].
  unfold limit_offset. cbn [drop take]. f_equal.
  pose proof (Hall (k0, r0) ltac:(left)) as H0. cbn [fst snd] in H0.
  assert (k0 = k) as ->.
  { pose proof (Hmax _ _ H0).
    apply elem_of_cons in Hin as [[= <- <-]|Hin]; [done|].
    apply StronglySorted_inv in Hs as [_ Hs].
    rewrite Forall_forall in Hs. specialize (Hs _ Hin).
    unfold id_desc in Hs; simpl in Hs. lia. }
  congruence.
Qed.


End PromoteFacts.

(** * Newest-first listings *)

Module Listings.
Import SqlFacts Lists Notepad ChatFacts.

#[local] Instance id_desc_trans'' {A} : Transitive (@id_desc A).
Proof. unfold id_desc. intros a b c ? ?. lia. Qed.

#[local] Instance id_desc_total'' {A} : Total (@id_desc A).
Proof. unfold id_desc. intros a b. lia. Qed.

(** A row inserted into a table goes to the front of every [ORDER BY id
    DESC] over it that selects the row, and leaves the others as they are. *)
Lemma order_desc_insert_row {A} (p : Z → A → bool) (t : table A) (r : A) :
  order_by_id_desc (select_where p (insert_row r t))
  = ((if p (next_rowid t) r then [(next_rowid t, r)] else [])
     ++ order_by_id_desc (select_where p t))%list.
Proof.
  set (new := if p (next_rowid t) r then [(next_rowid t, r)] else []).
  assert (Hel : ∀ x, x ∈ select_where p (insert_row r t) ↔
                     x ∈ (new ++ select_where p t)%list).
  { intros [k a]. rewrite elem_of_app, !elem_of_select_where.
    rewrite lookup_insert_row. subst new. case_decide as Hk.
    - subst k. split.
      + intros [[= <-] Hp]. rewrite Hp. left. by left.
      + intros [H|[H _]]; [|by rewrite next_rowid_fresh in H].
        destruct (p (next_rowid t) r) eqn:Hp; [|by apply elem_of_nil in H].
        apply list_elem_of_singleton in H. by inversion H; subst.
    - split; [by right|]. intros [H|H]; [|done].
      destruct (p (next_rowid t) r); [|by apply elem_of_nil in H].
      apply list_elem_of_singleton in H. by inversion H. }
  assert (Hfst : ∀ x, x ∈ select_where p t → x.1 < next_rowid t).
  { intros [k a] [H _]%elem_of_select_where. by eapply next_rowid_gt. }
  unfold order_by_id_desc.
  apply (StronglySorted_unique_strong id_desc).
  - intros [k1 a1] [k2 a2] H1 H2 Hab Hba.
    assert (k1 = k2) as -> by (unfold id_desc in *; simpl in *; lia).
    rewrite merge_sort_Permutation in H1, H2. apply Hel in H2.
    apply elem_of_select_where in H1 as [H1 _], H2 as [H2 _]. congruence.
  - apply StronglySorted_merge_sort; apply _.
  - subst new. destruct (p (next_rowid t) r).
    + cbn [app]. constructor; [apply StronglySorted_merge_sort; apply _|].
      apply Forall_forall. intros x Hx. rewrite merge_sort_Permutation in Hx.
      specialize (Hfst _ Hx). unfold id_desc. simpl. lia.
    + apply StronglySorted_merge_sort; apply _.
  - rewrite !merge_sort_Permutation. apply NoDup_Permutation.
    + apply NoDup_select_where.
    + subst new.
      destruct (p (next_rowid t) r); [|apply NoDup_select_where].
      cbn [app]. apply NoDup_cons. split; [|apply NoDup_select_where].
      intros Hx. specialize (Hfst _ Hx). simpl in Hfst. lia.
    + intros x. by rewrite Hel.
Qed.

Lemma take_cons_take {A} (n : nat) (x : A) (l : list A) :
  take (S n) (x :: take (S n) l) = take (S n) (x :: l).
Proof.
  cbn [take]. f_equal. rewrite take_take. f_equal. lia.
Qed.

(** X13. A list, a list item or a document created with a non-blank name is shown
    on top of its listing, above what was listed before; the listing keeps
    its bound (100 lists, 200 items, 50 documents), so from a full listing
    the bottom entry drops out of view.  The listings of other families and
    other lists are unchanged, and a blank name creates nothing. *)
Theorem created_entry_tops_its_listing (s : store)
    (FAMILY DISPLAY_NAME text list_type : string) (list_id : Z) :
  (nonempty (strip text) = false →
   create_list s FAMILY DISPLAY_NAME text list_type = s
   ∧ add_item s list_id text = s
   ∧ create_doc s FAMILY text = s)
  ∧ (nonempty (strip text) = true →
     lists_listing (create_list s FAMILY DISPLAY_NAME text list_type) FAMILY
     = take 100
         ((next_rowid (lists s),
           mklist (strip text) FAMILY None (Some list_type)
             (Some DISPLAY_NAME))
          :: lists_listing s FAMILY)
     ∧ items_of (add_item s list_id text) list_id
       = take 200
           ((next_rowid (list_items s),
             mkitem list_id (strip text) 0 None None None None)
            :: items_of s list_id)
     ∧ docs_listing (create_doc s FAMILY text) FAMILY
       = take 50
           ((next_rowid (documents s), mkdoc (strip text) "" FAMILY None)
            :: docs_listing s FAMILY)
     ∧ (∀ FAMILY', FAMILY' ≠ FAMILY →
          lists_listing (create_list s FAMILY DISPLAY_NAME text list_type)
            FAMILY' = lists_listing s FAMILY'
          ∧ docs_listing (create_doc s FAMILY text) FAMILY'
            = docs_listing s FAMILY')
     ∧ ∀ list_id', list_id' ≠ list_id →
         items_of (add_item s list_id text) list_id' = items_of s list_id').
Proof.
  unfold create_list, add_item, create_doc. split; intros ->; [done|].
  unfold lists_listing, items_of, docs_listing, limit_offset.
  cbn [lists list_items documents with_lists with_list_items with_documents
       drop].
  rewrite !order_desc_insert_row.
  cbn [l_family l_deleted_at li_list_id d_family d_deleted_at is_null].
  rewrite !String.eqb_refl, Z.eqb_refl. cbn [andb app].
  rewrite !take_cons_take.
  split; [done|split; [done|split; [done|split]]].
  - intros FAMILY' Hne. rewrite !order_desc_insert_row.
    cbn [l_family l_deleted_at d_family d_deleted_at].
    destruct (String.eqb_spec FAMILY FAMILY'); [congruence|]. done.
  - intros list_id' Hne. rewrite !order_desc_insert_row.
    cbn [li_list_id]. destruct (Z.eqb_spec list_id list_id'); [lia|]. done.
Qed.

End Listings.

(** * Uploads *)

Module UploadFacts.
Import Uploads.

Lemma str_in_spec x xs : str_in x xs = true ↔ x ∈ xs.
Proof.
  unfold str_in. induction xs as [|y xs IH]; simpl.
  - split; [done|]. intros H. by apply elem_of_nil in H.
  - rewrite orb_true_iff, IH, elem_of_cons, String.eqb_eq. done.
Qed.

(** X14. An upload that is stored is at most 200 MB, has one of the six allowed
    types, is filed as an image exactly when the type is an image type and
    as a video otherwise, and is stored under the extension that belongs to
    the detected type, whatever extension the uploaded name had.  Without
    content sniffing the type is read off the lower-cased extension of the
    name, a name without extension counting as [.jpg].  The type
    [image/jpg], for which [sniff_mime] has an extension, is refused. *)
Theorem stored_upload_has_the_extension_of_its_type (size : Z) (m : magic)
    (ext mime ext2 media_type : string) :
  save_media size m ext = Saved mime ext2 media_type →
  size <= 200 * 1024 * 1024
  ∧ mime ∈ ALLOWED_MIMES
  ∧ (mime ∈ IMG_MIMES ∧ media_type = "image"
     ∨ mime ∈ VID_MIMES ∧ media_type = "video")
  ∧ ext2 = canonical_ext mime
  ∧ (m = NoMagic →
     mime = dict_get ext_map (lower (if nonempty ext then ext else ".jpg"))
              "application/octet-stream")
  ∧ (∀ a, m = Magic (Some a) → mime = a)
  ∧ m ≠ Magic None
  ∧ save_media size (Magic (Some "image/jpg")) ext = Unsupported.
Proof.
  intros H.
  assert (Hsize : size <= 200 * 1024 * 1024).
  { unfold save_media, MAX_MB in H.
    destruct (Z.ltb_spec (200 * 1024 * 1024) size); [discriminate|lia]. }
  assert (Hlast : save_media size (Magic (Some "image/jpg")) ext = Unsupported).
  { unfold save_media, MAX_MB.
    destruct (Z.ltb_spec (200 * 1024 * 1024) size); [lia|].
    assert (Hjpg : ∀ fb, sniff_mime (Magic (Some "image/jpg")) fb
                         = ("image/jpg", ".jpg")) by reflexivity.
    rewrite Hjpg. done. }
  revert Hlast. generalize (save_media size (Magic (Some "image/jpg")) ext).
  intros other Hlast. revert H.
  unfold save_media, MAX_MB.
  destruct (Z.ltb_spec (200 * 1024 * 1024) size) as [|_];
    [intros; discriminate|].
  set (fb := if nonempty ext then ext else ".jpg").
  unfold sniff_mime. cbv beta iota zeta.
  set (mime0 := match m with
                | NoMagic => dict_get ext_map (lower fb) _
                | Magic (Some a) => a
                | Magic None => _
                end).
  destruct (str_in mime0 ALLOWED_MIMES) eqn:Hal; cbn [negb];
    [|intros; discriminate].
  assert (Hin := proj1 (str_in_spec _ _) Hal).
  assert (Hshape : ∀ e k, (if str_in mime0 IMG_MIMES then Saved mime0 e "image"
                           else Saved mime0 e "video") = Saved mime ext2 k →
                   mime = mime0 ∧ ext2 = e
                   ∧ (str_in mime0 IMG_MIMES = true ∧ k = "image"
                      ∨ str_in mime0 IMG_MIMES = false ∧ k = "video")).
  { intros e k. destruct (str_in mime0 IMG_MIMES); intros [= <- <- <-]; auto. }
  intros H. apply Hshape in H as (-> & -> & Hk).
  split; [lia|]. split; [done|].
  assert (Hcases : mime0 = "image/jpeg" ∨ mime0 = "image/png"
                   ∨ mime0 = "image/gif" ∨ mime0 = "video/mp4"
                   ∨ mime0 = "video/webm" ∨ mime0 = "video/quicktime").
  { unfold ALLOWED_MIMES, IMG_MIMES, VID_MIMES in Hin. cbn [app] in Hin.
    rewrite !elem_of_cons, elem_of_nil in Hin. tauto. }
  split; [|split; [|split; [|split; [|split]]]].
  - destruct Hk as [[Hi ->]|[Hi ->]].
    + left. split; [by apply str_in_spec|done].
    + right. split; [|done].
      destruct Hcases as [E|[E|[E|[E|[E|E]]]]]; rewrite E in *;
        try discriminate; unfold VID_MIMES; rewrite !elem_of_cons; auto.
  - destruct Hcases as [E|[E|[E|[E|[E|E]]]]]; rewrite E; reflexivity.
  - intros ->. reflexivity.
  - intros a ->. reflexivity.
  - intros ->. subst mime0. discriminate.
  - done.
Qed.

End UploadFacts.

(** * The drag board *)

Module GridFacts.
Import SqlFacts Corkboard Grid.

Lemma fetch_persist_item s FAMILY nid x y k :
  fetch_by_id (notes (persist_item s FAMILY (nid, x, y))) k
  = (λ n, if (k =? nid) && String.eqb (n_family n) FAMILY
          then set_note_xy (x * 80) (y * 60) n else n)
    <$> fetch_by_id (notes s) k.
Proof.
  unfold persist_item, save_position, fetch_by_id. cbn [notes with_notes].
  by rewrite lookup_update_where.
Qed.

Lemma cell_of_saved x y id n :
  0 <= x <= 11 → 0 <= y →
  to_grid (id, set_note_xy (x * 80) (y * 60) n) = mkgrid (pretty id) x y.
Proof.
  intros Hx Hy. unfold to_grid, or_40. cbn [fst snd n_x n_y set_note_xy].
  f_equal.
  - destruct (Z.eqb_spec (x * 80) 0) as [E|E].
    + assert (x = 0) as -> by lia. reflexivity.
    + rewrite Z.div_mul by lia. lia.
  - destruct (Z.eqb_spec (y * 60) 0) as [E|E].
    + assert (y = 0) as -> by lia. reflexivity.
    + rewrite Z.div_mul by lia. lia.
Qed.

(** X15. The board shows every note in a cell of its twelve columns, a fresh note
    (at 40, 40) in the top-left one.  A cell saved from the layout is the
    cell the note is shown in next time, also for column or row 0, whose
    stored coordinate 0 is read as 40; so saving the layout as shown, without
    a drag, keeps every note where it is.  Saving touches the position only,
    and only of notes of the acting family that the layout names. *)
Theorem saved_cell_is_shown_again (s : store) (FAMILY : string)
    (layout : list (Z * Z * Z)) :
  NoDup (layout.*1.*1) →
  (∀ item, item ∈ layout → 0 <= item.1.2 <= 11 ∧ 0 <= item.2) →
  let s' := persist_layout s FAMILY layout in
  (∀ kn, 0 <= g_x (to_grid kn) <= 11 ∧ 0 <= g_y (to_grid kn))
  ∧ (∀ id f ord, to_grid (id, new_note FAMILY f ord) = mkgrid (pretty id) 0 0)
  ∧ (∀ id x y n,
       (id, x, y) ∈ layout →
       fetch_by_id (notes s) id = Some n → n_family n = FAMILY →
       fetch_by_id (notes s') id = Some (set_note_xy (x * 80) (y * 60) n)
       ∧ to_grid (id, set_note_xy (x * 80) (y * 60) n) = mkgrid (pretty id) x y)
  ∧ (∀ id n,
       fetch_by_id (notes s) id = Some n →
       n_family n ≠ FAMILY ∨ id ∉ layout.*1.*1 →
       fetch_by_id (notes s') id = Some n)
  ∧ (∀ id, fetch_by_id (notes s) id = None → fetch_by_id (notes s') id = None).
Proof.
  intros Hnd Hrange s'. split; [|split].
  { intros kn. unfold to_grid. cbn [g_x g_y]. lia. }
  { intros id f ord. reflexivity. }
  subst s'. revert s Hnd Hrange.
  induction layout as [|[[nid x0] y0] layout IH]; intros s Hnd Hrange.
  { split; [|split].
    - intros id x y n Hin. by apply elem_of_nil in Hin.
    - done.
    - done. }
  rewrite !fmap_cons in Hnd. cbn [fst] in Hnd.
  apply NoDup_cons in Hnd as [Hnin Hnd].
  assert (Hrange' : ∀ item, item ∈ layout →
                            0 <= item.1.2 <= 11 ∧ 0 <= item.2).
  { intros item Hi. apply Hrange. by right. }
  cbn [persist_layout foldl].
  fold (persist_layout (persist_item s FAMILY (nid, x0, y0)) FAMILY layout).
  destruct (IH (persist_item s FAMILY (nid, x0, y0)) Hnd Hrange')
    as (IH1 & IH2 & IH3).
  split; [|split].
  - intros id x y n Hin Hn Hf.
    pose proof (Hrange _ Hin) as [Hx Hy]. cbn [fst snd] in Hx, Hy.
    split; [|by apply cell_of_saved].
    apply elem_of_cons in Hin as [[= -> -> ->]|Hin].
    + apply IH2; [|by right].
      rewrite fetch_persist_item, Hn. cbn [fmap option_fmap option_map].
      rewrite Z.eqb_refl, Hf, String.eqb_refl. done.
    + assert (id ≠ nid).
      { intros ->. apply Hnin. apply list_elem_of_fmap.
        exists (nid, x). split; [done|]. apply list_elem_of_fmap.
        by exists (nid, x, y). }
      destruct (IH1 id x y n Hin) as [H1 _]; [|done|done].
      rewrite fetch_persist_item, Hn. cbn [fmap option_fmap option_map].
      by destruct (Z.eqb_spec id nid).
  - intros id n Hn Hor. apply IH2.
    + rewrite fetch_persist_item, Hn. cbn [fmap option_fmap option_map].
      destruct Hor as [Hf|Hid].
      * destruct (String.eqb_spec (n_family n) FAMILY); [done|].
        by rewrite andb_false_r.
      * destruct (Z.eqb_spec id nid) as [->|]; [|done].
        exfalso. apply Hid. rewrite !fmap_cons. left.
    + destruct Hor as [Hf|Hid]; [by left|right].
      intros Hin. apply Hid. rewrite !fmap_cons. by right.
  - intros id Hn. apply IH3. by rewrite fetch_persist_item, Hn.
Qed.

End GridFacts.

(** * RSVPs *)

Module RsvpFacts.
Import SqlFacts Calendar Rsvp.

#[local] Instance attendee_le_total : Total attendee_le.
Proof.
  intros a b. unfold attendee_le, attendee_leb.
  destruct (Z.ltb_spec (status_rank (a_status a)) (status_rank (a_status b)));
    [by left|].
  destruct (Z.ltb_spec (status_rank (a_status b)) (status_rank (a_status a)));
    [by right|].
  assert (E : status_rank (a_status a) = status_rank (a_status b)) by lia.
  rewrite E, Z.eqb_refl. cbn [orb andb].
  apply String.leb_total.
Qed.

#[local] Instance rank_le_trans : Transitive rank_le.
Proof. unfold rank_le. intros a b c ? ?. lia. Qed.

Lemma attendee_le_rank a b : attendee_le a b → rank_le a b.
Proof.
  unfold attendee_le, attendee_leb, rank_le.
  rewrite orb_true_iff, andb_true_iff, Z.ltb_lt, Z.eqb_eq. lia.
Qed.

Lemma Sorted_weaken {A} (R R' : relation A) (l : list A) :
  (∀ x y, R x y → R' x y) → Sorted R l → Sorted R' l.
Proof.
  intros HR. induction 1 as [|x l Hl IH Hhd]; constructor; [done|].
  destruct Hhd; constructor; auto.
Qed.

Lemma elem_of_attendees r p FAMILY event_id a :
  a ∈ attendees r p FAMILY event_id ↔
  ∃ st, my_rsvp r event_id (a_username a) = Some st
        ∧ a = join_profile p FAMILY (event_id, a_username a, st).
Proof.
  unfold attendees, my_rsvp. rewrite merge_sort_Permutation, list_elem_of_fmap.
  split.
  - intros ([[e u] st] & -> & [He Hin]%list_elem_of_filter).
    cbn [fst snd] in He. subst e. apply elem_of_map_to_list in Hin.
    exists st. done.
  - intros (st & Hst & Ha). exists (event_id, a_username a, st).
    split; [done|]. apply list_elem_of_filter. split; [done|].
    by apply elem_of_map_to_list.
Qed.


(** X17. A member has at most one RSVP per event and the last press decides it:
    after Going, Maybe or Can't the member's status is that one, whatever it
    was before, and after Clear there is none; no other member's RSVP and no
    other event's changes.  A press on an event that has meanwhile been
    deleted changes nothing.  Deleting an event of the acting family removes
    all RSVPs on it and no others; a delete aimed at another family's event
    removes none. *)
Theorem last_rsvp_press_decides (s : store) (r : rsvps) (FAMILY : string)
    (event_id : Z) (DISPLAY_NAME : string) (b : rsvp_button) :
  let r' := press_rsvp s r event_id DISPLAY_NAME b in
  (fetch_by_id (events s) event_id = None → r' = r)
  ∧ (is_Some (fetch_by_id (events s) event_id) →
     my_rsvp r' event_id DISPLAY_NAME = Some (status_of b)
     ∧ my_rsvp (clear_rsvp r' event_id DISPLAY_NAME) event_id DISPLAY_NAME
       = None
     ∧ (∀ e u, (e, u) ≠ (event_id, DISPLAY_NAME) →
               my_rsvp r' e u = my_rsvp r e u
               ∧ my_rsvp (clear_rsvp r' event_id DISPLAY_NAME) e u
                 = my_rsvp r e u))
  ∧ (∀ ev, fetch_by_id (events s) event_id = Some ev →
           e_family ev = FAMILY →
           ∀ e u, my_rsvp (delete_event_cascade s r' FAMILY event_id).2 e u
                  = if decide (e = event_id) then None else my_rsvp r' e u)
  ∧ (∀ ev, fetch_by_id (events s) event_id = Some ev →
           e_family ev ≠ FAMILY →
           (delete_event_cascade s r' FAMILY event_id).2 = r').
Proof.
  intros r'. subst r'. unfold press_rsvp, clear_rsvp, my_rsvp.
  unfold rsvps in *.
  assert (Hdel : ∀ k, fetch_by_id (events (delete_event s FAMILY event_id)) k
                      = match fetch_by_id (events s) k with
                        | Some e => if (k =? event_id)
                                       && String.eqb (e_family e) FAMILY
                                    then None else Some e
                        | None => None
                        end).
  { intros k. unfold delete_event, fetch_by_id. cbn [events with_events].
    rewrite lookup_delete_where. by destruct (rows (events s) !! k). }
  split; [by intros ->|]. split; [|split].
  - intros [ev ->]. cbv beta iota. split; [by rewrite lookup_insert_eq|].
    split; [by rewrite lookup_delete_eq|].
    intros e u Hne. rewrite lookup_delete_ne by done.
    by rewrite lookup_insert_ne by done.
  - intros ev Hev Hf e u. unfold delete_event_cascade. cbn [snd].
    rewrite Hdel, Hev, Z.eqb_refl, Hf, String.eqb_refl. cbv beta iota.
    cbn [andb]. case_decide as He.
    + subst e. apply map_lookup_filter_None. right. intros st' _.
      cbn [fst snd]. by intros [].
    + destruct (<[(event_id, DISPLAY_NAME):=status_of b]> r !! (e, u))
        as [st|] eqn:Hst.
      * by apply map_lookup_filter_Some_2.
      * apply map_lookup_filter_None. by left.
  - intros ev Hev Hf. unfold delete_event_cascade. cbn [snd].
    rewrite Hdel, Hev, Z.eqb_refl. cbv beta iota.
    by destruct (String.eqb_spec (e_family ev) FAMILY).
Qed.

End RsvpFacts.

(** * Factory reset *)

Module AdminFacts.
Import SqlFacts Identity Corkboard Lists Notepad Calendar Chat Admin.

Lemma rows_wipe {A} (t : table A) : rows (wipe t) = ∅.
Proof.
  apply map_eq. intros k. unfold wipe. rewrite lookup_delete_where.
  rewrite lookup_empty. by destruct (rows t !! k).
Qed.

Lemma select_where_wipe {A} (p : Z → A → bool) (t : table A) :
  select_where p (wipe t) = [].
Proof. unfold select_where. by rewrite rows_wipe, map_to_list_empty. Qed.

(** X18. The reset is refused unless an admin password is configured, the
    password typed equals it and the confirmation, stripped, is RESET: then
    the database is left exactly as it was.  Otherwise it empties the
    database for every family, not only for the family of the admin: no
    note, list, item, document, event or message can be fetched, every
    listing of every family is empty and every setting reads as its
    default. *)
Theorem factory_reset_is_gated_and_spares_nobody (secret env : option string)
    (pwd txt : string) (s : store) :
  let s' := factory_reset secret env pwd txt s in
  (s' ≠ s →
   pwd ≠ "" ∧ strip txt = "RESET"
   ∧ (secret = Some pwd ∨ truthy secret = false ∧ env = Some pwd))
  ∧ (pwd ≠ "" → strip txt = "RESET" →
     secret = Some pwd ∨ truthy secret = false ∧ env = Some pwd →
     (∀ k, fetch_by_id (notes s') k = None
           ∧ fetch_by_id (reactions s') k = None
           ∧ fetch_by_id (lists s') k = None
           ∧ fetch_by_id (list_items s') k = None
           ∧ fetch_by_id (documents s') k = None
           ∧ fetch_by_id (events s') k = None
           ∧ fetch_by_id (chat_messages s') k = None)
     ∧ (∀ FAMILY fs fa ft page room d0 d1 who key dflt,
          notes_listing s' FAMILY fs fa ft page = []
          ∧ lists_listing s' FAMILY = []
          ∧ docs_listing s' FAMILY = []
          ∧ load_events_between s' FAMILY d0 d1 who = []
          ∧ chat_window s' FAMILY room = []
          ∧ get_setting s' FAMILY key dflt = dflt)).
Proof.
  intros s'. subst s'. unfold factory_reset, ADMIN_KEY. split.
  - intros Hne. destruct (truthy secret) eqn:Hs.
    + destruct secret as [key|]; [|done].
      destruct (nonempty key) eqn:Hk; [|done]. cbn [negb] in Hne.
      destruct (String.eqb_spec pwd key) as [->|]; [|done]. cbn [negb] in Hne.
      destruct (String.eqb_spec (strip txt) "RESET"); [|done].
      split; [|split; [done|by left]].
      unfold nonempty in Hk. by destruct (String.eqb_spec key "").
    + destruct env as [key|]; [|done].
      destruct (nonempty key) eqn:Hk; [|done]. cbn [negb] in Hne.
      destruct (String.eqb_spec pwd key) as [->|]; [|done]. cbn [negb] in Hne.
      destruct (String.eqb_spec (strip txt) "RESET"); [|done].
      split; [|split; [done|by right]].
      unfold nonempty in Hk. by destruct (String.eqb_spec key "").
  - intros Hpwd Htxt Hkey.
    assert (Hnon : nonempty pwd = true).
    { unfold nonempty. by destruct (String.eqb_spec pwd ""). }
    assert ((if truthy secret then secret else env) = Some pwd) as ->.
    { destruct Hkey as [->|[-> ->]]; [|done].
      cbn [truthy]. fold (nonempty pwd). by rewrite Hnon. }
    rewrite Hnon, !String.eqb_refl, Htxt, String.eqb_refl. cbn [negb].
    unfold wipe_everything. split.
    + intros k. unfold fetch_by_id.
      cbn [notes reactions lists list_items documents events chat_messages].
      by rewrite !rows_wipe, !lookup_empty.
    + intros FAMILY fs fa ft page room d0 d1 who key dflt.
      unfold notes_listing, lists_listing, docs_listing, load_events_between,
        chat_window, get_setting.
      cbn [notes lists documents events chat_messages app_settings].
      rewrite !select_where_wipe, lookup_empty.
      repeat split; try reflexivity.
      unfold limit_offset. by destruct (page * PAGE_SIZE)%nat.
Qed.

End AdminFacts.

(** * The due filter *)

Module DueFacts.
Import SqlFacts PyDate PyDateTime DateFacts IsoFacts Corkboard Calendar Due.

Lemma time_of_seconds t :
  valid_time t = true →
  0 <= seconds_of t < 86400
  ∧ mktime (seconds_of t / 3600) (seconds_of t / 60 mod 60)
      (seconds_of t mod 60) = t.
Proof.
  intros (H & M & S)%valid_time_inv. unfold seconds_of.
  split; [lia|]. destruct t as [h m s]. cbn [hour minute second] in *.
  f_equal; Z.div_mod_to_equations; lia.
Qed.

Lemma parse_aware_iso_utc now d t :
  valid d = true → valid_time t = true →
  parse_aware now (isoformat (combine_utc d t)) = Some (combine_utc d t).
Proof.
  intros Vd Vt. unfold parse_aware. rewrite isoformat_nonempty. cbn [negb].
  rewrite fromisoformat_isoformat by (done || by right).
  cbn [mbind option_bind combine_utc dt_date dt_time tzoffset default
       from_option id].
  destruct (time_of_seconds t Vt) as [Hr Ht].
  pose proof (toordinal_range d Vd) as Ho.
  replace ((toordinal d * 86400 + seconds_of t - 0 * 60) / 86400)
    with (toordinal d) by (Z.div_mod_to_equations; lia).
  replace ((toordinal d * 86400 + seconds_of t - 0 * 60) mod 86400)
    with (seconds_of t) by (Z.div_mod_to_equations; lia).
  rewrite fromordinal_toordinal by done. cbn [mbind option_bind].
  by rewrite Ht.
Qed.

Lemma time_ltb_seconds a b :
  valid_time a = true → valid_time b = true →
  time_ltb a b = true ↔ seconds_of a < seconds_of b.
Proof.
  intros (Ha & Ma & Sa)%valid_time_inv (Hb & Mb & Sb)%valid_time_inv.
  unfold time_ltb, seconds_of.
  rewrite !orb_true_iff, !andb_true_iff, !Z.ltb_lt, !Z.eqb_eq. lia.
Qed.

Lemma seconds_of_inj a b :
  valid_time a = true → valid_time b = true →
  seconds_of a = seconds_of b → a = b.
Proof.
  intros Va Vb E. destruct (time_of_seconds a Va) as [_ <-].
  destruct (time_of_seconds b Vb) as [_ <-]. by rewrite E.
Qed.

Lemma before_now_instant dt now now_us :
  valid (dt_date dt) = true → valid_time (dt_time dt) = true →
  valid (dt_date now) = true → valid_time (dt_time now) = true →
  before_now dt now now_us = true ↔
  toordinal (dt_date dt) * 86400 + seconds_of (dt_time dt)
  < toordinal (dt_date now) * 86400 + seconds_of (dt_time now)
  ∨ (toordinal (dt_date dt) * 86400 + seconds_of (dt_time dt)
     = toordinal (dt_date now) * 86400 + seconds_of (dt_time now)
     ∧ 0 < now_us).
Proof.
  intros Vd Vt Vnd Vnt. unfold before_now, PyDate.ltb.
  destruct (time_of_seconds _ Vt) as [Rt _].
  destruct (time_of_seconds _ Vnt) as [Rn _].
  repeat (rewrite orb_true_iff || rewrite andb_true_iff).
  rewrite negb_true_iff, !bool_decide_eq_true, bool_decide_eq_false, Z.ltb_lt.
  rewrite time_ltb_seconds by done.
  rewrite leb_toordinal by done.
  split.
  - intros [[Hle Hne]|[Hd [Hlt|[Ht Hus]]]].
    + assert (toordinal (dt_date dt) ≠ toordinal (dt_date now))
        by (intros E; by apply Hne, toordinal_inj). lia.
    + rewrite Hd. lia.
    + rewrite Hd, Ht. lia.
  - intros H.
    destruct (decide (toordinal (dt_date dt) < toordinal (dt_date now))).
    + left. split; [lia|]. intros E. rewrite E in *. lia.
    + right. assert (toordinal (dt_date dt) = toordinal (dt_date now))
        as E by lia.
      split; [by apply toordinal_inj|].
      destruct H as [H|[H Hus]]; [left; lia|right].
      split; [|done]. apply seconds_of_inj; [done..|]. lia.
Qed.

(** X19. The due filter reads the date and time of the New sticky form back as
    they were entered.  A note added with due date [d] and time [t] (midnight
    when no time is given) is shown under Due today exactly when [d] is
    today's UTC date, and under Overdue exactly when that instant lies before
    now.  A note without due date, or whose stored due text does not parse,
    is shown under All only. *)
Theorem due_filter_reads_the_form_back (now : datetime) (now_us : Z)
    (FAMILY : string) (f : note_fields) (ord : Z) (d : date)
    (t : option time) :
  valid d = true → valid_time (default midnight t) = true →
  valid (dt_date now) = true → valid_time (dt_time now) = true →
  nf_due_iso f = iso_utc (Some d) t →
  let n := new_note FAMILY f ord in
  let due := toordinal d * 86400 + seconds_of (default midnight t) in
  let present :=
    toordinal (dt_date now) * 86400 + seconds_of (dt_time now) in
  include_due All now now_us n = true
  ∧ (include_due DueToday now now_us n = true ↔ d = dt_date now)
  ∧ (include_due Overdue now now_us n = true ↔
     due < present ∨ (due = present ∧ 0 < now_us))
  ∧ ∀ n0 : note,
      truthy (n_due_at n0) = false
      ∨ parse_aware now (default "" (n_due_at n0)) = None →
      include_due All now now_us n0 = true
      ∧ include_due DueToday now now_us n0 = false
      ∧ include_due Overdue now now_us n0 = false.
Proof.
  intros Vd Vt Vnd Vnt Hdue n due present. subst n due present.
  assert (Hp : parse_aware now (isoformat (combine_utc d (default midnight t)))
               = Some (combine_utc d (default midnight t)))
    by (by apply parse_aware_iso_utc).
  assert (Htr : truthy (Some (isoformat (combine_utc d (default midnight t))))
                = true).
  { cbn [truthy]. fold (nonempty (isoformat (combine_utc d (default midnight t)))).
    apply isoformat_nonempty. }
  unfold include_due, new_note. cbn [n_due_at]. rewrite Hdue.
  unfold iso_utc. rewrite Htr. cbn [negb default from_option id].
  change (from_option id midnight t) with (default midnight t).
  rewrite Hp. cbn [combine_utc dt_date].
  split; [done|]. split; [by rewrite bool_decide_eq_true|]. split.
  - rewrite before_now_instant by done. done.
  - intros n0 [H0|H0]; rewrite H0; [done|].
    by destruct (negb (truthy (n_due_at n0))).
Qed.

Lemma length_filter_full {A} (P : A → Prop) `{∀ x, Decision (P x)}
    (l : list A) :
  List.length (filter P l) = List.length l ↔ ∀ x, x ∈ l → P x.
Proof.
  induction l as [|x l IH].
  - split; [|done]. intros _ y Hy. by apply elem_of_nil in Hy.
  - rewrite filter_cons. pose proof (length_filter P l) as Hle.
    case_decide as Hx; cbn [List.length].
    + split.
      * intros E y [->|Hy]%elem_of_cons; [done|]. apply IH; [lia|done].
      * intros Hall. f_equal. apply IH. intros y Hy. apply Hall. by right.
    + split; [lia|]. intros Hall. destruct Hx. apply Hall. by left.
Qed.

(** X20. The due filter is applied to the page the query returned, and the Next
    button looks at what is left: Next is enabled exactly when the query
    filled the page with 25 notes and every one of them passed the due
    filter.  So one note of the page that the due filter hides disables
    Next, whatever the later pages hold.  Without a due filter the page is
    shown as the query gave it.
    Prev is enabled from page 1 on, and Prev and Next undo each other. *)
Theorem next_needs_a_full_page_after_the_due_filter (s : store)
    (FAMILY fs fa ft : string) (f_due : due_filter) (now : datetime)
    (now_us : Z) (page : nat) :
  let rows := notes_listing s FAMILY fs fa ft page in
  let view := board_view s FAMILY fs fa ft f_due now now_us page in
  (next_enabled view = true ↔
   List.length rows = PAGE_SIZE
   ∧ ∀ kn, kn ∈ rows → include_due f_due now now_us kn.2 = true)
  ∧ (∀ kn, kn ∈ view ↔
           kn ∈ rows ∧ include_due f_due now now_us kn.2 = true)
  ∧ board_view s FAMILY fs fa ft All now now_us page = rows
  ∧ prev_page (next_page page) = page
  ∧ (prev_enabled page = true → next_page (prev_page page) = page)
  ∧ (prev_enabled page = false → page = 0%nat).
Proof.
  intros rows view. subst rows view. unfold board_view.
  set (rows := notes_listing s FAMILY fs fa ft page).
  assert (Hlen : (List.length rows ≤ PAGE_SIZE)%nat).
  { subst rows. unfold notes_listing, limit_offset. rewrite length_take. lia. }
  split; [|split; [|split; [|split; [|split]]]].
  - unfold next_enabled. rewrite negb_true_iff, Nat.ltb_ge.
    pose proof (length_filter (λ kn, include_due f_due now now_us kn.2 = true)
                  rows) as Hle.
    pose proof (length_filter_full
                  (λ kn : Z * note, include_due f_due now now_us kn.2 = true)
                  rows) as [F1 F2].
    split.
    + intros Hge. split; [lia|]. apply F1. lia.
    + intros [E1 E2]. specialize (F2 E2). lia.
  - intros kn. rewrite list_elem_of_filter. tauto.
  - cbn [include_due]. clear Hlen. clearbody rows.
    induction rows as [|kn l IH]; [done|].
    rewrite filter_cons. case_decide; [by f_equal|done].
  - unfold prev_page, next_page. lia.
  - unfold prev_enabled, prev_page, next_page.
    rewrite negb_true_iff, Nat.eqb_neq. lia.
  - unfold prev_enabled. rewrite negb_false_iff, Nat.eqb_eq. done.
Qed.

End DueFacts.

(** * Searching the board *)

Module SearchFacts.
Import SqlFacts IsoFacts Windows Corkboard Board Search.

Lemma like_percent t : like "%" t = true.
Proof.
  induction t as [|d t IH]; [done|].
  change (like "%" (String d t)) with (like "" (String d t) || like "%" t).
  rewrite IH. apply orb_true_r.
Qed.

Lemma like_star_unfold p t :
  like (String "%" p) t
  = like p t || match t with
                | EmptyString => false
                | String _ t' => like (String "%" p) t'
                end.
Proof. by destruct t. Qed.

Lemma like_star p t :
  like (String "%" p) t = true ↔
  ∃ pre post, t = pre +:+ post ∧ like p post = true.
Proof.
  induction t as [|d t IH]; rewrite like_star_unfold, orb_true_iff.
  - split.
    + intros [H|H]; [|done]. by exists "", "".
    + intros (pre & post & E & H). left.
      destruct pre; [|discriminate]. rewrite append_Empty in E. by subst.
  - rewrite IH. split.
    + intros [H|(pre & post & -> & H)].
      * by exists "", (String d t).
      * exists (String d pre), post. by rewrite append_String.
    + intros (pre & post & E & H). destruct pre as [|c pre].
      * rewrite append_Empty in E. subst post. by left.
      * rewrite append_String in E. injection E as -> ->. right. eauto.
Qed.

(** A text matches itself as a pattern, wildcards or not. *)
Lemma like_self q p rest :
  like p rest = true → like (q +:+ p) (q +:+ rest) = true.
Proof.
  intros H. induction q as [|c q IH]; [by rewrite !append_Empty|].
  rewrite !append_String.
  destruct (Ascii.eqb_spec c "%") as [->|Hp].
  - rewrite like_star_unfold. apply orb_true_iff. right.
    apply like_star. by exists "", (q +:+ rest).
  - destruct (Ascii.eqb_spec c "_") as [->|Hu]; [exact IH|].
    cbn [like]. destruct (Ascii.eqb_spec c "%"); [done|].
    destruct (Ascii.eqb_spec c "_"); [done|].
    by rewrite Ascii.eqb_refl, IH.
Qed.

Lemma lower_ascii_wild c :
  (lower_ascii c = "%"%char → c = "%"%char)
  ∧ (lower_ascii c = "_"%char → c = "_"%char).
Proof. revert c. intros [[] [] [] [] [] [] [] []]; split; (done || discriminate). Qed.

Lemma wildcard_free_lower s :
  wildcard_free s = true → wildcard_free (lower s) = true.
Proof.
  induction s as [|c s IH]; [done|]. cbn [wildcard_free lower].
  rewrite !andb_true_iff, !negb_true_iff. intros [[Hp Hu] Hs].
  apply Ascii.eqb_neq in Hp, Hu.
  destruct (lower_ascii_wild c) as [H1 H2].
  split; [split|by apply IH]; apply Ascii.eqb_neq; auto.
Qed.

(** Without wildcards a pattern matches only texts equal to it up to
    case. *)
Lemma like_literal q p t :
  wildcard_free q = true →
  like (q +:+ p) t = true →
  ∃ mid rest, t = mid +:+ rest ∧ lower mid = lower q ∧ like p rest = true.
Proof.
  revert t. induction q as [|c q IH]; intros t Hq H.
  - exists "", t. by rewrite append_Empty in H.
  - cbn [wildcard_free] in Hq.
    apply andb_true_iff in Hq as [[Hp Hu]%andb_true_iff Hq].
    apply negb_true_iff in Hp, Hu.
    rewrite append_String in H. cbn [like] in H. rewrite Hp, Hu in H.
    destruct t as [|d t]; [done|].
    apply andb_true_iff in H as [Hc H]. apply Ascii.eqb_eq in Hc.
    destruct (IH t Hq H) as (mid & rest & -> & Hm & Hr).
    exists (String d mid), rest. rewrite append_String. cbn [lower].
    by rewrite Hm, Hc.
Qed.

(** X21. The search boxes of the board.  A note whose text contains the search
    text, in any case, is always found, and an empty search finds every
    note.  When the search text has no [%] and no [_], nothing else is found.
    The two characters are not escaped and act as wildcards: [%] alone finds
    every note and [_] alone every note whose text is not empty. *)
Theorem search_finds_what_contains_the_text (needle col : string) :
  (icontains col needle → filter_hit needle col = true)
  ∧ (wildcard_free needle = true →
     filter_hit needle col = true → icontains col needle)
  ∧ filter_hit "" col = true
  ∧ filter_hit "%" col = true
  ∧ (filter_hit "_" col = true ↔ col ≠ "").
Proof.
  split; [|split; [|split; [|split]]].
  - intros (pre & mid & post & -> & Hm). unfold filter_hit.
    apply orb_true_iff. right. rewrite !lower_app, Hm.
    apply like_star. exists (lower pre), (lower needle +:+ lower post).
    split; [done|]. apply like_self, like_percent.
  - intros Hw. unfold filter_hit. rewrite orb_true_iff.
    intros [->%String.eqb_eq|H]; [apply icontains_empty|].
    apply like_star in H as (pre & post & E & H).
    apply like_literal in H as (mid & rest & -> & Hm & _);
      [|by apply wildcard_free_lower].
    rewrite lower_idemp in Hm.
    apply lower_app_inv in E as (c1 & c23 & -> & _ & E).
    apply lower_app_inv in E as (c2 & c3 & -> & E2 & _).
    exists c1, c2, c3. split; [done|].
    rewrite <- Hm, <- E2. by rewrite lower_idemp.
  - reflexivity.
  - unfold filter_hit. cbn [String.eqb lower orb].
    change ("%" +:+ lower "%" +:+ "%") with ("%" +:+ "%" +:+ "%").
    apply like_star. exists "", (lower col). split; [done|].
    apply like_star. exists "", (lower col). split; [done|].
    apply like_percent.
  - unfold filter_hit.
    change (String.eqb "_" "" || like ("%" +:+ lower "_" +:+ "%") (lower col))
      with (like (String "%" (String "_" "%")) (lower col)).
    rewrite like_star. split.
    + intros (pre & post & E & H) ->. destruct pre; [|discriminate].
      rewrite append_Empty in E. by subst post.
    + intros Hne. destruct col as [|c col]; [done|].
      exists "", (lower (String c col)). split; [done|].
      cbn [lower like]. apply like_percent.
Qed.

End SearchFacts.

(** * Escaping *)

Module HtmlFacts.
Import IsoFacts Html.

Lemma replace_char_app old new a b :
  replace_char old new (a +:+ b)
  = replace_char old new a +:+ replace_char old new b.
Proof.
  induction a as [|d a IH]; [by rewrite !append_Empty|].
  rewrite append_String. cbn [replace_char]. by rewrite IH, app_assoc_str.
Qed.

Lemma html_escape_app a b :
  html_escape (a +:+ b) = html_escape a +:+ html_escape b.
Proof. unfold html_escape. cbv zeta. by rewrite !replace_char_app. Qed.

Lemma html_escape_char c : html_escape (String c "") = esc_char c.
Proof.
  unfold html_escape, esc_char. cbv zeta. cbn [replace_char].
  destruct (Ascii.eqb_spec c "&") as [->|H1]; [reflexivity|].
  rewrite append_String, append_Empty. cbn [replace_char].
  destruct (Ascii.eqb_spec c "<") as [->|H2]; [reflexivity|].
  rewrite append_String, append_Empty. cbn [replace_char].
  destruct (Ascii.eqb_spec c ">") as [->|H3]; [reflexivity|].
  rewrite append_String, append_Empty. cbn [replace_char].
  destruct (Ascii.eqb_spec c "034") as [->|H4]; [reflexivity|].
  rewrite append_String, append_Empty. cbn [replace_char].
  destruct (Ascii.eqb_spec c "039") as [->|H5]; [reflexivity|].
  reflexivity.
Qed.

Lemma html_escape_cons c s :
  html_escape (String c s) = esc_char c +:+ html_escape s.
Proof.
  change (String c s) with (String c "" +:+ s).
  by rewrite html_escape_app, html_escape_char.
Qed.

Lemma has_char_app c a b :
  has_char c (a +:+ b) = has_char c a || has_char c b.
Proof.
  induction a as [|d a IH]; [by rewrite append_Empty|].
  rewrite append_String. cbn [has_char]. by rewrite IH, orb_assoc.
Qed.

Lemma esc_char_inert c d :
  has_char d (esc_char c) = true →
  d ≠ "<"%char ∧ d ≠ ">"%char ∧ d ≠ "034"%char ∧ d ≠ "039"%char.
Proof.
  unfold esc_char.
  destruct (Ascii.eqb_spec c "&");
    [|destruct (Ascii.eqb_spec c "<");
      [|destruct (Ascii.eqb_spec c ">");
        [|destruct (Ascii.eqb_spec c "034");
          [|destruct (Ascii.eqb_spec c "039")]]]];
    cbn [has_char]; rewrite ?orb_true_iff, ?orb_false_r;
    intros H; repeat (destruct H as [H|H]);
    try discriminate; apply Ascii.eqb_eq in H; subst d;
    repeat split; (discriminate || congruence).
Qed.

(** X22. Escaped text is inert: whatever the text, the result has no [<], no
    [>], no double quote and no apostrophe, so it can neither open a tag nor
    end an attribute value.  Escaping goes character by character, so the
    pieces of a page can be escaped apart and joined; a text without any of
    the five special characters is left as it is, and a missing text is the
    empty string. *)
Theorem escaped_text_is_inert (s t : string) :
  (∀ d, has_char d (esc (Some s)) = true →
        d ≠ "<"%char ∧ d ≠ ">"%char ∧ d ≠ "034"%char ∧ d ≠ "039"%char)
  ∧ esc (Some (s +:+ t)) = esc (Some s) +:+ esc (Some t)
  ∧ ((∀ d, has_char d s = true → special d = false) → esc (Some s) = s)
  ∧ esc None = "" ∧ esc (Some "") = ""
  ∧ (String.length s <= String.length (esc (Some s)))%nat.
Proof.
  assert (He : ∀ x, esc (Some x) = html_escape x).
  { intros x. unfold esc, or_str. by destruct (String.eqb_spec x "") as [->|]. }
  rewrite !He. split; [|split; [|split; [|split; [|split]]]].
  - induction s as [|c s IH]; intros d.
    + cbn. discriminate.
    + rewrite html_escape_cons, has_char_app, orb_true_iff.
      intros [H|H]; [by eapply esc_char_inert|by apply IH].
  - apply html_escape_app.
  - induction s as [|c s IH]; intros Hs; [done|].
    rewrite html_escape_cons, IH.
    + assert (Hc : special c = false).
      { apply Hs. cbn [has_char]. by rewrite Ascii.eqb_refl. }
      unfold special in Hc. rewrite !orb_false_iff in Hc.
      destruct Hc as [[[[H1 H2] H3] H4] H5].
      unfold esc_char. by rewrite H1, H2, H3, H4, H5.
    + intros d Hd. apply Hs. cbn [has_char]. rewrite Hd. apply orb_true_r.
  - reflexivity.
  - reflexivity.
  - induction s as [|c s IH]; [done|].
    rewrite html_escape_cons.
    assert (Hl : ∀ a b, String.length (a +:+ b)
                        = (String.length a + String.length b)%nat)
      by (intros a b; induction a as [|x a IHa];
          [by rewrite append_Empty
          |rewrite append_String; cbn [String.length]; by rewrite IHa]).
    rewrite Hl. cbn [String.length].
    assert (1 <= String.length (esc_char c))%nat.
    { unfold esc_char. repeat (destruct (Ascii.eqb _ _)); cbn; lia. }
    lia.
Qed.

End HtmlFacts.

(** * Family feed *)

Module FeedFacts.
Import SqlFacts Uploads Feed PromoteFacts Listings.

Lemma like_count_insert (likes : gset (Z * string)) p u q :
  (p, u) ∉ likes →
  size (filter (λ k : Z * string, k.1 = q) ({[(p, u)]} ∪ likes))
  = ((if decide (p = q) then 1 else 0)
     + size (filter (λ k : Z * string, k.1 = q) likes))%nat.
Proof.
  intros Hnin. rewrite filter_union_L, size_union.
  2:{ intros x [_ Hx%elem_of_singleton]%elem_of_filter [_ Hl]%elem_of_filter.
      by subst x. }
  assert (size (filter (λ k : Z * string, k.1 = q) ({[(p, u)]} : gset _))
          = if decide (p = q) then 1%nat else 0%nat) as ->; [|done].
  case_decide as Hpq.
  - assert (filter (λ k : Z * string, k.1 = q) ({[(p, u)]} : gset _)
            = {[(p, u)]}) as ->.
    { apply set_eq. intros x. rewrite elem_of_filter, elem_of_singleton.
      split; [tauto|]. intros ->. done. }
    apply size_singleton.
  - assert (filter (λ k : Z * string, k.1 = q) ({[(p, u)]} : gset _)
            = ∅) as ->.
    { apply set_eq. intros x.
      rewrite elem_of_filter, elem_of_singleton, elem_of_empty.
      split; [|done]. intros [Hx ->]. done. }
    apply size_empty.
  - apply _.
Qed.

Lemma like_remove_add (likes : gset (Z * string)) x :
  x ∈ likes → likes = {[x]} ∪ likes ∖ {[x]}.
Proof. intros Hin. apply union_difference_singleton_L in Hin. done. Qed.

(** X23. The Like button flips the viewer's own like of the post and nothing
    else: the post's count goes up by one or, when the viewer had liked it,
    down by one; no other member's like and no other post's count changes;
    posts and comments are untouched; a second press restores the likes as
    they were. *)
Theorem like_button_flips_one_like (f : feed) (post_id : Z)
    (DISPLAY_NAME : string) :
  is_Some (fetch_by_id (posts f) post_id) →
  let f' := press_like f post_id DISPLAY_NAME in
  liked f' post_id DISPLAY_NAME = negb (liked f post_id DISPLAY_NAME)
  ∧ (if liked f post_id DISPLAY_NAME
     then like_count f post_id = S (like_count f' post_id)
     else like_count f' post_id = S (like_count f post_id))
  ∧ (∀ p u, (p, u) ≠ (post_id, DISPLAY_NAME) → liked f' p u = liked f p u)
  ∧ (∀ p, p ≠ post_id → like_count f' p = like_count f p)
  ∧ posts f' = posts f ∧ post_comments f' = post_comments f
  ∧ post_likes (press_like f' post_id DISPLAY_NAME) = post_likes f.
Proof.
  intros [p0 Hp] f'. subst f'. unfold press_like. rewrite Hp.
  destruct (liked f post_id DISPLAY_NAME) eqn:Hl; unfold liked in Hl.
  - apply bool_decide_eq_true in Hl as Hin.
    unfold liked, like_count. cbn [post_likes posts post_comments negb].
    assert (Hout : (post_id, DISPLAY_NAME)
                   ∉ post_likes f ∖ {[(post_id, DISPLAY_NAME)]}).
    { intros [_ Hx]%elem_of_difference. apply Hx. by apply elem_of_singleton. }
    rewrite (bool_decide_eq_false_2 _ Hout). rewrite Hp.
    cbn [post_likes posts post_comments negb].
    split; [done|]. split.
    { rewrite (like_remove_add _ _ Hin) at 1.
      rewrite like_count_insert by done. by rewrite decide_True. }
    split.
    { intros p u Hne. apply bool_decide_ext.
      rewrite elem_of_difference, elem_of_singleton. tauto. }
    split.
    { intros p Hne. rewrite (like_remove_add _ _ Hin) at 2.
      rewrite like_count_insert by done. by rewrite decide_False. }
    split; [done|]. split; [done|].
    symmetry. by apply like_remove_add.
  - apply bool_decide_eq_false in Hl as Hnin.
    unfold liked, like_count. cbn [post_likes posts post_comments negb].
    assert (Hin : (post_id, DISPLAY_NAME)
                  ∈ {[(post_id, DISPLAY_NAME)]} ∪ post_likes f)
      by (apply elem_of_union; left; by apply elem_of_singleton).
    rewrite (bool_decide_eq_true_2 _ Hin).
    cbn [post_likes posts post_comments negb].
    split; [done|]. split.
    { rewrite like_count_insert by done. by rewrite decide_True. }
    split.
    { intros p u Hne. apply bool_decide_ext.
      rewrite elem_of_union, elem_of_singleton. tauto. }
    split.
    { intros p Hne. rewrite like_count_insert by done.
      by rewrite decide_False. }
    split; [done|]. split; [done|].
    apply set_eq. intros y.
    rewrite elem_of_difference, elem_of_union, elem_of_singleton.
    split; [tauto|]. intros Hy. split; [by right|]. by intros ->.
Qed.


Lemma attach_stops pre bad rest media post_id :
  Forall (λ u, ∃ mime ext media_type, u = Saved mime ext media_type) pre →
  (∀ mime ext media_type, bad ≠ Saved mime ext media_type) →
  attach media post_id (pre ++ bad :: rest) = attach media post_id pre.
Proof.
  intros Hpre Hbad. revert media.
  induction Hpre as [|u pre (mime & ext & mt & ->) _ IH]; intros media.
  - cbn [app attach]. destruct bad; [done|done|]. by destruct (Hbad mime ext media_type).
  - cbn [app attach]. apply IH.
Qed.

Lemma attach_rows uploads media post_id k m :
  fetch_by_id (attach media post_id uploads) k = Some m →
  fetch_by_id media k = Some m
  ∨ pm_post_id m = post_id
    ∧ Saved (pm_mime m) (pm_ext m) (pm_media_type m) ∈ uploads.
Proof.
  revert media. induction uploads as [|u uploads IH]; intros media H.
  - by left.
  - destruct u as [| |mime ext mt]; cbn [attach] in H; [by left|by left|].
    apply IH in H as [H|[H1 H2]].
    + unfold fetch_by_id in H. rewrite lookup_insert_row in H.
      case_decide; [|by left]. injection H as <-. right. split; [done|].
      cbn [pm_mime pm_ext pm_media_type]. left.
    + right. split; [done|]. by right.
Qed.

Lemma attach_keeps uploads media post_id k m :
  fetch_by_id media k = Some m →
  fetch_by_id (attach media post_id uploads) k = Some m.
Proof.
  revert media. induction uploads as [|u uploads IH]; intros media H; [done|].
  destruct u as [| |mime ext mt]; cbn [attach]; [done|done|].
  apply IH. unfold fetch_by_id in *. rewrite lookup_insert_row.
  case_decide as Hk; [|done]. subst k. by rewrite next_rowid_fresh in H.
Qed.


Lemma select_where_delete_where {A} (p q : Z → A → bool) (t : table A) :
  List.length (select_where p (delete_where q t))
  = List.length (select_where (λ k r, p k r && negb (q k r)) t).
Proof.
  apply Permutation_length, NoDup_Permutation; try apply NoDup_select_where.
  intros [k r]. rewrite !elem_of_select_where, lookup_delete_where.
  destruct (rows t !! k) as [r'|]; cbn; [|split; intros [[=] _]].
  destruct (q k r') eqn:Hq; split.
  - intros [[=] _].
  - intros [[= ->] H]. rewrite Hq, andb_false_r in H. done.
  - intros [[= ->] H]. by rewrite H, Hq.
  - intros [[= ->] [H _]%andb_true_iff]. done.
Qed.

(** X25. Deleting a post takes its likes and comments with it and nothing
    else: the post is gone from the table and from every page of the feed,
    nobody likes it and both its counts are zero; every other post is still
    there, liked by the same members, with the same counts. *)
Theorem deleted_post_takes_its_likes_and_comments (f : feed) (post_id : Z) :
  is_Some (fetch_by_id (posts f) post_id) →
  let f' := delete_post f post_id in
  fetch_by_id (posts f') post_id = None
  ∧ (∀ FAMILY page row, row ∈ feed_page f' FAMILY page → row.1.1.1 ≠ post_id)
  ∧ (∀ u, liked f' post_id u = false)
  ∧ like_count f' post_id = 0%nat
  ∧ comment_count f' post_id = 0%nat
  ∧ ∀ p, p ≠ post_id →
      fetch_by_id (posts f') p = fetch_by_id (posts f) p
      ∧ (∀ u, liked f' p u = liked f p u)
      ∧ like_count f' p = like_count f p
      ∧ comment_count f' p = comment_count f p.
Proof.
  intros [p0 Hp] f'. subst f'. unfold delete_post. rewrite Hp.
  unfold liked, like_count, comment_count, feed_page.
  cbn [posts post_likes post_comments].
  assert (Hgone : fetch_by_id (delete_where (λ k _, k =? post_id) (posts f))
                    post_id = None).
  { unfold fetch_by_id. rewrite lookup_delete_where.
    unfold fetch_by_id in Hp. rewrite Hp. cbn. by rewrite Z.eqb_refl. }
  split; [done|]. split; [|split; [|split; [|split]]].
  - intros FAMILY page row Hrow E.
    apply list_elem_of_fmap in Hrow as ([k p] & -> & Hin).
    cbn [fst] in E. subst k.
    apply elem_of_limit_offset, elem_of_order_by_id_desc,
      elem_of_select_where in Hin as [Hin _].
    cbn [fst] in Hin. unfold fetch_by_id in Hgone. congruence.
  - intros u. apply bool_decide_eq_false. rewrite elem_of_filter.
    cbn [fst]. tauto.
  - apply size_empty_iff. intros x.
    rewrite !elem_of_filter. split; [|by intros ?%elem_of_empty].
    intros [E [Hne _]]. done.
  - rewrite select_where_delete_where.
    apply length_zero_iff_nil, Reactions.select_where_nil.
    intros k r _. destruct (Z.eqb_spec (pc_post_id r) post_id); done.
  - intros p Hne. split; [|split; [|split]].
    + unfold fetch_by_id. rewrite lookup_delete_where.
      destruct (rows (posts f) !! p); [|done]. cbn.
      by destruct (Z.eqb_spec p post_id).
    + intros u. apply bool_decide_ext. rewrite elem_of_filter. cbn [fst].
      tauto.
    + f_equal. apply set_eq. intros x. rewrite !elem_of_filter.
      split; [tauto|]. intros [E Hx]. split; [done|]. split; [congruence|done].
    + rewrite select_where_delete_where. f_equal.
      unfold select_where. apply list_filter_iff. intros [k r]. cbn [fst snd].
      destruct (Z.eqb_spec (pc_post_id r) p) as [E|E]; [|done].
      destruct (Z.eqb_spec (pc_post_id r) post_id); [congruence|done].
Qed.

End FeedFacts.

(** * Saving the profile *)

Module ProfileFacts.
Import Identity Rsvp Profile RsvpFacts.

Lemma default_or_none (x : string) : default "" (or_none x) = x.
Proof. unfold or_none. by destruct (String.eqb_spec x "") as [->|]. Qed.


End ProfileFacts.

(** * The New sticky form *)

Module NoteFormFacts.
Import SqlFacts PyDate PyDateTime Corkboard Calendar Uploads NoteForm
  NoteOrder UploadFacts.

(** X27. What Add Note lets through is what the cards can show.  A link is
    stored only when it begins with [http://] or [https://] and then shows
    as a link to exactly that address; a photo only when an upload was
    stored as an image, and then shows the stored file; text and reminders
    are stored as typed, also when empty.  The new note gets the next id,
    belongs to the acting family, carries the due date of the form, and no
    other note changes.  A card never links to an address that does not
    begin with [http://] or [https://], whatever the row holds. *)
Theorem accepted_note_shows_as_entered (s s' : store) (FAMILY : string)
    (f : sticky_form) :
  submit_note s FAMILY f = Some s' →
  let id := next_rowid (notes s) in
  ∃ n,
    fetch_by_id (notes s') id = Some n
    ∧ n_family n = FAMILY ∧ n_deleted_at n = None
    ∧ n_due_at n = iso_utc (sf_due_d f) (sf_due_t f)
    ∧ (∀ k, k ≠ id → fetch_by_id (notes s') k = fetch_by_id (notes s) k)
    ∧ match sf_type_choice f with
      | TText => render_card n = TextCard (sf_content_text f)
      | TReminder => render_card n = ReminderCard (sf_content_text f)
      | TLink =>
          render_card n = LinkCard (sf_content_text f)
          ∧ starts_http (sf_content_text f) = true
      | TPhoto =>
          ∃ mime ext media_type path,
            sf_upload f = Some (Saved mime ext media_type, path)
            ∧ mime ∈ IMG_MIMES
            ∧ render_card n = PhotoCard path
      end
    ∧ (∀ n0 url, render_card n0 = LinkCard url → starts_http url = true)
    ∧ (∀ f0, sf_type_choice f0 = TLink →
             starts_http (sf_content_text f0) = false →
             submit_note s FAMILY f0 = None)
    ∧ (∀ f0, sf_type_choice f0 = TPhoto → sf_upload f0 = None →
             submit_note s FAMILY f0 = None).
Proof.
  intros Hs id. unfold submit_note in Hs.
  destruct (checked_content f) as [content|] eqn:Hc; [|done].
  cbn [mbind option_bind] in Hs. injection Hs as <-.
  set (n := new_note FAMILY
              (mkfields content (sf_color f) (type_name (sf_type_choice f))
                 (sf_assignee f) (iso_utc (sf_due_d f) (sf_due_t f))
                 (sf_tags f)) (next_ord s FAMILY)).
  exists n.
  assert (Hfetch : ∀ k, fetch_by_id (notes (add_note s FAMILY
              (mkfields content (sf_color f) (type_name (sf_type_choice f))
                 (sf_assignee f) (iso_utc (sf_due_d f) (sf_due_t f))
                 (sf_tags f)))) k
            = if decide (k = id) then Some n else fetch_by_id (notes s) k).
  { intros k. unfold add_note, fetch_by_id. cbn [notes with_notes].
    by rewrite lookup_insert_row. }
  split; [by rewrite Hfetch, decide_True|].
  split; [done|]. split; [done|]. split; [done|]. split.
  { intros k Hk. by rewrite Hfetch, decide_False. }
  split; [|split; [|split]].
  - unfold checked_content in Hc. unfold render_card, n, new_note.
    cbn [n_type n_content nf_type_choice nf_content_text].
    destruct (sf_type_choice f); cbn [type_name].
    + injection Hc as <-. reflexivity.
    + destruct (sf_upload f) as [[[| |mime ext mt] path]|]; try done.
      destruct (str_in mime IMG_MIMES) eqn:Hm; [|done].
      injection Hc as <-. exists mime, ext, mt, path.
      split; [done|]. split; [by apply str_in_spec|reflexivity].
    + destruct (starts_http (sf_content_text f)) eqn:Hh; [|done].
      injection Hc as <-.
      change (String.eqb "link" "text") with false.
      change (String.eqb "link" "link") with true. cbv iota.
      by rewrite Hh.
    + injection Hc as <-. reflexivity.
  - intros n0 url. unfold render_card.
    destruct (n_type n0) as [t|]; [|done].
    destruct (String.eqb t "text"); [done|].
    destruct (String.eqb t "link").
    + destruct (starts_http (n_content n0)) eqn:Hh; [|done].
      by intros [= <-].
    + destruct (String.eqb t "photo"); [done|].
      by destruct (String.eqb t "reminder").
  - intros f0 Ht Hh. unfold submit_note, checked_content.
    by rewrite Ht, Hh.
  - intros f0 Ht Hu. unfold submit_note, checked_content.
    by rewrite Ht, Hu.
Qed.

End NoteFormFacts.

(** * Event colours *)

Module ColourFacts.
Import SqlFacts Calendar.

Lemma hash33_range h s : 0 <= h < 4294967296 → 0 <= hash33 h s < 4294967296.
Proof.
  revert h. induction s as [|ch r IH]; intros h Hh; [done|].
  cbn [hash33]. apply IH.
  change 4294967295 with (Z.ones 32). rewrite Z.land_ones by lia.
  change (2 ^ 32) with 4294967296. apply Z.mod_pos_bound. lia.
Qed.

(** X28. The colour of an event is always one of the ten palette colours: the
    hash stays within 32 bits and its index within the palette, whatever the
    assignees text.  It depends on that text alone, so events with the same
    assignees share a colour, and an event without assignees has the colour
    of the text [default].  The background handed to the calendar is the
    border colour with [80] appended. *)
Theorem event_colour_is_a_palette_colour (assignees : option string) :
  assignee_color assignees ∈ palette
  ∧ 0 <= hash33 0 (or_str assignees "default") < 4294967296
  ∧ assignee_color None = assignee_color (Some "default")
  ∧ assignee_color (Some "") = assignee_color (Some "default")
  ∧ ∀ k e,
      ce_borderColor (to_cal_event (k, e)) = assignee_color (e_assignees e)
      ∧ ce_backgroundColor (to_cal_event (k, e))
        = assignee_color (e_assignees e) +:+ "80"
      ∧ ce_borderColor (to_cal_event (k, e)) ∈ palette.
Proof.
  assert (Hin : ∀ a, assignee_color a ∈ palette).
  { intros a. unfold assignee_color. cbv zeta.
    pose proof (hash33_range 0 (or_str a "default") ltac:(lia)) as Hr.
    set (h := hash33 0 (or_str a "default")) in *.
    apply list_elem_of_In, nth_In.
    change (List.length palette) with 10%nat.
    change (Z.of_nat 10) with 10.
    pose proof (Z.mod_pos_bound h 10 ltac:(lia)). lia. }
  split; [apply Hin|]. split; [apply hash33_range; lia|].
  split; [reflexivity|]. split; [reflexivity|].
  intros k e. unfold to_cal_event. cbn [ce_borderColor ce_backgroundColor snd].
  split; [done|]. split; [done|]. apply Hin.
Qed.

End ColourFacts.

(** * The further theorems on sample data *)

Module MoreExamples.
Import SqlFacts PyDate PyDateTime Demo.

(** Alice saves her profile in the family smith; a new session opened on
    the anchored link is hers. *)
Lemma saved_alice_is_sticky :
  let r := Identity.stick_user_to_url_and_settings empty_store ∅
             "Alice" "smith" in
  Identity.get_setting r.1 "smith" "last_active_user" None = Some "Alice"
  ∧ Identity.resolve r.1 r.2 ∅ = ("Alice", "smith").
Proof.
  intros r.
  destruct (StickyFacts.saved_identity_is_sticky empty_store ∅ "Alice" "smith"
              ltac:(discriminate) ltac:(discriminate)) as (H1 & H2 & _).
  split; [exact H1|exact H2].
Defined.

(** A sticky added to the board of [family_A] heads the unfiltered
    listing. *)
Lemma new_sticky_heads_family_A :
  head (Corkboard.notes_listing
          (Corkboard.add_note family_A "A" (sticky "Call grandma"))
          "A" "" "" "" 0)
  = Some (2, Corkboard.new_note "A" (sticky "Call grandma") 2).
Proof.
  exact (BoardPages.new_note_is_listed_first family_A "A"
           (sticky "Call grandma") "" "" "" eq_refl).
Defined.


(** Bob deletes his newest message in [chat3]; alice's stays. *)
Lemma bob_deletes_his_last_message :
  let s' := Chat.delete_message chat3 "A" "general" "bob" 3 in
  fetch_by_id (chat_messages s') 3 = None
  ∧ fetch_by_id (chat_messages s') 2 = fetch_by_id (chat_messages chat3) 2.
Proof.
  intros s'.
  assert (Hin : (3, mkmsg "A" "general" "bob" "lunch?" "t3")
                ∈ ChatRooms.my_recent chat3 "A" "general" "bob").
  { assert (ChatRooms.my_recent chat3 "A" "general" "bob"
            = [(3, mkmsg "A" "general" "bob" "lunch?" "t3");
               (1, mkmsg "A" "general" "bob" "hi" "t1")]) as ->
      by (vm_compute; reflexivity).
    apply list_elem_of_here. }
  destruct (ChatMore.own_message_delete_removes_only_it chat3 "A" "general"
              "bob" 3 _ Hin) as (_ & _ & H1 & _ & _ & H2).
  split; [exact H1|]. apply H2. discriminate.
Defined.

(** Next in the month view of February 2024 shows March, which begins the
    day after February ends; Prev brings February back. *)
Lemma february_to_march_2024 :
  add_days (mkdate 2024 2 29) 1 = Some (mkdate 2024 3 1)
  ∧ CalendarNav.nav_prev Calendar.dayGridMonth (mkdate 2024 3 1)
    = Some (mkdate 2024 2 1).
Proof.
  exact (proj1
           (NavFacts.paging_moves_to_the_adjacent_window Calendar.dayGridMonth
              (mkdate 2024 2 15) eq_refl (mkdate 2024 3 1)
              (mkdate 2024 2 1) (mkdate 2024 2 29)
              (mkdate 2024 3 1) (mkdate 2024 3 31) eq_refl eq_refl)
           eq_refl).
Defined.

(** A timed event made with the Create form and updated untouched. *)
Lemma soccer_practice_survives_update :
  let f := Calendar.mkform " Soccer " (mkdate 2024 3 10) (mkdate 2024 3 10)
             false (mktime 9 0 0) (mktime 10 0 0) "Alex " in
  let s1 := default empty_store (Calendar.create_event empty_store "A" f) in
  ∃ e g s2,
    fetch_by_id (events s1) 1 = Some e
    ∧ ManageEvents.edit_form_defaults noon_now e = Some g
    ∧ Calendar.update_event s1 "A" 1 g = Some s2
    ∧ fetch_by_id (events s2) 1 = fetch_by_id (events s1) 1.
Proof.
  intros f s1.
  destruct (EditFacts.untouched_update_keeps_the_event empty_store s1 "A" f
              noon_now eq_refl eq_refl eq_refl eq_refl eq_refl)
    as (e & g & He & Hg & _ & _ & _ & _ & _ & s2 & Hu & Hk).
  exists e, g, s2. split; [exact He|]. split; [exact Hg|].
  split; [exact Hu|apply Hk].
Defined.


(** An upload named with the extension [.PNG], with no content sniffing
    at hand. *)
Lemma upper_case_png_is_stored_as_png :
  Uploads.save_media 1000 Uploads.NoMagic ".PNG"
  = Uploads.Saved "image/png" ".png" "image"
  ∧ "image/png" ∈ Uploads.ALLOWED_MIMES
  ∧ ".png" = Uploads.canonical_ext "image/png".
Proof.
  destruct (UploadFacts.stored_upload_has_the_extension_of_its_type 1000
              Uploads.NoMagic ".PNG" "image/png" ".png" "image" eq_refl)
    as (_ & H1 & _ & H2 & _).
  split; [reflexivity|]. split; [exact H1|exact H2].
Defined.

(** The note of [family_A] dragged to column 3, row 2. *)
Lemma note1_dragged_to_3_2 :
  fetch_by_id (notes (Grid.persist_layout family_A "A" [(1, 3, 2)])) 1
  = Some (Corkboard.set_note_xy 240 120 note1)
  ∧ Grid.to_grid (1, Corkboard.set_note_xy 240 120 note1)
    = Grid.mkgrid "1" 3 2.
Proof.
  assert (Hnd : NoDup ([(1, 3, 2)] : list (Z * Z * Z)).*1.*1)
    by (apply NoDup_singleton).
  assert (Hr : ∀ item : Z * Z * Z, item ∈ [(1, 3, 2)] →
               0 <= item.1.2 <= 11 ∧ 0 <= item.2).
  { intros item ->%list_elem_of_singleton. cbn. lia. }
  destruct (GridFacts.saved_cell_is_shown_again family_A "A" [(1, 3, 2)]
              Hnd Hr) as (_ & _ & H & _).
  exact (H 1 3 2 note1 (list_elem_of_here _ _) eq_refl eq_refl).
Defined.

(** A sticky due on 2024-03-10 is due today only on that day. *)
Lemma passport_is_due_on_march_10 :
  Due.include_due Due.DueToday MoreDemo.noon_utc 0
    (Corkboard.new_note "A" MoreDemo.due_sticky 1) = true
  ↔ march_10 = mkdate 2024 3 1.
Proof.
  exact (proj1 (proj2
           (DueFacts.due_filter_reads_the_form_back MoreDemo.noon_utc 0 "A"
              MoreDemo.due_sticky 1 march_10 None eq_refl eq_refl eq_refl
              eq_refl eq_refl))).
Defined.

(** Alice takes back her like of the post in [feed1]. *)
Lemma alice_unlikes_the_first_post :
  Feed.liked (Feed.press_like MoreDemo.feed1 1 "alice") 1 "alice" = false
  ∧ Feed.like_count MoreDemo.feed1 1
    = S (Feed.like_count (Feed.press_like MoreDemo.feed1 1 "alice") 1).
Proof.
  assert (Hp : is_Some (fetch_by_id (Feed.posts MoreDemo.feed1) 1))
    by (eexists; reflexivity).
  destruct (FeedFacts.like_button_flips_one_like MoreDemo.feed1 1 "alice" Hp)
    as (H1 & H2 & _).
  split; [exact H1|exact H2].
Defined.

(** The post of [feed1] deleted: alice's like goes with it. *)
Lemma first_post_deleted_with_its_like :
  fetch_by_id (Feed.posts (Feed.delete_post MoreDemo.feed1 1)) 1 = None
  ∧ Feed.liked (Feed.delete_post MoreDemo.feed1 1) 1 "alice" = false.
Proof.
  assert (Hp : is_Some (fetch_by_id (Feed.posts MoreDemo.feed1) 1))
    by (eexists; reflexivity).
  destruct (FeedFacts.deleted_post_takes_its_likes_and_comments MoreDemo.feed1
              1 Hp) as (H1 & _ & H2 & _).
  split; [exact H1|apply H2].
Defined.

(** A link sticky added to the board of [family_A]. *)
Lemma menu_link_shows_as_link :
  let s' := default family_A
              (NoteForm.submit_note family_A "A" MoreDemo.link_form) in
  ∃ n, fetch_by_id (notes s') 2 = Some n
       ∧ NoteForm.render_card n = NoteForm.LinkCard "https://example.org/menu".
Proof.
  intros s'.
  destruct (NoteFormFacts.accepted_note_shows_as_entered family_A s' "A"
              MoreDemo.link_form eq_refl)
    as (n & Hn & _ & _ & _ & _ & [Hc _] & _).
  exists n. split; [exact Hn|exact Hc].
Defined.

(** Family B aims the scoped statements at note 1 and event 1 of
    [family_A]: nothing changes. *)
Lemma family_B_cannot_touch_family_A :
  Corkboard.soft_delete_note family_A "B" 1 "now" = family_A
  ∧ Corkboard.save_position family_A "B" 1 80 60 = family_A
  ∧ Calendar.delete_event family_A "B" 1 = family_A.
Proof.
  destruct (ScopedWrites.scoped_statements_stay_in_family family_A "B" 1)
    as (Hn & He & _).
  assert (H1 : ∀ n, fetch_by_id (notes family_A) 1 = Some n → n_family n ≠ "B")
    by (intros n [= <-]; discriminate).
  assert (H2 : ∀ e, fetch_by_id (events family_A) 1 = Some e →
                    e_family e ≠ "B")
    by (intros e [= <-]; discriminate).
  destruct (Hn H1 "now" 80 60) as [Ha Hb]. destruct (He H2) as [Hc _].
  split; [exact Ha|]. split; [exact Hb|exact Hc].
Defined.

(** Bob answers the picnic of [family_A] with Going, then the picnic is
    deleted. *)
Lemma bob_goes_to_the_picnic :
  let r := Rsvp.press_rsvp family_A ∅ 1 "bob" Rsvp.Going in
  Rsvp.my_rsvp r 1 "bob" = Some "going"
  ∧ Rsvp.my_rsvp (Rsvp.delete_event_cascade family_A r "A" 1).2 1 "bob" = None.
Proof.
  intros r.
  destruct (RsvpFacts.last_rsvp_press_decides family_A ∅ "A" 1 "bob"
              Rsvp.Going) as (_ & Hp & Hd & _).
  destruct (Hp ltac:(eexists; reflexivity)) as (H1 & _).
  split; [exact H1|].
  exact (Hd event1 eq_refl eq_refl 1 "bob").
Defined.

(** The reset with the configured password and the confirmation typed with
    blanks around it empties [family_A]. *)
Lemma reset_with_the_password_empties_family_A :
  let s' := Admin.factory_reset (Some "hunter2") None "hunter2" " RESET "
              family_A in
  fetch_by_id (notes s') 1 = None
  ∧ Corkboard.notes_listing s' "A" "" "" "" 0 = [].
Proof.
  intros s'.
  destruct (AdminFacts.factory_reset_is_gated_and_spares_nobody
              (Some "hunter2") None "hunter2" " RESET " family_A)
    as (_ & H).
  destruct (H ltac:(discriminate) eq_refl ltac:(by left)) as (Hf & Hl).
  destruct (Hf 1) as (H1 & _).
  destruct (Hl "A" "" "" "" 0%nat "general" march_10 march_10 "" "k" None)
    as (H2 & _).
  split; [exact H1|exact H2].
Defined.

End MoreExamples.
